(** * ddlparse: the CREATE TABLE parser and its column model

    A shallow embedding of [src/ddlparse/ddlparse.py].

    Conventions of the embedding.
    - Python text is modelled as [string], a sequence of 8-bit characters.
      The model covers ASCII text: [str.upper], [str.lower], the regular
      expression classes [\d] and [\s] and [int] act on ASCII characters
      only, and characters above 127 are opaque to every one of them.
    - A Python exception is a value of [exn]; a function that may raise
      returns a [result].  The parser object is threaded explicitly: [parse]
      returns the updated parser together with the table it returns.  The
      state in which a raised exception leaves the objects is not tracked.
    - A column object is referenced from one entry of the collection only;
      an assignment to one of its attributes is modelled by storing the
      updated record in that entry.
    - [BQ_DATA_TYPE_DIC] is a [dict] literal; it is iterated in the order in
      which it is written (Python 3.7 and later).
    - The grammar is written with combinators that follow pyparsing 2.2
      ([And], [MatchFirst], [Or], [Optional], [OneOrMore], [Word],
      [CaselessKeyword], [Regex], [Suppress], [Group], [delimitedList]).
      Named results become record fields. *)

From Stdlib Require Import String Ascii List ZArith NArith Bool Lia.
Import ListNotations.
Local Open Scope string_scope.
Local Open Scope bool_scope.

(* ------------------------------------------------------------------ *)
(** * Python values: exceptions, results, text                          *)
(* ------------------------------------------------------------------ *)

Module Py.

(** The exception classes the module can raise.  [ValueError] is raised by
    the module itself (no DDL, unknown data type), [KeyError] by a failed
    dictionary lookup, [IndexError] by an empty [data_type_array],
    [ParseException] by the grammar. *)
Inductive exn : Type :=
| ValueError (msg : string)
| KeyError (key : string)
| IndexError
| ParseException.

Inductive result (A : Type) : Type :=
| Ok (a : A)
| Err (e : exn).
Arguments Ok {A} a.
Arguments Err {A} e.

Definition bind {A B} (r : result A) (k : A -> result B) : result B :=
  match r with
  | Ok a => k a
  | Err e => Err e
  end.

(** ** Characters *)

Definition code (c : ascii) : N := N_of_ascii c.

Definition in_range (lo hi : N) (c : ascii) : bool :=
  (lo <=? code c)%N && (code c <=? hi)%N.

Definition is_upper : ascii -> bool := in_range 65 90.
Definition is_lower : ascii -> bool := in_range 97 122.
Definition is_digit : ascii -> bool := in_range 48 57.
Definition is_alpha (c : ascii) : bool := is_upper c || is_lower c.
Definition is_alnum (c : ascii) : bool := is_alpha c || is_digit c.

Definition upper_char (c : ascii) : ascii :=
  if is_lower c then ascii_of_N (code c - 32) else c.
Definition lower_char (c : ascii) : ascii :=
  if is_upper c then ascii_of_N (code c + 32) else c.

(** ** Strings *)

Fixpoint map_str (f : ascii -> ascii) (s : string) : string :=
  match s with
  | EmptyString => EmptyString
  | String c s' => String (f c) (map_str f s')
  end.

(** [str.upper()] and [str.lower()] on ASCII text, where they change the
    letters a to z and A to Z only and keep the length.  (On other text
    the methods of Python can change more, and the length.) *)
Definition upper : string -> string := map_str upper_char.
Definition lower : string -> string := map_str lower_char.

Fixpoint str_all (f : ascii -> bool) (s : string) : bool :=
  match s with
  | EmptyString => true
  | String c s' => f c && str_all f s'
  end.

Fixpoint take_while (f : ascii -> bool) (s : string) : string :=
  match s with
  | EmptyString => EmptyString
  | String c s' => if f c then String c (take_while f s') else EmptyString
  end.

Fixpoint drop_while (f : ascii -> bool) (s : string) : string :=
  match s with
  | EmptyString => EmptyString
  | String c s' => if f c then drop_while f s' else s
  end.

Fixpoint drop (n : nat) (s : string) : string :=
  match n, s with
  | O, _ => s
  | S n', String _ s' => drop n' s'
  | S _, EmptyString => EmptyString
  end.

Fixpoint take (n : nat) (s : string) : string :=
  match n, s with
  | S n', String c s' => String c (take n' s')
  | _, _ => EmptyString
  end.

(** [s.startswith(p)]. *)
Fixpoint startswith (p s : string) : bool :=
  match p, s with
  | EmptyString, _ => true
  | String a p', String b s' => Ascii.eqb a b && startswith p' s'
  | String _ _, EmptyString => false
  end.

(** [sub in s]: the substring test. *)
Fixpoint contains (sub s : string) : bool :=
  startswith sub s ||
  match s with
  | EmptyString => false
  | String _ s' => contains sub s'
  end.

(** [c in chars] for a one-character string [c]. *)
Fixpoint char_in (chars : string) (c : ascii) : bool :=
  match chars with
  | EmptyString => false
  | String a chars' => Ascii.eqb a c || char_in chars' c
  end.

(** [sep.join(parts)]. *)
Fixpoint join (sep : string) (parts : list string) : string :=
  match parts with
  | [] => EmptyString
  | [p] => p
  | p :: rest => p ++ sep ++ join sep rest
  end.

(** [int(s)] on a string of decimal digits (the only use in the source is
    on text matched by [\d+]).  Since Python 3.11 [int()] raises
    [ValueError] for a text of more than 4300 digits; this function is
    [int()] on the texts within that limit, and a statement that no
    exception is raised names the limit as a hypothesis. *)
Definition digit_val (c : ascii) : Z := Z.of_N (code c) - 48.

Fixpoint int_acc (acc : Z) (s : string) : Z :=
  match s with
  | EmptyString => acc
  | String c s' => int_acc (acc * 10 + digit_val c) s'
  end.

Definition int (s : string) : Z := int_acc 0 s.

End Py.
Import Py.

Notation "x <- r ;; k" := (Py.bind r (fun x => k))
  (at level 61, r at next level, right associativity).

(* ------------------------------------------------------------------ *)
(** * The regular expressions the module uses                           *)
(* ------------------------------------------------------------------ *)

Module Re.

(** [\s] of a [str] pattern, on ASCII: tab, newline, vertical tab, form
    feed, carriage return, the four separators 28..31, and space. *)
Definition is_space (c : ascii) : bool :=
  in_range 9 13 c || in_range 28 31 c || (code c =? 32)%N.

Definition is_comma (c : ascii) : bool := (code c =? 44)%N.

(** A compiled pattern that is an alternation of literals, such as
    [(CHAR|TEXT)] or [INT|SERIAL|YEAR] (the group has no effect on
    [re.search]). *)
Definition pattern := list string.

(** [re.search(p, s)] as a truth value. *)
Definition search (p : pattern) (s : string) : bool :=
  existsb (fun alt => contains alt s) p.

(** The size pattern of [_set_data_type] (source line 97) reads: a first
    group of one or more digits, any white space, any commas, any white
    space, a second group of zero or more digits.

    [match_size_spec s] is its match at the beginning of [s], for [s]
    starting with a digit: every quantifier is greedy and the
    remainder of the pattern can match the empty string, so no
    backtracking occurs.  Returns the two groups and the unmatched rest. *)
Definition match_size_spec (s : string) : string * string * string :=
  let g1 := take_while is_digit s in
  let r1 := drop_while is_digit s in
  let r2 := drop_while is_space r1 in
  let r3 := drop_while is_comma r2 in
  let r4 := drop_while is_space r3 in
  (g1, take_while is_digit r4, drop_while is_digit r4).

(** The first element of [re.findall] for the size pattern, when the list
    is not empty: the two groups of the leftmost match. *)
Fixpoint findall_size_spec_first (s : string) : option (string * string) :=
  match s with
  | EmptyString => None
  | String c s' =>
      if is_digit c then
        let '(g1, g2, _) := match_size_spec s in Some (g1, g2)
      else findall_size_spec_first s'
  end.

End Re.

(* ------------------------------------------------------------------ *)
(** * class DdlParseBase and class DdlParseTableColumnBase              *)
(* ------------------------------------------------------------------ *)

Module DdlParseBase.

(** [NAME_CASE = IntEnum("NAME_CASE", "original lower upper")]. *)
Inductive NAME_CASE : Type :=
| original
| lower
| upper.

End DdlParseBase.

Module DdlParseTableColumnBase.

(** [_get_name(name_case)], on the [_name] attribute of the object. *)
Definition _get_name (_name : string) (name_case : DdlParseBase.NAME_CASE)
  : string :=
  match name_case with
  | DdlParseBase.lower => Py.lower _name
  | DdlParseBase.upper => Py.upper _name
  | DdlParseBase.original => _name
  end.

End DdlParseTableColumnBase.

(* ------------------------------------------------------------------ *)
(** * class DdlParseColumn                                              *)
(* ------------------------------------------------------------------ *)

Module DdlParseColumn.

Record t : Type := mk {
  _name : string;
  _data_type : string;
  _length : option Z;
  _scale : option Z;
  _constraint : option string;
  _not_null : bool;
  _pk : bool;
  _unique : bool
}.

Definition name (self : t) : string := _name self.
Definition data_type (self : t) : string := _data_type self.
Definition length (self : t) : option Z := _length self.
Definition precision (self : t) : option Z := _length self.
Definition scale (self : t) : option Z := _scale self.
Definition not_null (self : t) : bool := _not_null self.
Definition primary_key (self : t) : bool := _pk self.
Definition unique (self : t) : bool := _unique self.

(** [_set_data_type]: the three attributes it assigns, [_data_type],
    [_length] and [_scale].  An empty [data_type_array] fails at index 0.
    A match of the size pattern is a pair of groups, so the test that it
    has fewer than two members is never true and is left out. *)
Definition _set_data_type (data_type_array : list string)
  : result (string * option Z * option Z) :=
  match data_type_array with
  | [] => Err IndexError
  | ty :: rest =>
      let data_type := upper ty in
      match rest with
      | [] => Ok (data_type, None, None)
      | spec :: _ =>
          match Re.findall_size_spec_first spec with
          | Some (g1, g2) =>
              let scale :=
                if (g2 =? "") || (int g2 =? 0)%Z then None
                else Some (int g2) in
              Ok (data_type, Some (int g1), scale)
          | None => Ok (data_type ++ " " ++ spec, None, None)
          end
      end
  end.

(** The [constraint] setter. *)
Definition set_constraint (self : t) (constraint : option string) : t :=
  let c := option_map upper constraint in
  let found (p : Re.pattern) :=
    match c with
    | None => false
    | Some text => Re.search p text
    end in
  {| _name := _name self;
     _data_type := _data_type self;
     _length := _length self;
     _scale := _scale self;
     _constraint := c;
     _not_null := found ["NOT NULL"; "PRIMARY KEY"];
     _pk := found ["PRIMARY KEY"];
     _unique := found ["UNIQUE"] |}.

Definition set_not_null (self : t) (flag : bool) : t :=
  {| _name := _name self; _data_type := _data_type self;
     _length := _length self; _scale := _scale self;
     _constraint := _constraint self;
     _not_null := flag; _pk := _pk self; _unique := _unique self |}.

Definition set_primary_key (self : t) (flag : bool) : t :=
  {| _name := _name self; _data_type := _data_type self;
     _length := _length self; _scale := _scale self;
     _constraint := _constraint self;
     _not_null := _not_null self; _pk := flag; _unique := _unique self |}.

Definition set_unique (self : t) (flag : bool) : t :=
  {| _name := _name self; _data_type := _data_type self;
     _length := _length self; _scale := _scale self;
     _constraint := _constraint self;
     _not_null := _not_null self; _pk := _pk self; _unique := flag |}.

(** [__init__(name, data_type_array, constraint=None)]. *)
Definition __init__ (name : string) (data_type_array : list string)
           (constraint : option string) : result t :=
  r <- _set_data_type data_type_array ;;
  let '(dt, len, sc) := r in
  Ok (set_constraint
        {| _name := name; _data_type := dt; _length := len; _scale := sc;
           _constraint := None;
           _not_null := false; _pk := false; _unique := false |}
        constraint).

(** The [constraint] getter. *)
Definition constraint (self : t) : string :=
  let constraint_arr :=
    ((if _not_null self
      then [if _pk self then "PRIMARY KEY" else "NOT NULL"] else [])
     ++ (if _unique self then ["UNIQUE"] else []))%list in
  join " " constraint_arr.

(** A condition of [BQ_DATA_TYPE_DIC]: a plain string (compared with
    [==]) or a compiled pattern (tried with [re.search]). *)
Inductive condition : Type :=
| Str (s : string)
| Compiled (p : Re.pattern).

Definition BQ_DATA_TYPE_DIC : list (string * list condition) :=
  [ ("STRING", [Compiled ["CHAR"; "TEXT"]]);
    ("INTEGER", [Compiled ["INT"; "SERIAL"; "YEAR"]]);
    ("FLOAT", [Compiled ["FLOAT"; "DOUBLE"]; Str "REAL"; Str "MONEY"]);
    ("DATE", [Str "DATE"]);
    ("TIME", [Str "TIME"]);
    ("DATETIME", [Str "DATETIME"; Str "TIMESTAMP";
                  Str "TIMESTAMP WITHOUT TIME ZONE"]);
    ("TIMESTAMP", [Str "TIMESTAMPTZ"; Str "TIMESTAMP WITH TIME ZONE"]);
    ("BOOLEAN", [Compiled ["BOOL"]]) ].

(** The test of one condition against [self._data_type]. *)
Definition condition_holds (data_type : string) (c : condition) : bool :=
  match c with
  | Str s => data_type =? s
  | Compiled p => Re.search p data_type
  end.

(** The inner [for condition in conditions] loop: on the first condition
    that holds it assigns [this_bq_type] and breaks; otherwise
    [this_bq_type] is left as it was. *)
Fixpoint conditions_loop (data_type bq_type : string)
         (conditions : list condition) (this_bq_type : option string)
  : option string :=
  match conditions with
  | [] => this_bq_type
  | c :: rest =>
      if condition_holds data_type c then Some bq_type
      else conditions_loop data_type bq_type rest this_bq_type
  end.

(** The outer [for bq_type, conditions in BQ_DATA_TYPE_DIC.items()] loop.
    It has no [break] of its own: every entry is visited. *)
Fixpoint items_loop (data_type : string)
         (items : list (string * list condition))
         (this_bq_type : option string) : option string :=
  match items with
  | [] => this_bq_type
  | (bq_type, conditions) :: rest =>
      items_loop data_type rest
        (conditions_loop data_type bq_type conditions this_bq_type)
  end.

Definition bigquery_data_type (self : t) : result string :=
  match items_loop (_data_type self) BQ_DATA_TYPE_DIC None with
  | Some this_bq_type => Ok this_bq_type
  | None =>
      if (_data_type self =? "NUMERIC") || (_data_type self =? "DECIMAL")
      then Ok (match _scale self with
               | None => "INTEGER"
               | Some _ => "FLOAT"
               end)
      else Err (ValueError
                  ("Unknown data type : '" ++ _data_type self ++ "'"))
  end.

Definition bigquery_mode (self : t) : string :=
  if not_null self then "REQUIRED" else "NULLABLE".

Definition _get_name (self : t) (name_case : DdlParseBase.NAME_CASE) : string :=
  DdlParseTableColumnBase._get_name (_name self) name_case.

(** A value between the double quotes of the format string. *)
Definition quoted (value : string) : string :=
  String "034" (value ++ String "034" "").

(** The format string of [to_bigquery_field], filled in. *)
Definition field_text (name type mode : string) : string :=
  "{" ++ quoted "name" ++ ": " ++ quoted name ++ ", "
      ++ quoted "type" ++ ": " ++ quoted type ++ ", "
      ++ quoted "mode" ++ ": " ++ quoted mode ++ "}".

(** [to_bigquery_field(name_case)]; of the three arguments of [format]
    only [bigquery_data_type] can raise. *)
Definition to_bigquery_field (self : t) (name_case : DdlParseBase.NAME_CASE)
  : result string :=
  type <- bigquery_data_type self ;;
  Ok (field_text (_get_name self name_case) type (bigquery_mode self)).

End DdlParseColumn.

(* ------------------------------------------------------------------ *)
(** * collections.OrderedDict, as far as the module uses it             *)
(* ------------------------------------------------------------------ *)

Module OrderedDict.

(** Keys in insertion order, one entry per key. *)
Definition t (V : Type) : Type := list (string * V).

Fixpoint get {V} (d : t V) (key : string) : option V :=
  match d with
  | [] => None
  | (k, v) :: rest => if k =? key then Some v else get rest key
  end.

(** Assignment keeps the position of a key that is already present and
    appends a new key at the end. *)
Fixpoint set {V} (d : t V) (key : string) (value : V) : t V :=
  match d with
  | [] => [(key, value)]
  | (k, v) :: rest =>
      if k =? key then (k, value) :: rest
      else (k, v) :: set rest key value
  end.

Definition values {V} (d : t V) : list V := map snd d.

Definition keys {V} (d : t V) : list string := map fst d.

End OrderedDict.

(* ------------------------------------------------------------------ *)
(** * class DdlParseColumnDict                                          *)
(* ------------------------------------------------------------------ *)

Module DdlParseColumnDict.

Definition t : Type := OrderedDict.t DdlParseColumn.t.

Definition empty : t := [].

Definition __getitem__ (self : t) (key : string) : result DdlParseColumn.t :=
  match OrderedDict.get self (lower key) with
  | Some column => Ok column
  | None => Err (KeyError (lower key))
  end.

Definition __setitem__ (self : t) (key : string) (value : DdlParseColumn.t)
  : t :=
  OrderedDict.set self (lower key) value.

(** [append] returns the new column and the updated dictionary. *)
Definition append (self : t) (column_name : string)
           (data_type_array : list string) (constraint : option string)
  : result (DdlParseColumn.t * t) :=
  column <- DdlParseColumn.__init__ column_name data_type_array constraint ;;
  Ok (column, __setitem__ self column_name column).

(** A column object is mutable and the dictionary holds a reference to
    it.  [store self key column'] records, in the entry the object was
    read from, the state the object has after an attribute assignment. *)
Definition store (self : t) (key : string) (column' : DdlParseColumn.t) : t :=
  OrderedDict.set self (lower key) column'.

End DdlParseColumnDict.

(* ------------------------------------------------------------------ *)
(** * class DdlParseTable                                               *)
(* ------------------------------------------------------------------ *)

Module DdlParseTable.

(** [_is_temp] is not assigned by the constructor: [None] stands for the
    missing attribute. *)
Record t : Type := mk {
  _name : string;
  _schema : option string;
  _is_temp : option bool;
  _columns : DdlParseColumnDict.t
}.

Definition __init__ : t :=
  {| _name := ""; _schema := None; _is_temp := None;
     _columns := DdlParseColumnDict.empty |}.

Definition name (self : t) : string := _name self.
Definition schema (self : t) : option string := _schema self.
Definition columns (self : t) : DdlParseColumnDict.t := _columns self.

(** The loop of [to_bigquery_fields]: [bq_fields] grows by one field for
    each column, in the order of [values()]. *)
Fixpoint fields_loop (cols : list DdlParseColumn.t)
         (name_case : DdlParseBase.NAME_CASE) (bq_fields : list string)
  : result (list string) :=
  match cols with
  | [] => Ok bq_fields
  | col :: rest =>
      field <- DdlParseColumn.to_bigquery_field col name_case ;;
      fields_loop rest name_case (bq_fields ++ [field])
  end.

Definition to_bigquery_fields (self : t) (name_case : DdlParseBase.NAME_CASE)
  : result string :=
  bq_fields <- fields_loop (OrderedDict.values (_columns self)) name_case [] ;;
  Ok ("[" ++ join "," bq_fields ++ "]").

End DdlParseTable.

(* ------------------------------------------------------------------ *)
(** * The pyparsing combinators the grammar is built from               *)
(* ------------------------------------------------------------------ *)

Module Pyparsing.

(** A parser element reads a prefix of the remaining input and returns
    its tokens and the rest; [None] is a [ParseException]. *)
Definition parser (A : Type) : Type := string -> option (A * string).

Definition ret {A} (a : A) : parser A := fun s => Some (a, s).

Definition andThen {A B} (p : parser A) (k : A -> parser B) : parser B :=
  fun s =>
    match p s with
    | Some (a, rest) => k a rest
    | None => None
    end.

Definition alphas : string :=
  "ABCDEFGHIJKLMNOPQRSTUVWXYZabcdefghijklmnopqrstuvwxyz".
Definition nums : string := "0123456789".
Definition alphanums : string := alphas ++ nums.

(** The default white space characters: space, newline, tab, return. *)
Definition is_white (c : ascii) : bool :=
  char_in (String " " (String "010" (String "009" (String "013" ""))))%char c.

(** Every element of the grammar skips white space before it matches.
    It is applied here at the tokens; an enclosing expression that fails
    gives back the position it started from, and one that succeeds starts
    where its first token starts. *)
Definition preParse (instring : string) : string :=
  drop_while is_white instring.

Definition Literal (matchString : string) : parser string :=
  fun instring =>
    let s := preParse instring in
    if startswith matchString s
    then Some (matchString, drop (String.length matchString) s)
    else None.

(** [CaselessKeyword]: the text at the position equals the keyword up to
    case and is not followed by an identifier character
    (letters, digits, underscore and dollar).  The token is the keyword
    as it was defined. *)
Definition CaselessKeyword (matchString : string) : parser string :=
  fun instring =>
    let s := preParse instring in
    let matchLen := String.length matchString in
    if (upper (take matchLen s) =? upper matchString) &&
       match drop matchLen s with
       | EmptyString => true
       | String c _ => negb (char_in (upper (alphanums ++ "_$")) (upper_char c))
       end
    then Some (matchString, drop matchLen s)
    else None.

(** [Word(chars)]: the longest non-empty run of characters of [chars]. *)
Definition Word (chars : string) : parser string :=
  fun instring =>
    let s := preParse instring in
    match take_while (char_in chars) s with
    | EmptyString => None
    | w => Some (w, drop_while (char_in chars) s)
    end.

(** [Regex] of the size pattern (source line 293, the same as the one of
    [_set_data_type] without its groups): the token is the matched text. *)
Definition Regex_size_spec : parser string :=
  fun instring =>
    let s := preParse instring in
    match s with
    | EmptyString => None
    | String c _ =>
        if is_digit c then
          let '(_, _, rest) := Re.match_size_spec s in
          Some (take (String.length s - String.length rest) s, rest)
        else None
    end.

(** [Regex(r".+")]: the rest of the line, not empty. *)
Definition Regex_rest_of_line : parser string :=
  fun instring =>
    let s := preParse instring in
    let not_newline c := negb (code c =? 10)%N in
    match take_while not_newline s with
    | EmptyString => None
    | w => Some (w, drop_while not_newline s)
    end.

Definition Suppress {A} (p : parser A) : parser unit :=
  andThen p (fun _ => ret tt).

Definition Optional {A} (p : parser A) : parser (option A) :=
  fun s =>
    match p s with
    | Some (a, rest) => Some (Some a, rest)
    | None => Some (None, s)
    end.

(** [p | q]: the first alternative that matches. *)
Definition MatchFirst {A} (p q : parser A) : parser A :=
  fun s =>
    match p s with
    | Some r => Some r
    | None => q s
    end.

(** [p ^ q ^ ...]: the alternative with the longest match, the earliest
    one among equals. *)
Fixpoint Or_from {A} (best : option (A * string)) (ps : list (parser A))
         (s : string) : option (A * string) :=
  match ps with
  | [] => best
  | p :: ps' =>
      match p s, best with
      | None, _ => Or_from best ps' s
      | Some r, None => Or_from (Some r) ps' s
      | Some (a, rest), Some (_, best_rest) =>
          if (String.length rest <? String.length best_rest)%nat
          then Or_from (Some (a, rest)) ps' s
          else Or_from best ps' s
      end
  end.

Definition Or {A} (ps : list (parser A)) : parser A := Or_from None ps.

(** The repetition of [ZeroOrMore] and [OneOrMore]: match [p] until it
    fails.  [fuel] bounds the number of rounds; a round of an element
    that consumes input shortens the rest, so the length of the input
    plus one is never reached. *)
Fixpoint repeat_match {A} (fuel : nat) (p : parser A) (s : string)
  : list A * string :=
  match fuel with
  | O => ([], s)
  | S fuel' =>
      match p s with
      | None => ([], s)
      | Some (a, rest) =>
          let '(l, rest') := repeat_match fuel' p rest in (a :: l, rest')
      end
  end.

Definition ZeroOrMore {A} (p : parser A) : parser (list A) :=
  fun s => Some (repeat_match (S (String.length s)) p s).

Definition OneOrMore {A} (p : parser A) : parser (list A) :=
  andThen p (fun a => andThen (ZeroOrMore p) (fun l => ret (a :: l))).

(** [delimitedList(p)] is [p + ZeroOrMore(Suppress(",") + p)]. *)
Definition delimitedList {A} (p : parser A) : parser (list A) :=
  andThen p (fun a =>
  andThen (ZeroOrMore (andThen (Suppress (Literal ",")) (fun _ => p)))
          (fun l => ret (a :: l))).

(** [str.expandtabs()], which [parseString] applies to its input: a tab
    becomes spaces up to the next multiple of eight columns. *)
Fixpoint expandtabs_from (column : nat) (s : string) : string :=
  match s with
  | EmptyString => EmptyString
  | String c s' =>
      if (code c =? 9)%N then
        let incr := 8 - Nat.modulo column 8 in
        String.concat "" (repeat " " incr) ++ expandtabs_from (column + incr) s'
      else if (code c =? 10)%N || (code c =? 13)%N then
        String c (expandtabs_from 0 s')
      else String c (expandtabs_from (S column) s')
  end.

Definition expandtabs : string -> string := expandtabs_from 0.

(** [parseString] without [parseAll]: input left over is not an error. *)
Definition parseString {A} (p : parser A) (instring : string) : result A :=
  match p (expandtabs instring) with
  | Some (tokens, _) => Ok tokens
  | None => Err ParseException
  end.

End Pyparsing.

(* ------------------------------------------------------------------ *)
(** * class DdlParse                                                    *)
(* ------------------------------------------------------------------ *)

Module DdlParse.

Import Pyparsing.

Notation "x <~ p ;; k" := (andThen p (fun x => k))
  (at level 61, p at next level, right associativity).

(** ** The parse tree *)

(** [Group(...)("column")]: result names [name], [type] (a group of the
    type word, followed by the qualifier keyword and the size text when
    they are there) and [constraint] (when the trailing text is there). *)
Record ColumnClause : Type := {
  column_name : string;
  column_type : string * list string;
  column_constraint : option string
}.

(** [Group(...)("constraint")]: result names [name], [type] and
    [constraint_columns]. *)
Record ConstraintClause : Type := {
  constraint_name : option string;
  constraint_type : string;
  constraint_columns : list string
}.

(** An element of [ret["columns"]]; [getName()] is the constructor. *)
Inductive Clause : Type :=
| column (c : ColumnClause)
| constraint (c : ConstraintClause).

(** The named results at the top level of the parse tree; [None] is a
    name that is not in the tree.  The name of an [Optional] is there when
    the element matched; the names [table] and [columns] are there as soon
    as a statement matched ([columns] also when every clause of the body is
    an index clause and the list is empty). *)
Record ParseResults : Type := {
  temp : option string;
  schema : option string;
  table : option string;
  columns : option (list Clause)
}.

(** ** The grammar *)

Definition _LPAR := Suppress (Literal "(").
Definition _RPAR := Suppress (Literal ")").
Definition _COMMA := Suppress (Literal ",").
Definition _DOT := Suppress (Literal ".").
Definition _DOUBLEQUOTE := Suppress (Literal (String "034" "")).
Definition _BACKQUOTE := Suppress (Literal "`").

Definition _CREATE := CaselessKeyword "CREATE".
Definition _TABLE := CaselessKeyword "TABLE".
Definition _TEMP := CaselessKeyword "TEMP".
Definition _CONSTRAINT := CaselessKeyword "CONSTRAINT".
Definition _NOT_NULL := CaselessKeyword "NOT NULL".
Definition _PRIMARY_KEY := CaselessKeyword "PRIMARY KEY".
Definition _UNIQUE := CaselessKeyword "UNIQUE".
Definition _UNIQUE_KEY := CaselessKeyword "UNIQUE KEY".
Definition _KEY := CaselessKeyword "KEY".
Definition _SUPPRESS_QUOTE := MatchFirst _BACKQUOTE _DOUBLEQUOTE.

Definition _COMMENT : parser unit :=
  Suppress (_ <~ Literal "--" ;; Regex_rest_of_line).

(** [Suppress(_KEY + Word(...))]: an index clause, no tokens. *)
Definition index_clause : parser unit :=
  Suppress (_ <~ _KEY ;; Word (alphanums ++ "_'`() ")).

Definition quoted_word : parser string :=
  _ <~ Optional _SUPPRESS_QUOTE ;;
  w <~ Word (alphanums ++ "_") ;;
  _ <~ Optional _SUPPRESS_QUOTE ;;
  ret w.

(** The second [Group]: a table-level constraint.  The name [name] is
    given twice; the later one replaces the earlier one. *)
Definition constraint_clause : parser ConstraintClause :=
  name1 <~ Optional (_ <~ Suppress _CONSTRAINT ;; Word (alphanums ++ "_")) ;;
  type <~ Or [_PRIMARY_KEY; _UNIQUE; _UNIQUE_KEY; _NOT_NULL] ;;
  _ <~ Optional _SUPPRESS_QUOTE ;;
  name2 <~ Optional (Word (alphanums ++ "_")) ;;
  _ <~ Optional _SUPPRESS_QUOTE ;;
  _ <~ _LPAR ;;
  cols <~ delimitedList quoted_word ;;
  _ <~ _RPAR ;;
  ret {| constraint_name := match name2 with Some n => Some n | None => name1 end;
         constraint_type := type;
         constraint_columns := cols |}.

Definition option_list {A} (o : option A) : list A :=
  match o with
  | Some a => [a]
  | None => []
  end.

(** The third [Group]: a column definition. *)
Definition column_clause : parser ColumnClause :=
  name <~ quoted_word ;;
  type_word <~ Word (alphanums ++ "_") ;;
  qualifier <~ Optional (Or [CaselessKeyword "WITHOUT TIME ZONE";
                             CaselessKeyword "WITH TIME ZONE";
                             CaselessKeyword "PRECISION"]) ;;
  size <~ Optional (_ <~ _LPAR ;; r <~ Regex_size_spec ;; _ <~ _RPAR ;; ret r) ;;
  text <~ Optional (Word (alphanums ++ "_' ")) ;;
  ret {| column_name := name;
         column_type := (type_word, (option_list qualifier ++ option_list size)%list);
         column_constraint := text |}.

(** One alternative of the body; an index clause leaves no token. *)
Definition clause : parser (list Clause) :=
  MatchFirst (_ <~ index_clause ;; ret [])
    (MatchFirst (c <~ constraint_clause ;; ret [constraint c])
                (c <~ column_clause ;; ret [column c])).

Definition _CREATE_TABLE_STATEMENT : parser ParseResults :=
  _ <~ Suppress _CREATE ;;
  temp <~ Optional _TEMP ;;
  _ <~ Suppress _TABLE ;;
  _ <~ Optional (Suppress (CaselessKeyword "IF NOT EXISTS")) ;;
  _ <~ Optional _SUPPRESS_QUOTE ;;
  schema <~ Optional (s <~ Word (alphanums ++ "_") ;;
                      _ <~ Optional _SUPPRESS_QUOTE ;;
                      _ <~ _DOT ;;
                      _ <~ Optional _SUPPRESS_QUOTE ;;
                      ret s) ;;
  table <~ Word (alphanums ++ "_<>") ;;
  _ <~ Optional _SUPPRESS_QUOTE ;;
  _ <~ _LPAR ;;
  body <~ delimitedList (l <~ OneOrMore clause ;; ret (concat l)) ;;
  ret {| temp := temp; schema := schema; table := Some table;
         columns := Some (concat body) |}.

Definition no_results : ParseResults :=
  {| temp := None; schema := None; table := None; columns := None |}.

(** Result names that are given again replace the earlier value. *)
Definition later {A} (old new : option A) : option A :=
  match new with
  | Some _ => new
  | None => old
  end.

Definition merge (r1 r2 : ParseResults) : ParseResults :=
  {| temp := later (temp r1) (temp r2);
     schema := later (schema r1) (schema r2);
     table := later (table r1) (table r2);
     columns := later (columns r1) (columns r2) |}.

Definition _DDL_PARSE_EXPR : parser ParseResults :=
  l <~ OneOrMore (MatchFirst (_ <~ _COMMENT ;; ret no_results)
                             _CREATE_TABLE_STATEMENT) ;;
  ret (fold_left merge l no_results).

(** ** The parser object *)

Record t : Type := mk {
  _ddl : option string;
  _table : DdlParseTable.t
}.

Definition __init__ (ddl : option string) : t :=
  {| _ddl := ddl; _table := DdlParseTable.__init__ |}.

(** The three branches on [ret_col["type"]] of a constraint clause. *)
Definition apply_constraint (type : string) (col : DdlParseColumn.t)
  : DdlParseColumn.t :=
  if type =? "PRIMARY KEY" then
    DdlParseColumn.set_primary_key (DdlParseColumn.set_not_null col true) true
  else if (type =? "UNIQUE") || (type =? "UNIQUE KEY") then
    DdlParseColumn.set_unique col true
  else if type =? "NOT NULL" then
    DdlParseColumn.set_not_null col true
  else col.

(** [for col_name in ret_col["constraint_columns"]]. *)
Fixpoint constraint_columns_loop (cols : DdlParseColumnDict.t)
         (type : string) (names : list string)
  : result DdlParseColumnDict.t :=
  match names with
  | [] => Ok cols
  | col_name :: rest =>
      col <- DdlParseColumnDict.__getitem__ cols col_name ;;
      constraint_columns_loop
        (DdlParseColumnDict.store cols col_name (apply_constraint type col))
        type rest
  end.

(** [for ret_col in ret["columns"]]. *)
Fixpoint columns_loop (cols : DdlParseColumnDict.t) (elems : list Clause)
  : result DdlParseColumnDict.t :=
  match elems with
  | [] => Ok cols
  | column c :: rest =>
      r <- DdlParseColumnDict.append cols (column_name c)
             (fst (column_type c) :: snd (column_type c)) None ;;
      let '(col, cols1) := r in
      let cols2 :=
        match column_constraint c with
        | Some text =>
            DdlParseColumnDict.store cols1 (column_name c)
              (DdlParseColumn.set_constraint col (Some text))
        | None => cols1
        end in
      columns_loop cols2 rest
  | constraint c :: rest =>
      cols1 <- constraint_columns_loop cols (constraint_type c)
                 (constraint_columns c) ;;
      columns_loop cols1 rest
  end.

(** [ret[name]] for a name of the top level. *)
Definition item {A} (name : string) (o : option A) : result A :=
  match o with
  | Some a => Ok a
  | None => Err (KeyError name)
  end.

(** [parse(ddl=None)]: the updated parser and the table it returns, which
    is the parser's own [_table]. *)
Definition parse (self : t) (ddl : option string)
  : result (t * DdlParseTable.t) :=
  let ddl' := match ddl with Some _ => ddl | None => _ddl self end in
  match ddl' with
  | None => Err (ValueError "DDL is not specified")
  | Some text =>
      ret <- parseString _DDL_PARSE_EXPR text ;;
      let schema' := later (DdlParseTable._schema (_table self)) (schema ret) in
      name' <- item "table" (table ret) ;;
      let is_temp' := match temp ret with Some _ => true | None => false end in
      elems <- item "columns" (columns ret) ;;
      cols' <- columns_loop (DdlParseTable._columns (_table self)) elems ;;
      let table' :=
        {| DdlParseTable._name := name';
           DdlParseTable._schema := schema';
           DdlParseTable._is_temp := Some is_temp';
           DdlParseTable._columns := cols' |} in
      Ok ({| _ddl := ddl'; _table := table' |}, table')
  end.

End DdlParse.

(* ------------------------------------------------------------------ *)
(** * Vocabulary of the statements                                      *)
(* ------------------------------------------------------------------ *)

(** Text of the shape the grammar accepts between the parentheses of a
    type: digits [d1], white space, commas, white space, digits [d2].
    When nothing separates the two runs of digits there is one integer
    only, so [d2] is then required to be empty. *)
Record size_spec_parts (d1 sp1 cm sp2 d2 : string) : Prop := {
  first_digits : str_all is_digit d1 = true;
  first_not_empty : d1 <> "";
  space_before : str_all Re.is_space sp1 = true;
  commas : str_all Re.is_comma cm = true;
  space_after : str_all Re.is_space sp2 = true;
  second_digits : str_all is_digit d2 = true;
  separated : d2 = "" \/ sp1 ++ cm ++ sp2 <> ""
}.

(** The column that [parse] builds from a statement with one column. *)
Definition only_column (ddl : string) : option DdlParseColumn.t :=
  match DdlParse.parse (DdlParse.__init__ None) (Some ddl) with
  | Ok (_, table) =>
      match OrderedDict.values (DdlParseTable.columns table) with
      | [col] => Some col
      | _ => None
      end
  | Err _ => None
  end.

(** A parser element that never gives back more input than it received,
    and one that reads at least one character when it matches. *)
Definition non_lengthening {A} (p : Pyparsing.parser A) : Prop :=
  forall s a rest, p s = Some (a, rest) -> String.length rest <= String.length s.

Definition consuming {A} (p : Pyparsing.parser A) : Prop :=
  forall s a rest, p s = Some (a, rest) -> String.length rest < String.length s.

(** A parser that was just constructed, without DDL text. *)
Definition fresh : DdlParse.t := DdlParse.__init__ None.

(** [c2] is [c1] in some case: unchanged, upper or lower. *)
Definition same_letter (c1 c2 : ascii) : Prop :=
  c2 = c1 \/ c2 = upper_char c1 \/ c2 = lower_char c1.

(** A case variant of a name: the same letters, each in some case. *)
Inductive case_variant : string -> string -> Prop :=
| case_variant_empty : case_variant "" ""
| case_variant_letter (c1 c2 : ascii) (s1 s2 : string) :
    same_letter c1 c2 -> case_variant s1 s2 ->
    case_variant (String c1 s1) (String c2 s2).

(** The invariant of the data model: a primary key is not null. *)
Definition pk_implies_not_null (col : DdlParseColumn.t) : Prop :=
  DdlParseColumn.primary_key col = true -> DdlParseColumn.not_null col = true.

Definition columns_invariant (cols : DdlParseColumnDict.t) : Prop :=
  Forall pk_implies_not_null (OrderedDict.values cols).

(** The canonical constraint string as the specification words it: built
    from the flags alone, the primary key flag first. *)
Definition canonical_constraint (col : DdlParseColumn.t) : string :=
  join " "
    ((if DdlParseColumn.primary_key col then ["PRIMARY KEY"]
      else if DdlParseColumn.not_null col then ["NOT NULL"] else [])
     ++ (if DdlParseColumn.unique col then ["UNIQUE"] else []))%list.

(** An entry of the mapping table matches when one of its rules holds. *)
Definition rule_matches (data_type : string)
           (entry : string * list DdlParseColumn.condition) : bool :=
  existsb (DdlParseColumn.condition_holds data_type) (snd entry).

Definition matches_some_rule (data_type : string) : bool :=
  existsb (rule_matches data_type) DdlParseColumn.BQ_DATA_TYPE_DIC.

(** The mapping policy as the specification words it: the first target
    type, in table order, one of whose rules matches. *)
Definition first_matching_type (data_type : string)
           (items : list (string * list DdlParseColumn.condition))
  : option string :=
  option_map fst (find (rule_matches data_type) items).

(** A column name that is not a key of the collection. *)
Definition missing (cols : DdlParseColumnDict.t) (col_name : string) : Prop :=
  OrderedDict.get cols (lower col_name) = None.

(** A column name that a table-level constraint clause of the body names. *)
Definition referenced (elems : list DdlParse.Clause) (col_name : string) : Prop :=
  exists c, In (DdlParse.constraint c) elems /\
            In col_name (DdlParse.constraint_columns c).

(** ** Vocabulary of the further properties *)

(** The three constraint flags of a column: not null, primary key, unique. *)
Definition flags (col : DdlParseColumn.t) : bool * bool * bool :=
  (DdlParseColumn.not_null col, DdlParseColumn.primary_key col,
   DdlParseColumn.unique col).

(** [text] contains [keyword], in some case, at some position. *)
Definition mentions (keyword text : string) : Prop :=
  exists pre kw post, text = pre ++ kw ++ post /\ case_variant keyword kw.

Definition has_digit (s : string) : bool :=
  negb (str_all (fun c => negb (is_digit c)) s).

(** The number of digits that [int()] converts: since Python 3.11 (and the
    security releases of 3.7 to 3.10) a longer run of digits makes it raise
    [ValueError], and [Py.int] is [int()] on the runs within the limit. *)
Definition int_max_str_digits : nat := 4300.

(** The length of the longest run of digits of a text; [run] digits come
    directly before the text. *)
Fixpoint longest_digit_run_from (run : nat) (s : string) : nat :=
  match s with
  | EmptyString => run
  | String c s' =>
      if is_digit c then longest_digit_run_from (S run) s'
      else Nat.max run (longest_digit_run_from 0 s')
  end.

Definition longest_digit_run (s : string) : nat := longest_digit_run_from 0 s.

(** No run of digits of the text is longer than [int()] converts. *)
Definition digits_within_limit (s : string) : bool :=
  (longest_digit_run s <=? int_max_str_digits)%nat.

(** The same for a type array: [_set_data_type] reads integers from its
    second element only. *)
Definition size_within_limit (data_type_array : list string) : Prop :=
  match data_type_array with
  | _ :: spec :: _ => digits_within_limit spec = true
  | _ => True
  end.

(** Text of ASCII characters, on which [Py.upper] and [Py.lower] are
    [str.upper] and [str.lower]. *)
Definition ascii_text (s : string) : Prop :=
  str_all (fun c => (code c <? 128)%N) s = true.

(** The assignments [columns[key] = value] of a list of items, one after
    the other. *)
Definition assign_all (cols : DdlParseColumnDict.t)
           (items : list (string * DdlParseColumn.t)) : DdlParseColumnDict.t :=
  fold_left (fun d item => DdlParseColumnDict.__setitem__ d (fst item) (snd item))
            items cols.

(** The items are stored under other names than [name]: none of their
    names is [name] in lower case once it is in lower case itself. *)
Definition other_names (name : string)
           (items : list (string * DdlParseColumn.t)) : Prop :=
  Forall (fun item => lower (fst item) <> lower name) items.

(** The keywords that the grammar accepts after a type word. *)
Definition type_qualifiers : list string :=
  ["WITHOUT TIME ZONE"; "WITH TIME ZONE"; "PRECISION"].

(** The target types of the mapping table. *)
Definition target_types : list string :=
  ["STRING"; "INTEGER"; "FLOAT"; "DATE"; "TIME"; "DATETIME"; "TIMESTAMP";
   "BOOLEAN"].

(** The column has a target type. *)
Definition resolves (col : DdlParseColumn.t) : Prop :=
  exists type, DdlParseColumn.bigquery_data_type col = Ok type.

(** The keys of a collection after one more key is assigned. *)
Definition add_key (ks : list string) (k : string) : list string :=
  if existsb (String.eqb k) ks then ks else (ks ++ [k])%list.

(** The keys under which the column clauses of a body are stored. *)
Definition defined_keys (elems : list DdlParse.Clause) : list string :=
  flat_map (fun e => match e with
                     | DdlParse.column c => [lower (DdlParse.column_name c)]
                     | DdlParse.constraint _ => []
                     end) elems.

(** Keys are distinct, and the key of a column is its name in lower case. *)
Definition well_keyed (cols : DdlParseColumnDict.t) : Prop :=
  NoDup (OrderedDict.keys cols) /\
  Forall (fun entry => fst entry = lower (DdlParseColumn.name (snd entry))) cols.

(** [base] with the values of [current] for the keys [current] has. *)
Definition override (base current : DdlParseColumnDict.t)
  : DdlParseColumnDict.t :=
  map (fun entry =>
         (fst entry,
          match OrderedDict.get current (fst entry) with
          | Some v => v
          | None => snd entry
          end)) base.

(** Every result of the parser element satisfies [P]. *)
Definition yields {A} (P : A -> Prop) (p : Pyparsing.parser A) : Prop :=
  forall s a rest, p s = Some (a, rest) -> P a.

(** A non-empty word over the characters [chars]. *)
Definition is_word (chars w : string) : Prop :=
  w <> "" /\ str_all (char_in chars) w = true.

Definition identifier_chars : string := Pyparsing.alphanums ++ "_".

Definition constraint_types : list string :=
  ["PRIMARY KEY"; "UNIQUE"; "UNIQUE KEY"; "NOT NULL"].

Definition well_formed_clause (e : DdlParse.Clause) : Prop :=
  match e with
  | DdlParse.column c =>
      is_word identifier_chars (DdlParse.column_name c) /\
      is_word identifier_chars (fst (DdlParse.column_type c))
  | DdlParse.constraint c =>
      In (DdlParse.constraint_type c) constraint_types /\
      DdlParse.constraint_columns c <> [] /\
      Forall (is_word identifier_chars) (DdlParse.constraint_columns c)
  end.

(** Text that is a size: two runs of digits and what separates them. *)
Definition is_size (token : string) : Prop :=
  exists d1 sp1 cm sp2 d2,
    token = d1 ++ sp1 ++ cm ++ sp2 ++ d2 /\
    size_spec_parts d1 sp1 cm sp2 d2.

(** In a column clause, what follows the type word is a qualifier, a
    size, a qualifier and then a size, or nothing. *)
Definition sized_clause (e : DdlParse.Clause) : Prop :=
  match e with
  | DdlParse.column c =>
      exists qualifier size,
        snd (DdlParse.column_type c)
        = (DdlParse.option_list qualifier ++ DdlParse.option_list size)%list /\
        match qualifier with
        | Some q => In q type_qualifiers
        | None => True
        end /\
        match size with
        | Some token => is_size token
        | None => True
        end
  | DdlParse.constraint _ => True
  end.

(** A comment whose text is on one line, has no tab and shows at least one
    character that is not white space. *)
Definition visible_comment (text : string) : Prop :=
  str_all (fun c => negb ((code c =? 9) || (code c =? 10))%N) text = true /\
  drop_while Pyparsing.is_white text <> "".

(** The comment as a line of the DDL text. *)
Definition comment_line (text : string) : string :=
  "--" ++ text ++ String "010" "".

(** The table that [parse] returns, without the updated parser. *)
Definition returned (r : result (DdlParse.t * DdlParseTable.t))
  : result DdlParseTable.t :=
  match r with
  | Ok (_, table) => Ok table
  | Err e => Err e
  end.

(** The names [table] and [columns] come together; the table name is a
    word, the schema is a word, and every clause is well formed. *)
Definition well_formed_results (ret : DdlParse.ParseResults) : Prop :=
  match DdlParse.table ret, DdlParse.columns ret with
  | None, None => True
  | Some name, Some elems =>
      is_word (Pyparsing.alphanums ++ "_<>") name /\
      Forall well_formed_clause elems
  | _, _ => False
  end /\
  match DdlParse.schema ret with
  | Some name => is_word identifier_chars name
  | None => True
  end /\
  (DdlParse.temp ret = None \/ DdlParse.temp ret = Some "TEMP").

(* ------------------------------------------------------------------ *)
(** * Facts about text                                                  *)
(* ------------------------------------------------------------------ *)

Section Text.

Ltac by_cases_on c :=
  destruct c as [[|] [|] [|] [|] [|] [|] [|] [|]];
  vm_compute; intros; congruence.

Lemma digit_not_space (c : ascii) : is_digit c = true -> Re.is_space c = false.
Proof. by_cases_on c. Qed.

Lemma digit_not_comma (c : ascii) : is_digit c = true -> Re.is_comma c = false.
Proof. by_cases_on c. Qed.

Lemma space_not_digit (c : ascii) : Re.is_space c = true -> is_digit c = false.
Proof. by_cases_on c. Qed.

Lemma space_not_comma (c : ascii) : Re.is_space c = true -> Re.is_comma c = false.
Proof. by_cases_on c. Qed.

Lemma comma_not_digit (c : ascii) : Re.is_comma c = true -> is_digit c = false.
Proof. by_cases_on c. Qed.

Lemma comma_not_space (c : ascii) : Re.is_comma c = true -> Re.is_space c = false.
Proof. by_cases_on c. Qed.

Lemma lower_char_upper_char (c : ascii) : lower_char (upper_char c) = lower_char c.
Proof. by_cases_on c. Qed.

Lemma lower_char_lower_char (c : ascii) : lower_char (lower_char c) = lower_char c.
Proof. by_cases_on c. Qed.

Lemma append_empty_r (s : string) : s ++ "" = s.
Proof. induction s as [|c s IH]; simpl; [reflexivity | now rewrite IH]. Qed.

Variables f g : ascii -> bool.
Hypothesis g_not_f : forall c, g c = true -> f c = false.

Lemma take_while_all (a b : string) :
  str_all f a = true -> take_while f (a ++ b) = a ++ take_while f b.
Proof.
  induction a as [|c a IH]; simpl; intros H; [reflexivity|].
  apply andb_true_iff in H as [Hc Ha]. now rewrite Hc, IH.
Qed.

Lemma drop_while_all (a b : string) :
  str_all f a = true -> drop_while f (a ++ b) = drop_while f b.
Proof.
  induction a as [|c a IH]; simpl; intros H; [reflexivity|].
  apply andb_true_iff in H as [Hc Ha]. now rewrite Hc, IH.
Qed.

(** A run of [g]-characters followed by text on which [f] stops at once
    is text on which [f] stops at once. *)
Lemma take_while_other (a b : string) :
  str_all g a = true -> take_while f b = "" -> take_while f (a ++ b) = "".
Proof.
  destruct a as [|c a]; simpl; intros H Hb; [exact Hb|].
  apply andb_true_iff in H as [Hc _]. now rewrite (g_not_f c Hc).
Qed.

Lemma drop_while_other (a b : string) :
  str_all g a = true -> drop_while f b = b -> drop_while f (a ++ b) = a ++ b.
Proof.
  destruct a as [|c a]; simpl; intros H Hb; [exact Hb|].
  apply andb_true_iff in H as [Hc _]. now rewrite (g_not_f c Hc).
Qed.

End Text.

Lemma take_while_self (f : ascii -> bool) (a : string) :
  str_all f a = true -> take_while f a = a.
Proof.
  intros H. rewrite <- (append_empty_r a) at 1.
  rewrite take_while_all by exact H. apply append_empty_r.
Qed.

Lemma drop_while_self (f : ascii -> bool) (a : string) :
  str_all f a = true -> drop_while f a = "".
Proof.
  intros H. rewrite <- (append_empty_r a) at 1.
  now rewrite drop_while_all by exact H.
Qed.

Lemma drop_while_none (f g : ascii -> bool) (a : string) :
  (forall c, g c = true -> f c = false) ->
  str_all g a = true -> drop_while f a = a.
Proof.
  intros D H. rewrite <- (append_empty_r a).
  apply (drop_while_other f g D); [exact H | reflexivity].
Qed.

Lemma take_while_none (f g : ascii -> bool) (a : string) :
  (forall c, g c = true -> f c = false) ->
  str_all g a = true -> take_while f a = "".
Proof.
  intros D H. rewrite <- (append_empty_r a).
  apply (take_while_other f g D); [exact H | reflexivity].
Qed.

(* ------------------------------------------------------------------ *)
(** * The size specification of a data type                             *)
(* ------------------------------------------------------------------ *)

Lemma separator_stops_digits (sp1 cm sp2 d2 : string) :
  str_all Re.is_space sp1 = true -> str_all Re.is_comma cm = true ->
  str_all Re.is_space sp2 = true ->
  d2 = "" \/ sp1 ++ cm ++ sp2 <> "" ->
  take_while is_digit (sp1 ++ cm ++ sp2 ++ d2) = "" /\
  drop_while is_digit (sp1 ++ cm ++ sp2 ++ d2) = sp1 ++ cm ++ sp2 ++ d2.
Proof.
  intros H1 Hc H2 Hsep.
  destruct sp1 as [|a sp1]; simpl in *.
  - destruct cm as [|b cm]; simpl in *.
    + destruct sp2 as [|c sp2]; simpl in *.
      * destruct Hsep as [-> | Hne]; [split; reflexivity | congruence].
      * apply andb_true_iff in H2 as [Hd _].
        now rewrite (space_not_digit _ Hd).
    + apply andb_true_iff in Hc as [Hd _].
      now rewrite (comma_not_digit _ Hd).
  - apply andb_true_iff in H1 as [Hd _].
    now rewrite (space_not_digit _ Hd).
Qed.

(** The leftmost match on text of that shape: the groups are the two runs
    of digits. *)
Lemma findall_size_spec_parts (d1 sp1 cm sp2 d2 : string) :
  size_spec_parts d1 sp1 cm sp2 d2 ->
  Re.findall_size_spec_first (d1 ++ sp1 ++ cm ++ sp2 ++ d2) = Some (d1, d2).
Proof.
  intros [Hd1 Hne H1 Hc H2 Hd2 Hsep].
  destruct (separator_stops_digits sp1 cm sp2 d2 H1 Hc H2 Hsep) as [Ht Hd].
  destruct d1 as [|c d1]; [congruence|].
  assert (Hc1 : is_digit c = true)
    by (simpl in Hd1; now apply andb_true_iff in Hd1 as [? _]).
  change (Re.findall_size_spec_first (String c d1 ++ sp1 ++ cm ++ sp2 ++ d2))
    with (if is_digit c
          then let '(g1, g2, _) :=
                 Re.match_size_spec (String c d1 ++ sp1 ++ cm ++ sp2 ++ d2) in
               Some (g1, g2)
          else Re.findall_size_spec_first (d1 ++ sp1 ++ cm ++ sp2 ++ d2)).
  rewrite Hc1. unfold Re.match_size_spec.
  rewrite (take_while_all is_digit _ _ Hd1), Ht, append_empty_r.
  rewrite (drop_while_all is_digit _ _ Hd1), Hd.
  rewrite (drop_while_all Re.is_space _ _ H1).
  assert (Hrest : drop_while Re.is_space
                    (drop_while Re.is_comma
                       (drop_while Re.is_space (cm ++ sp2 ++ d2))) = d2).
  { assert (E2 : drop_while Re.is_space (sp2 ++ d2) = d2).
    { rewrite (drop_while_all Re.is_space _ _ H2).
      apply (drop_while_none _ is_digit); [exact digit_not_space | exact Hd2]. }
    assert (E3 : drop_while Re.is_comma (sp2 ++ d2) = sp2 ++ d2).
    { apply (drop_while_other _ Re.is_space space_not_comma); [exact H2|].
      apply (drop_while_none _ is_digit); [exact digit_not_comma | exact Hd2]. }
    assert (E4 : drop_while Re.is_comma d2 = d2)
      by (apply (drop_while_none _ is_digit); [exact digit_not_comma | exact Hd2]).
    assert (E5 : drop_while Re.is_space d2 = d2)
      by (apply (drop_while_none _ is_digit); [exact digit_not_space | exact Hd2]).
    destruct cm as [|b cm].
    - simpl append. now rewrite E2, E4, E5.
    - assert (E1 : drop_while Re.is_space (String b cm ++ sp2 ++ d2) =
                   String b cm ++ sp2 ++ d2).
      { simpl in Hc. apply andb_true_iff in Hc as [Hb _].
        simpl. now rewrite (comma_not_space _ Hb). }
      now rewrite E1, (drop_while_all Re.is_comma _ _ Hc), E3, E2. }
  rewrite Hrest, (take_while_self is_digit d2 Hd2).
  reflexivity.
Qed.

(** [_set_data_type] on a type word and a size of that shape. *)
Lemma set_data_type_size_spec (ty d1 sp1 cm sp2 d2 : string) more :
  size_spec_parts d1 sp1 cm sp2 d2 ->
  DdlParseColumn._set_data_type
    (ty :: (d1 ++ sp1 ++ cm ++ sp2 ++ d2)%string :: more) =
  Ok (upper ty, Some (int d1),
      if (d2 =? "") || (int d2 =? 0)%Z then None else Some (int d2)).
Proof.
  intros H. unfold DdlParseColumn._set_data_type.
  now rewrite (findall_size_spec_parts _ _ _ _ _ H).
Qed.

Lemma init_size_spec (name ty d1 sp1 cm sp2 d2 : string) more
      (k : option string) :
  size_spec_parts d1 sp1 cm sp2 d2 ->
  exists col,
    DdlParseColumn.__init__ name
      (ty :: (d1 ++ sp1 ++ cm ++ sp2 ++ d2)%string :: more) k = Ok col /\
    DdlParseColumn._length col = Some (int d1) /\
    DdlParseColumn._scale col =
      (if (d2 =? "") || (int d2 =? 0)%Z then None else Some (int d2)).
Proof.
  intros H. unfold DdlParseColumn.__init__.
  rewrite (set_data_type_size_spec ty _ _ _ _ _ more H). simpl.
  eexists. split; [reflexivity|]. split; reflexivity.
Qed.

(** C4.  A numeric size specification gives its first integer as the
    length; the scale is absent when the second integer is missing or is
    zero, and is the second integer otherwise.  NUMERIC(10,0) has no scale
    and NUMERIC(10,2) has scale 2, both for a column built directly and for
    one declared in a statement. *)
Theorem C4_length_and_scale_of_size_spec :
  (forall name ty d1 sp1 cm sp2 d2 more constraint,
      size_spec_parts d1 sp1 cm sp2 d2 ->
      exists col,
        DdlParseColumn.__init__ name
          (ty :: (d1 ++ sp1 ++ cm ++ sp2 ++ d2)%string :: more) constraint
        = Ok col /\
        DdlParseColumn.length col = Some (int d1) /\
        (d2 = "" -> DdlParseColumn.scale col = None) /\
        (int d2 = 0%Z -> DdlParseColumn.scale col = None) /\
        (d2 <> "" -> int d2 <> 0%Z ->
         DdlParseColumn.scale col = Some (int d2))) /\
  option_map DdlParseColumn.scale
    (only_column "CREATE TABLE t (c NUMERIC(10,0))") = Some None /\
  option_map DdlParseColumn.scale
    (only_column "CREATE TABLE t (c NUMERIC(10,2))") = Some (Some 2%Z) /\
  option_map DdlParseColumn.length
    (only_column "CREATE TABLE t (c NUMERIC(10,2))") = Some (Some 10%Z).
Proof.
  split; [|repeat split; vm_compute; reflexivity].
  intros name ty d1 sp1 cm sp2 d2 more k H.
  destruct (init_size_spec name ty d1 sp1 cm sp2 d2 more k H)
    as (col & E & L & S).
  exists col. unfold DdlParseColumn.length, DdlParseColumn.scale.
  rewrite S. repeat split; try assumption.
  - intros ->. reflexivity.
  - intros ->. now rewrite orb_true_r.
  - intros Hne Hnz.
    apply String.eqb_neq in Hne. apply Z.eqb_neq in Hnz.
    now rewrite Hne, Hnz.
Qed.

Lemma size_10_2 : size_spec_parts "10" "" "," "" "2".
Proof.
  constructor; try reflexivity; try discriminate.
  right; discriminate.
Qed.

Lemma size_10_0 : size_spec_parts "10" "" "," "" "0".
Proof.
  constructor; try reflexivity; try discriminate.
  right; discriminate.
Qed.

Lemma C4_witness :
  size_spec_parts "10" "" "," "" "0" /\
  exists col,
    DdlParseColumn.__init__ "c" ["NUMERIC"; "10,0"] None = Ok col /\
    DdlParseColumn.length col = Some 10%Z /\
    DdlParseColumn.scale col = None.
Proof.
  split; [exact size_10_0|].
  destruct (proj1 C4_length_and_scale_of_size_spec
              "c" "NUMERIC" "10" "" "," "" "0" [] None size_10_0)
    as (col & E & L & _ & S & _).
  exists col. split; [exact E|]. split; [exact L|].
  apply S. reflexivity.
Defined.

(** C10.  The precision accessor reads the length attribute, the first
    integer of the size specification, and not the scale: a NUMERIC(10,2)
    column has precision 10 while its scale is 2. *)
Theorem C10_precision_is_length :
  (forall col, DdlParseColumn.precision col = DdlParseColumn.length col) /\
  (forall name ty d1 sp1 cm sp2 d2 more constraint,
      size_spec_parts d1 sp1 cm sp2 d2 ->
      exists col,
        DdlParseColumn.__init__ name
          (ty :: (d1 ++ sp1 ++ cm ++ sp2 ++ d2)%string :: more) constraint
        = Ok col /\
        DdlParseColumn.precision col = Some (int d1)) /\
  option_map DdlParseColumn.precision
    (only_column "CREATE TABLE t (c NUMERIC(10,2))") = Some (Some 10%Z) /\
  option_map DdlParseColumn.scale
    (only_column "CREATE TABLE t (c NUMERIC(10,2))") = Some (Some 2%Z).
Proof.
  split; [reflexivity|].
  split; [|split; vm_compute; reflexivity].
  intros name ty d1 sp1 cm sp2 d2 more k H.
  destruct (init_size_spec name ty d1 sp1 cm sp2 d2 more k H)
    as (col & E & L & _).
  exists col. split; [exact E | exact L].
Qed.

Lemma C10_witness :
  size_spec_parts "10" "" "," "" "2" /\
  exists col,
    DdlParseColumn.__init__ "c" ["NUMERIC"; "10,2"] None = Ok col /\
    DdlParseColumn.precision col = Some 10%Z.
Proof.
  split; [exact size_10_2|].
  exact (proj1 (proj2 C10_precision_is_length)
           "c" "NUMERIC" "10" "" "," "" "2" [] None size_10_2).
Defined.

(* ------------------------------------------------------------------ *)
(** * The column collection                                             *)
(* ------------------------------------------------------------------ *)

Section Dict.

Variable V : Type.
Implicit Type d : OrderedDict.t V.

Lemma get_set_same d key value :
  OrderedDict.get (OrderedDict.set d key value) key = Some value.
Proof.
  induction d as [|[k v] d IH]; simpl.
  - now rewrite String.eqb_refl.
  - destruct (k =? key) eqn:E; simpl; rewrite E; [reflexivity | exact IH].
Qed.

Lemma get_set_other d key key' value :
  key <> key' ->
  OrderedDict.get (OrderedDict.set d key value) key' = OrderedDict.get d key'.
Proof.
  intros Hne. pose proof (proj2 (String.eqb_neq _ _) Hne) as Hb.
  induction d as [|[k v] d IH]; simpl.
  - now rewrite Hb.
  - destruct (k =? key) eqn:E; simpl.
    + apply String.eqb_eq in E. subst k. now rewrite Hb.
    + now rewrite IH.
Qed.

Lemma values_set_Forall (P : V -> Prop) d key value :
  Forall P (OrderedDict.values d) -> P value ->
  Forall P (OrderedDict.values (OrderedDict.set d key value)).
Proof.
  intros Hd Hv. induction d as [|[k v] d IH]; simpl.
  - constructor; [exact Hv | constructor].
  - inversion Hd as [|? ? Hk Hrest]; subst.
    destruct (k =? key); simpl; constructor; auto.
Qed.

Lemma get_Forall (P : V -> Prop) d key value :
  Forall P (OrderedDict.values d) ->
  OrderedDict.get d key = Some value -> P value.
Proof.
  intros Hd. induction d as [|[k v] d IH]; simpl; [discriminate|].
  inversion Hd as [|? ? Hk Hrest]; subst.
  destruct (k =? key); [intros [= <-]; exact Hk | auto].
Qed.

End Dict.

Lemma same_letter_lower (c1 c2 : ascii) :
  same_letter c1 c2 -> lower_char c2 = lower_char c1.
Proof.
  intros [-> | [-> | ->]];
    [reflexivity | apply lower_char_upper_char | apply lower_char_lower_char].
Qed.

Lemma case_variant_lower (s1 s2 : string) :
  case_variant s1 s2 -> lower s2 = lower s1.
Proof.
  induction 1 as [|c1 c2 s1 s2 Hc _ IH]; [reflexivity|].
  unfold lower in *. simpl. now rewrite IH, (same_letter_lower _ _ Hc).
Qed.

Ltac some_case :=
  unfold same_letter;
  first [ left; reflexivity
        | right; left; reflexivity
        | right; right; reflexivity ].

Ltac case_variants := repeat (constructor; [some_case|]); constructor.

(** Assignments under other names leave a lookup as it is. *)
Lemma getitem_assign_all_other later : forall cols name,
  other_names name later ->
  DdlParseColumnDict.__getitem__ (assign_all cols later) name
  = DdlParseColumnDict.__getitem__ cols name.
Proof.
  induction later as [|[k v] later IH]; intros cols name H; [reflexivity|].
  inversion H as [|? ? Hk Hl]; subst. simpl in Hk.
  change (assign_all cols ((k, v) :: later))
    with (assign_all (DdlParseColumnDict.__setitem__ cols k v) later).
  rewrite (IH _ _ Hl).
  unfold DdlParseColumnDict.__getitem__, DdlParseColumnDict.__setitem__.
  now rewrite (get_set_other _ _ _ _ _ Hk).
Qed.

Lemma other_names_case_variant name name' later :
  case_variant name name' -> other_names name later -> other_names name' later.
Proof.
  intros Hv. unfold other_names. now rewrite (case_variant_lower _ _ Hv).
Qed.

(** C9.  Lookup in the column collection ignores case and the collection
    keeps what is inserted: a column stored under a name, by assignment or
    by [append], is the column returned for every case variant of that
    name, also after any number of columns are stored under other names;
    and storing a column leaves the lookup of every other name as it was,
    whether it found a column or failed. *)
Theorem C9_lookup_ignores_case :
  (forall cols name name' col later,
      case_variant name name' ->
      other_names name later ->
      DdlParseColumnDict.__getitem__
        (assign_all (DdlParseColumnDict.__setitem__ cols name col) later) name'
      = Ok col) /\
  (forall cols name name' data_type_array constraint col cols' later,
      case_variant name name' ->
      DdlParseColumnDict.append cols name data_type_array constraint
        = Ok (col, cols') ->
      other_names name later ->
      DdlParseColumnDict.__getitem__ (assign_all cols' later) name' = Ok col) /\
  (forall cols name col other,
      lower other <> lower name ->
      DdlParseColumnDict.__getitem__
        (DdlParseColumnDict.__setitem__ cols name col) other
      = DdlParseColumnDict.__getitem__ cols other).
Proof.
  assert (H : forall cols name name' col later,
             case_variant name name' ->
             other_names name later ->
             DdlParseColumnDict.__getitem__
               (assign_all (DdlParseColumnDict.__setitem__ cols name col) later)
               name' = Ok col).
  { intros cols name name' col later Hv Ho.
    rewrite (getitem_assign_all_other _ _ _
               (other_names_case_variant _ _ _ Hv Ho)).
    unfold DdlParseColumnDict.__getitem__, DdlParseColumnDict.__setitem__.
    now rewrite (case_variant_lower _ _ Hv), get_set_same. }
  split; [exact H|]. split.
  - intros cols name name' dta k col cols' later Hv.
    unfold DdlParseColumnDict.append.
    destruct (DdlParseColumn.__init__ name dta k) as [c|e]; simpl;
      [|discriminate].
    intros [= <- <-] Ho. now apply H.
  - intros cols name col other Hne.
    unfold DdlParseColumnDict.__getitem__, DdlParseColumnDict.__setitem__.
    rewrite get_set_other; [reflexivity | congruence].
Qed.

Lemma C9_witness :
  exists col cols col2,
    DdlParseColumnDict.append DdlParseColumnDict.empty "UserId" ["INT"] None
      = Ok (col, cols) /\
    DdlParseColumn.__init__ "Email" ["TEXT"] None = Ok col2 /\
    DdlParseColumnDict.__getitem__
      (assign_all cols [("Email", col2)]) "userid" = Ok col /\
    DdlParseColumnDict.__getitem__
      (assign_all cols [("Email", col2)]) "USERID" = Ok col /\
    DdlParseColumnDict.__getitem__
      (assign_all cols [("Email", col2)]) "EMAIL" = Ok col2.
Proof.
  destruct (DdlParseColumnDict.append DdlParseColumnDict.empty "UserId"
              ["INT"] None) as [[col cols]|e] eqn:E;
    [|vm_compute in E; discriminate].
  destruct (DdlParseColumn.__init__ "Email" ["TEXT"] None) as [col2|e] eqn:E2;
    [|vm_compute in E2; discriminate].
  assert (Ho : other_names "UserId" [("Email", col2)]).
  { constructor; [vm_compute; discriminate | constructor]. }
  exists col, cols, col2. split; [reflexivity|]. split; [reflexivity|].
  split; [|split].
  - refine (proj1 (proj2 C9_lookup_ignores_case) DdlParseColumnDict.empty
              "UserId" "userid" ["INT"] None col cols _ _ E Ho).
    case_variants.
  - refine (proj1 (proj2 C9_lookup_ignores_case) DdlParseColumnDict.empty
              "UserId" "USERID" ["INT"] None col cols _ _ E Ho).
    case_variants.
  - refine (proj1 C9_lookup_ignores_case cols "Email" "EMAIL" col2 [] _ _).
    + case_variants.
    + constructor.
Defined.

(* ------------------------------------------------------------------ *)
(** * The constraint accessor                                           *)
(* ------------------------------------------------------------------ *)

(** C7, as the specification states it, fails: the accessor tests the
    not-null flag first, so a column whose primary key flag alone was set
    reads as the empty string, where the string built from the flags alone
    begins with PRIMARY KEY. *)
Lemma C7_counterexample :
  (col <- DdlParseColumn.__init__ "c" ["INT"] None ;;
   let col' := DdlParseColumn.set_primary_key col true in
   Ok (DdlParseColumn.primary_key col', DdlParseColumn.not_null col',
       DdlParseColumn.constraint col', canonical_constraint col'))
  = Ok (true, false, "", "PRIMARY KEY").
Proof. vm_compute. reflexivity. Qed.

(** C7, amended.  On every column whose flags satisfy the invariant that a
    primary key is not null, the accessor returns the canonical string
    built from the flags; on a column that is not flagged not-null it
    returns UNIQUE or nothing, whatever the primary key flag. *)
Theorem C7_constraint_from_flags :
  (forall col,
      pk_implies_not_null col ->
      DdlParseColumn.constraint col = canonical_constraint col) /\
  (forall col,
      DdlParseColumn.not_null col = false ->
      DdlParseColumn.constraint col =
        if DdlParseColumn.unique col then "UNIQUE" else "").
Proof.
  split; intros [n dt len sc k nn pk u];
    unfold pk_implies_not_null, DdlParseColumn.constraint, canonical_constraint;
    simpl.
  - destruct nn, pk, u; simpl; intros H; try reflexivity;
      specialize (H eq_refl); discriminate.
  - intros ->. destruct u; reflexivity.
Qed.

Lemma C7_witness :
  DdlParseColumn.constraint
    (DdlParseColumn.mk "id" "INT" None None (Some "PRIMARY KEY UNIQUE")
       true true true)
  = "PRIMARY KEY UNIQUE".
Proof.
  rewrite (proj1 C7_constraint_from_flags); [reflexivity|].
  intros _. reflexivity.
Defined.

(* ------------------------------------------------------------------ *)
(** * The target type                                                   *)
(* ------------------------------------------------------------------ *)

Lemma conditions_loop_spec (data_type bq_type : string) conditions this :
  DdlParseColumn.conditions_loop data_type bq_type conditions this =
  if existsb (DdlParseColumn.condition_holds data_type) conditions
  then Some bq_type else this.
Proof.
  induction conditions as [|c rest IH]; simpl; [reflexivity|].
  destruct (DdlParseColumn.condition_holds data_type c); simpl;
    [reflexivity | exact IH].
Qed.

Lemma items_loop_no_match (data_type : string) items : forall this,
  existsb (rule_matches data_type) items = false ->
  DdlParseColumn.items_loop data_type items this = this.
Proof.
  induction items as [|[bq_type conditions] rest IH]; simpl; intros this H;
    [reflexivity|].
  apply orb_false_iff in H as [Hc Hrest].
  rewrite conditions_loop_spec. unfold rule_matches in Hc. simpl in Hc.
  rewrite Hc. now apply IH.
Qed.

Lemma first_matching_type_app (data_type : string) items1 items2 :
  first_matching_type data_type (items1 ++ items2) =
  match first_matching_type data_type items1 with
  | Some bq_type => Some bq_type
  | None => first_matching_type data_type items2
  end.
Proof.
  unfold first_matching_type.
  induction items1 as [|e rest IH]; simpl; [reflexivity|].
  destruct (rule_matches data_type e); simpl; [reflexivity | exact IH].
Qed.

(** What the two loops compute: the last entry of the table that matches,
    because the [break] leaves the inner loop only. *)
Lemma items_loop_last_match (data_type : string) items : forall this,
  DdlParseColumn.items_loop data_type items this =
  match first_matching_type data_type (rev items) with
  | Some bq_type => Some bq_type
  | None => this
  end.
Proof.
  induction items as [|[bq_type conditions] rest IH]; simpl; intros this;
    [reflexivity|].
  rewrite IH, first_matching_type_app, conditions_loop_spec.
  destruct (first_matching_type data_type (rev rest)); [reflexivity|].
  unfold first_matching_type, rule_matches. simpl.
  destruct (existsb _ conditions); reflexivity.
Qed.

(** C2 does not hold of the code.  CHARINT matches the rule of STRING
    (it contains CHAR) and the rule of INTEGER (it contains INT); the first
    matching target type in table order is STRING and the code returns
    INTEGER, the last one. *)
Theorem C2_last_match_wins_on_CHARINT :
  first_matching_type "CHARINT" DdlParseColumn.BQ_DATA_TYPE_DIC = Some "STRING" /\
  (col <- DdlParseColumn.__init__ "c" ["CHARINT"] None ;;
   DdlParseColumn.bigquery_data_type col) = Ok "INTEGER" /\
  option_map DdlParseColumn.bigquery_data_type
    (only_column "CREATE TABLE t (c CHARINT)") = Some (Ok "INTEGER").
Proof. repeat split; vm_compute; reflexivity. Qed.

(** C5.  When no rule of the table matches the base type: NUMERIC and
    DECIMAL map to INTEGER without a scale and to FLOAT with one; any other
    type raises the error that names it, and no target type is returned. *)
Theorem C5_unmatched_type :
  forall col,
    matches_some_rule (DdlParseColumn.data_type col) = false ->
    (DdlParseColumn.data_type col = "NUMERIC" \/
     DdlParseColumn.data_type col = "DECIMAL" ->
     DdlParseColumn.bigquery_data_type col =
       Ok (match DdlParseColumn.scale col with
           | None => "INTEGER"
           | Some _ => "FLOAT"
           end)) /\
    (DdlParseColumn.data_type col <> "NUMERIC" ->
     DdlParseColumn.data_type col <> "DECIMAL" ->
     DdlParseColumn.bigquery_data_type col =
       Err (ValueError
              ("Unknown data type : '" ++ DdlParseColumn.data_type col ++ "'"))).
Proof.
  intros col H. unfold DdlParseColumn.bigquery_data_type.
  unfold matches_some_rule, DdlParseColumn.data_type in *.
  rewrite (items_loop_no_match _ _ None H).
  split.
  - intros [-> | ->]; reflexivity.
  - intros H1 H2. apply String.eqb_neq in H1, H2. now rewrite H1, H2.
Qed.

Lemma C5_witness :
  DdlParseColumn.bigquery_data_type
    (DdlParseColumn.mk "g" "GEOMETRY" None None None false false false)
  = Err (ValueError "Unknown data type : 'GEOMETRY'") /\
  DdlParseColumn.bigquery_data_type
    (DdlParseColumn.mk "n" "NUMERIC" (Some 10%Z) (Some 2%Z) None false false false)
  = Ok "FLOAT".
Proof.
  split.
  - apply (proj2 (C5_unmatched_type
                    (DdlParseColumn.mk "g" "GEOMETRY" None None None
                       false false false) eq_refl));
      discriminate.
  - apply (proj1 (C5_unmatched_type
                    (DdlParseColumn.mk "n" "NUMERIC" (Some 10%Z) (Some 2%Z)
                       None false false false) eq_refl)).
    left. reflexivity.
Defined.

(* ------------------------------------------------------------------ *)
(** * The parser driver                                                 *)
(* ------------------------------------------------------------------ *)

(** C3, as the specification states it, fails for the empty text: only a
    text that is unset is refused before the grammar runs.  The empty text
    is given to the grammar, and the failure is the grammar's. *)
Lemma C3_counterexample :
  DdlParse.parse fresh (Some "") = Err ParseException.
Proof. vm_compute. reflexivity. Qed.

Lemma grammar_rejects_empty :
  Pyparsing.parseString DdlParse._DDL_PARSE_EXPR "" = Err ParseException.
Proof. vm_compute. reflexivity. Qed.

(** C3, amended.  When the DDL text is unset, neither given to [parse] nor
    stored in the parser, [parse] raises the error that no DDL is specified
    and the grammar is not run.  An empty text counts as given: the grammar
    runs on it and raises its own exception. *)
Theorem C3_unset_ddl_is_refused :
  (forall table,
      DdlParse.parse {| DdlParse._ddl := None; DdlParse._table := table |} None
      = Err (ValueError "DDL is not specified")) /\
  (forall self, DdlParse.parse self (Some "") = Err ParseException) /\
  (forall table,
      DdlParse.parse {| DdlParse._ddl := Some ""; DdlParse._table := table |} None
      = Err ParseException).
Proof.
  split; [reflexivity|].
  split; intros; unfold DdlParse.parse; cbv beta iota zeta;
    cbn [DdlParse._ddl]; now rewrite grammar_rejects_empty.
Qed.

(** C1.  The statement of the end-to-end example parses to a table named
    t with the two columns id and name, in this order: id maps to INTEGER,
    is REQUIRED and is a primary key; name maps to STRING, is unique and
    is NULLABLE. *)
Theorem C1_end_to_end :
  exists self' table id_col name_col,
    DdlParse.parse fresh
      (Some "CREATE TABLE t (id INT PRIMARY KEY, name VARCHAR(20), CONSTRAINT uq UNIQUE (name))")
    = Ok (self', table) /\
    DdlParseTable.name table = "t" /\
    OrderedDict.values (DdlParseTable.columns table) = [id_col; name_col] /\
    DdlParseColumn.name id_col = "id" /\
    DdlParseColumn.bigquery_data_type id_col = Ok "INTEGER" /\
    DdlParseColumn.bigquery_mode id_col = "REQUIRED" /\
    DdlParseColumn.primary_key id_col = true /\
    DdlParseColumn.name name_col = "name" /\
    DdlParseColumn.bigquery_data_type name_col = Ok "STRING" /\
    DdlParseColumn.unique name_col = true /\
    DdlParseColumn.bigquery_mode name_col = "NULLABLE".
Proof.
  destruct (DdlParse.parse fresh
              (Some "CREATE TABLE t (id INT PRIMARY KEY, name VARCHAR(20), CONSTRAINT uq UNIQUE (name))"))
    as [[self' table]|e] eqn:E; vm_compute in E; [|discriminate].
  injection E as <- <-.
  do 4 eexists. split; [reflexivity|].
  repeat split; vm_compute; reflexivity.
Qed.

(** ** Errors of the walk over the body *)

Lemma set_data_type_nonempty (ty : string) (rest : list string) :
  exists r, DdlParseColumn._set_data_type (ty :: rest) = Ok r.
Proof.
  unfold DdlParseColumn._set_data_type.
  destruct rest as [|spec rest]; [eauto|].
  destruct (Re.findall_size_spec_first spec) as [[g1 g2]|]; eauto.
Qed.

Lemma append_nonempty cols (name ty : string) (rest : list string) k :
  exists col,
    DdlParseColumnDict.append cols name (ty :: rest) k =
    Ok (col, DdlParseColumnDict.__setitem__ cols name col) /\
    pk_implies_not_null col.
Proof.
  unfold DdlParseColumnDict.append, DdlParseColumn.__init__.
  destruct (set_data_type_nonempty ty rest) as [[[dt len] sc] E].
  rewrite E. simpl. eexists. split; [reflexivity|].
  unfold pk_implies_not_null. simpl.
  destruct k as [text|]; simpl; [|discriminate].
  rewrite !orb_false_r. intros ->. apply orb_true_r.
Qed.

Lemma getitem_missing cols (col_name : string) :
  missing cols col_name ->
  DdlParseColumnDict.__getitem__ cols col_name = Err (KeyError (lower col_name)).
Proof.
  unfold missing, DdlParseColumnDict.__getitem__. now intros ->.
Qed.

Lemma getitem_error cols (col_name : string) e :
  DdlParseColumnDict.__getitem__ cols col_name = Err e ->
  e = KeyError (lower col_name).
Proof.
  unfold DdlParseColumnDict.__getitem__.
  destruct (OrderedDict.get cols (lower col_name)); [discriminate|].
  now intros [= <-].
Qed.

Lemma missing_after_store cols (n m : string) col col' :
  DdlParseColumnDict.__getitem__ cols m = Ok col ->
  missing cols n ->
  missing (DdlParseColumnDict.store cols m col') n.
Proof.
  unfold DdlParseColumnDict.__getitem__, missing, DdlParseColumnDict.store.
  intros Hm Hn. rewrite get_set_other; [exact Hn|].
  intros E. rewrite E, Hn in Hm. discriminate.
Qed.

Lemma constraint_columns_loop_error names : forall cols type e,
  DdlParse.constraint_columns_loop cols type names = Err e ->
  exists n, In n names /\ e = KeyError (lower n).
Proof.
  induction names as [|a rest IH]; simpl; intros cols type e H; [discriminate|].
  destruct (DdlParseColumnDict.__getitem__ cols a) as [col|e'] eqn:G; simpl in H.
  - destruct (IH _ _ _ H) as (n & Hin & ->). eauto.
  - injection H as <-. exists a. split; [now left|].
    now apply getitem_error in G.
Qed.

Lemma constraint_columns_loop_missing names : forall cols type n,
  In n names -> missing cols n ->
  exists m, In m names /\
            DdlParse.constraint_columns_loop cols type names
            = Err (KeyError (lower m)).
Proof.
  induction names as [|a rest IH]; simpl; intros cols type n Hin Hn; [easy|].
  destruct (DdlParseColumnDict.__getitem__ cols a) as [col|e] eqn:G; simpl.
  - destruct Hin as [-> | Hin].
    + rewrite (getitem_missing _ _ Hn) in G. discriminate.
    + destruct (IH (DdlParseColumnDict.store cols a
                      (DdlParse.apply_constraint type col)) type n Hin
                  (missing_after_store _ _ _ _ _ G Hn)) as (m & Hm & E).
      exists m. split; [now right | exact E].
  - exists a. split; [now left|].
    now rewrite (getitem_error _ _ _ G).
Qed.

Lemma columns_loop_app pre : forall cols post,
  DdlParse.columns_loop cols (pre ++ post) =
  (cols1 <- DdlParse.columns_loop cols pre ;; DdlParse.columns_loop cols1 post).
Proof.
  induction pre as [|[c|c] pre IH]; intros cols post; simpl; [reflexivity| |].
  - destruct (append_nonempty cols (DdlParse.column_name c)
                (fst (DdlParse.column_type c)) (snd (DdlParse.column_type c))
                None) as (col & -> & _).
    simpl. apply IH.
  - destruct (DdlParse.constraint_columns_loop cols _ _); simpl;
      [apply IH | reflexivity].
Qed.

Lemma referenced_cons e elems n : referenced elems n -> referenced (e :: elems) n.
Proof. intros (c & Hin & Hn). exists c. split; [now right | exact Hn]. Qed.

Lemma referenced_app pre post n : referenced post n -> referenced (pre ++ post) n.
Proof.
  intros (c & Hin & Hn). exists c. split; [|exact Hn].
  apply in_or_app. now right.
Qed.

(** The only exception the walk can raise is the [KeyError] of a column
    name that a constraint clause names. *)
Lemma columns_loop_error elems : forall cols e,
  DdlParse.columns_loop cols elems = Err e ->
  exists n, referenced elems n /\ e = KeyError (lower n).
Proof.
  induction elems as [|[c|c] rest IH]; simpl; intros cols e H; [discriminate| |].
  - destruct (append_nonempty cols (DdlParse.column_name c)
                (fst (DdlParse.column_type c)) (snd (DdlParse.column_type c))
                None) as (col & E & _).
    rewrite E in H. simpl in H.
    destruct (IH _ _ H) as (n & Hr & ->).
    exists n. split; [now apply referenced_cons | reflexivity].
  - destruct (DdlParse.constraint_columns_loop cols _ _) as [cols1|e1] eqn:L;
      simpl in H.
    + destruct (IH _ _ H) as (n & Hr & ->).
      exists n. split; [now apply referenced_cons | reflexivity].
    + injection H as <-.
      destruct (constraint_columns_loop_error _ _ _ _ L) as (n & Hin & ->).
      exists n. split; [|reflexivity].
      exists c. split; [now left | exact Hin].
Qed.

Lemma columns_loop_missing pre k post cols :
  (forall cols1,
      DdlParse.columns_loop cols pre = Ok cols1 ->
      exists n, In n (DdlParse.constraint_columns k) /\ missing cols1 n) ->
  exists n, referenced (pre ++ DdlParse.constraint k :: post) n /\
            DdlParse.columns_loop cols (pre ++ DdlParse.constraint k :: post)
            = Err (KeyError (lower n)).
Proof.
  intros H. rewrite columns_loop_app.
  destruct (DdlParse.columns_loop cols pre) as [cols1|e] eqn:P; simpl.
  - destruct (H cols1 eq_refl) as (n & Hin & Hn).
    destruct (constraint_columns_loop_missing _ cols1
                (DdlParse.constraint_type k) n Hin Hn) as (m & Hm & ->).
    simpl. exists m. split; [|reflexivity].
    apply referenced_app. exists k. split; [now left | exact Hm].
  - destruct (columns_loop_error _ _ _ P) as (n & (c & Hc & Hn) & ->).
    exists n. split; [|reflexivity].
    exists c. split; [|exact Hn]. apply in_or_app. now left.
Qed.

Lemma constraint_columns_loop_keeps_missing names : forall cols type cols' n,
  missing cols n ->
  DdlParse.constraint_columns_loop cols type names = Ok cols' ->
  missing cols' n.
Proof.
  induction names as [|a rest IH]; simpl; intros cols type cols' n Hn H.
  - now injection H as <-.
  - destruct (DdlParseColumnDict.__getitem__ cols a) as [col|e] eqn:G;
      simpl in H; [|discriminate].
    exact (IH _ _ _ _ (missing_after_store _ _ _ _ _ G Hn) H).
Qed.

(** A name stays out of the collection as long as no column clause
    defines it. *)
Lemma columns_loop_keeps_missing pre : forall cols cols' n,
  missing cols n ->
  (forall c, In (DdlParse.column c) pre ->
             lower (DdlParse.column_name c) <> lower n) ->
  DdlParse.columns_loop cols pre = Ok cols' ->
  missing cols' n.
Proof.
  induction pre as [|[c|c] pre IH]; simpl; intros cols cols' n Hn Hpre H.
  - now injection H as <-.
  - destruct (append_nonempty cols (DdlParse.column_name c)
                (fst (DdlParse.column_type c)) (snd (DdlParse.column_type c))
                None) as (col & E & _).
    rewrite E in H. simpl in H.
    assert (Hc : lower (DdlParse.column_name c) <> lower n)
      by (apply Hpre; now left).
    refine (IH _ _ n _ (fun c' Hin => Hpre c' (or_intror Hin)) H).
    assert (H1 : missing (DdlParseColumnDict.__setitem__ cols
                            (DdlParse.column_name c) col) n)
      by (unfold missing, DdlParseColumnDict.__setitem__;
          now rewrite get_set_other).
    destruct (DdlParse.column_constraint c) as [text|]; [|exact H1].
    unfold missing, DdlParseColumnDict.store. now rewrite get_set_other.
  - destruct (DdlParse.constraint_columns_loop cols _ _) as [cols1|e] eqn:L;
      simpl in H; [|discriminate].
    exact (IH _ _ n (constraint_columns_loop_keeps_missing _ _ _ _ _ Hn L)
              (fun c' Hin => Hpre c' (or_intror Hin)) H).
Qed.

Lemma parse_raises_columns_loop_error self ddl ret table_name elems e :
  Pyparsing.parseString DdlParse._DDL_PARSE_EXPR ddl = Ok ret ->
  DdlParse.table ret = Some table_name ->
  DdlParse.columns ret = Some elems ->
  DdlParse.columns_loop (DdlParseTable.columns (DdlParse._table self)) elems
  = Err e ->
  DdlParse.parse self (Some ddl) = Err e.
Proof.
  intros Hret Htable Hcols E.
  unfold DdlParse.parse. cbv beta iota zeta.
  rewrite Hret. cbn [Py.bind]. rewrite Htable, Hcols.
  cbn [DdlParse.item Py.bind].
  unfold DdlParseTable.columns in E. now rewrite E.
Qed.

(** C6.  When the body of the parsed statement has a table-level
    constraint clause that names a column which is not in the collection
    when the clause is resolved, [parse] raises the [KeyError] of a column
    name that a constraint clause of the body names.  This is so in
    particular for a column that is defined only later in the body: one
    that is not in the collection before the call and that no column clause
    before the constraint clause defines. *)
Theorem C6_constraint_on_missing_column :
  (forall self ddl ret table_name pre k post,
      Pyparsing.parseString DdlParse._DDL_PARSE_EXPR ddl = Ok ret ->
      DdlParse.table ret = Some table_name ->
      DdlParse.columns ret
      = Some (pre ++ DdlParse.constraint k :: post)%list ->
      (forall cols,
          DdlParse.columns_loop
            (DdlParseTable.columns (DdlParse._table self)) pre = Ok cols ->
          exists n, In n (DdlParse.constraint_columns k) /\ missing cols n) ->
      exists n,
        referenced (pre ++ DdlParse.constraint k :: post) n /\
        DdlParse.parse self (Some ddl) = Err (KeyError (lower n))) /\
  (forall self ddl ret table_name pre k post n,
      Pyparsing.parseString DdlParse._DDL_PARSE_EXPR ddl = Ok ret ->
      DdlParse.table ret = Some table_name ->
      DdlParse.columns ret
      = Some (pre ++ DdlParse.constraint k :: post)%list ->
      In n (DdlParse.constraint_columns k) ->
      missing (DdlParseTable.columns (DdlParse._table self)) n ->
      (forall c, In (DdlParse.column c) pre ->
                 lower (DdlParse.column_name c) <> lower n) ->
      exists m,
        referenced (pre ++ DdlParse.constraint k :: post) m /\
        DdlParse.parse self (Some ddl) = Err (KeyError (lower m))).
Proof.
  assert (G : forall self ddl ret table_name pre k post,
             Pyparsing.parseString DdlParse._DDL_PARSE_EXPR ddl = Ok ret ->
             DdlParse.table ret = Some table_name ->
             DdlParse.columns ret
             = Some (pre ++ DdlParse.constraint k :: post)%list ->
             (forall cols,
                 DdlParse.columns_loop
                   (DdlParseTable.columns (DdlParse._table self)) pre
                 = Ok cols ->
                 exists n, In n (DdlParse.constraint_columns k) /\
                           missing cols n) ->
             exists n,
               referenced (pre ++ DdlParse.constraint k :: post) n /\
               DdlParse.parse self (Some ddl) = Err (KeyError (lower n))).
  { intros self ddl ret table_name pre k post Hret Htable Hcols Hmiss.
    destruct (columns_loop_missing pre k post _ Hmiss) as (n & Hr & E).
    exists n. split; [exact Hr|].
    exact (parse_raises_columns_loop_error _ _ _ _ _ _ Hret Htable Hcols E). }
  split; [exact G|].
  intros self ddl ret table_name pre k post n Hret Htable Hcols Hin Hn Hpre.
  apply (G self ddl ret table_name pre k post Hret Htable Hcols).
  intros cols Hloop. exists n. split; [exact Hin|].
  exact (columns_loop_keeps_missing _ _ _ _ Hn Hpre Hloop).
Qed.

Lemma C6_witness :
  exists n,
    referenced
      [DdlParse.column
         {| DdlParse.column_name := "a";
            DdlParse.column_type := ("INT", []);
            DdlParse.column_constraint := None |};
       DdlParse.constraint
         {| DdlParse.constraint_name := Some "pk";
            DdlParse.constraint_type := "PRIMARY KEY";
            DdlParse.constraint_columns := ["id"] |};
       DdlParse.column
         {| DdlParse.column_name := "id";
            DdlParse.column_type := ("INT", []);
            DdlParse.column_constraint := None |}] n /\
    DdlParse.parse fresh
      (Some "CREATE TABLE t (a INT, CONSTRAINT pk PRIMARY KEY (id), id INT)")
    = Err (KeyError (lower n)).
Proof.
  refine (proj2 C6_constraint_on_missing_column fresh
            "CREATE TABLE t (a INT, CONSTRAINT pk PRIMARY KEY (id), id INT)"
            {| DdlParse.temp := None; DdlParse.schema := None;
               DdlParse.table := Some "t";
               DdlParse.columns := Some _ |} "t"
            [DdlParse.column
               {| DdlParse.column_name := "a";
                  DdlParse.column_type := ("INT", []);
                  DdlParse.column_constraint := None |}]
            _ _ "id" _ eq_refl _ _ _ _).
  - vm_compute. reflexivity.
  - reflexivity.
  - now left.
  - reflexivity.
  - intros c [[= <-] | []]. vm_compute. discriminate.
Defined.

(** ** The invariant of the data model *)

Lemma set_constraint_invariant col k :
  pk_implies_not_null (DdlParseColumn.set_constraint col k).
Proof.
  unfold pk_implies_not_null. destruct k as [text|]; simpl; [|discriminate].
  rewrite !orb_false_r. intros ->. apply orb_true_r.
Qed.

Lemma apply_constraint_invariant (type : string) col :
  pk_implies_not_null col ->
  pk_implies_not_null (DdlParse.apply_constraint type col).
Proof.
  unfold DdlParse.apply_constraint, pk_implies_not_null.
  destruct (type =? "PRIMARY KEY"); [reflexivity|].
  destruct ((type =? "UNIQUE") || (type =? "UNIQUE KEY")); [exact (fun H => H)|].
  destruct (type =? "NOT NULL"); [reflexivity | exact (fun H => H)].
Qed.

Lemma constraint_columns_loop_invariant names : forall cols type cols',
  columns_invariant cols ->
  DdlParse.constraint_columns_loop cols type names = Ok cols' ->
  columns_invariant cols'.
Proof.
  induction names as [|a rest IH]; simpl; intros cols type cols' Hinv H.
  - now injection H as <-.
  - unfold DdlParseColumnDict.__getitem__ in H.
    destruct (OrderedDict.get cols (lower a)) as [col|] eqn:G; simpl in H;
      [|discriminate].
    apply (IH _ _ _ (values_set_Forall _ _ _ _ _ Hinv
                       (apply_constraint_invariant type col
                          (get_Forall _ _ _ _ _ Hinv G))) H).
Qed.

Lemma columns_loop_invariant elems : forall cols cols',
  columns_invariant cols ->
  DdlParse.columns_loop cols elems = Ok cols' ->
  columns_invariant cols'.
Proof.
  induction elems as [|[c|c] rest IH]; simpl; intros cols cols' Hinv H.
  - now injection H as <-.
  - destruct (append_nonempty cols (DdlParse.column_name c)
                (fst (DdlParse.column_type c)) (snd (DdlParse.column_type c))
                None) as (col & E & Hcol).
    rewrite E in H. simpl in H.
    refine (IH _ _ _ H).
    pose proof (values_set_Forall _ pk_implies_not_null cols
                  (lower (DdlParse.column_name c)) col Hinv Hcol) as H1.
    destruct (DdlParse.column_constraint c) as [text|]; [|exact H1].
    apply values_set_Forall; [exact H1 | apply set_constraint_invariant].
  - destruct (DdlParse.constraint_columns_loop cols _ _) as [cols1|e] eqn:L;
      simpl in H; [|discriminate].
    exact (IH _ _ (constraint_columns_loop_invariant _ _ _ _ Hinv L) H).
Qed.

(** C8.  Every column of the table that a successful [parse] returns
    satisfies that a primary key is not null, for a primary key declared in
    the column clause and for one declared by a table-level constraint:
    for a parser that was just constructed, and for any parser whose
    collection satisfied the invariant before the call. *)
Theorem C8_primary_key_implies_not_null :
  (forall ddl0 ddl self' table,
      DdlParse.parse (DdlParse.__init__ ddl0) ddl = Ok (self', table) ->
      columns_invariant (DdlParseTable.columns table)) /\
  (forall self ddl self' table,
      columns_invariant (DdlParseTable.columns (DdlParse._table self)) ->
      DdlParse.parse self ddl = Ok (self', table) ->
      columns_invariant (DdlParseTable.columns table)).
Proof.
  assert (G : forall self ddl self' table,
             columns_invariant (DdlParseTable.columns (DdlParse._table self)) ->
             DdlParse.parse self ddl = Ok (self', table) ->
             columns_invariant (DdlParseTable.columns table)).
  { intros self ddl self' table Hinv. unfold DdlParse.parse.
    destruct (match ddl with Some _ => ddl | None => DdlParse._ddl self end)
      as [text|]; [|discriminate].
    destruct (Pyparsing.parseString DdlParse._DDL_PARSE_EXPR text) as [ret|e];
      [|discriminate].
    cbn [Py.bind].
    destruct (DdlParse.table ret) as [name'|]; [|discriminate].
    destruct (DdlParse.columns ret) as [elems|]; [|discriminate].
    cbn [DdlParse.item Py.bind].
    destruct (DdlParse.columns_loop _ elems) as [cols'|e] eqn:L;
      [|discriminate].
    cbn [Py.bind]. intros [= _ <-].
    exact (columns_loop_invariant _ _ _ Hinv L). }
  split; [|exact G].
  intros ddl0 ddl self' table. apply G. constructor.
Qed.

Lemma C8_witness :
  exists self' table,
    DdlParse.parse fresh
      (Some "CREATE TABLE t (id INT PRIMARY KEY, x INT, y INT UNIQUE, PRIMARY KEY (x))")
    = Ok (self', table) /\
    map DdlParseColumn.primary_key
      (OrderedDict.values (DdlParseTable.columns table)) = [true; true; false] /\
    columns_invariant (DdlParseTable.columns table).
Proof.
  destruct (DdlParse.parse fresh
              (Some "CREATE TABLE t (id INT PRIMARY KEY, x INT, y INT UNIQUE, PRIMARY KEY (x))"))
    as [[self' table]|e] eqn:E; [|vm_compute in E; discriminate].
  exists self', table. split; [reflexivity|].
  split.
  - vm_compute in E. injection E as _ <-. reflexivity.
  - exact (proj1 C8_primary_key_implies_not_null None _ _ _ E).
Defined.


(* ------------------------------------------------------------------ *)
(** * The repetitions of the grammar end at a failed match              *)
(* ------------------------------------------------------------------ *)

(** [repeat_match] is bounded by the length of its input.  The bound is
    never what ends a repetition of the grammar: every repeated element
    reads at least one character, so the loop ends, as in pyparsing, when
    the element fails to match. *)

Section Progress.

Import Pyparsing.

Lemma length_drop_while f s :
  String.length (drop_while f s) <= String.length s.
Proof.
  induction s as [|c s IH]; simpl; [lia|]. destruct (f c); simpl; lia.
Qed.

Lemma length_take_drop_while f s :
  String.length (take_while f s) + String.length (drop_while f s)
  = String.length s.
Proof.
  induction s as [|c s IH]; simpl; [reflexivity|]. destruct (f c); simpl; lia.
Qed.

Lemma length_drop n : forall s,
  String.length (drop n s) = String.length s - n.
Proof.
  induction n as [|n IH]; intros [|c s]; simpl; try reflexivity. apply IH.
Qed.

Lemma length_take n : forall s,
  String.length (take n s) <= String.length s.
Proof.
  induction n as [|n IH]; intros [|c s]; simpl; try lia.
  specialize (IH s). lia.
Qed.

Lemma length_map_str f s : String.length (map_str f s) = String.length s.
Proof. induction s as [|c s IH]; simpl; [reflexivity | now rewrite IH]. Qed.

Lemma startswith_length m : forall s,
  startswith m s = true -> String.length m <= String.length s.
Proof.
  induction m as [|a m IH]; intros [|b s]; simpl; try lia; try discriminate.
  intros H. apply andb_true_iff in H as [_ H]. specialize (IH s H). lia.
Qed.

Lemma length_preParse s : String.length (preParse s) <= String.length s.
Proof. apply length_drop_while. Qed.

(** ** Tokens *)

Lemma consuming_Literal m : m <> "" -> consuming (Literal m).
Proof.
  intros Hm s a rest. unfold Literal.
  destruct (startswith m (preParse s)) eqn:E; [|discriminate].
  intros [= _ <-]. rewrite length_drop.
  apply startswith_length in E. pose proof (length_preParse s).
  destruct m; [congruence|]. simpl in *. lia.
Qed.

Lemma consuming_CaselessKeyword m : m <> "" -> consuming (CaselessKeyword m).
Proof.
  intros Hm s a rest. unfold CaselessKeyword.
  match goal with |- context [if ?b then _ else _] => destruct b eqn:E end;
    [|discriminate].
  intros [= _ <-]. apply andb_true_iff in E as [E _].
  apply String.eqb_eq in E. apply (f_equal String.length) in E.
  unfold upper in E. rewrite !length_map_str in E.
  pose proof (length_take (String.length m) (preParse s)).
  pose proof (length_preParse s). rewrite length_drop.
  destruct m; [congruence|]. simpl in *. lia.
Qed.

Lemma consuming_take_while f : forall s a rest,
  match take_while f (preParse s) with
  | EmptyString => None
  | w => Some (w, drop_while f (preParse s))
  end = Some (a, rest) ->
  String.length rest < String.length s.
Proof.
  intros s a rest.
  pose proof (length_take_drop_while f (preParse s)) as H.
  pose proof (length_preParse s).
  destruct (take_while f (preParse s)); [discriminate|].
  intros [= _ <-]. simpl in H. lia.
Qed.

Lemma consuming_Word chars : consuming (Word chars).
Proof. intros s a rest. apply consuming_take_while. Qed.

Lemma consuming_Regex_rest_of_line : consuming Regex_rest_of_line.
Proof. intros s a rest. apply consuming_take_while. Qed.

Lemma length_match_size_spec s :
  String.length (snd (Re.match_size_spec s)) <= String.length s.
Proof.
  unfold Re.match_size_spec. cbv zeta. cbn [snd].
  do 4 (eapply Nat.le_trans; [apply length_drop_while|]).
  apply length_drop_while.
Qed.

Lemma nl_Regex_size_spec : non_lengthening Regex_size_spec.
Proof.
  intros s a rest. unfold Regex_size_spec.
  pose proof (length_preParse s) as H.
  destruct (preParse s) as [|c s']; [discriminate|].
  destruct (is_digit c); [|discriminate].
  pose proof (length_match_size_spec (String c s')) as M.
  destruct (Re.match_size_spec (String c s')) as [[g1 g2] r].
  intros [= _ <-]. cbn [snd] in M. lia.
Qed.

(** ** Combinators *)

Lemma consuming_nl {A} (p : parser A) : consuming p -> non_lengthening p.
Proof. intros H s a rest E. specialize (H s a rest E). lia. Qed.

Lemma nl_ret {A} (a : A) : non_lengthening (ret a).
Proof. intros s b rest [= _ <-]. lia. Qed.

Lemma nl_andThen {A B} (p : parser A) (k : A -> parser B) :
  non_lengthening p -> (forall a, non_lengthening (k a)) ->
  non_lengthening (andThen p k).
Proof.
  intros Hp Hk s b rest. unfold andThen.
  destruct (p s) as [[a r]|] eqn:E; [|discriminate].
  intros E'. specialize (Hp _ _ _ E). specialize (Hk _ _ _ _ E'). lia.
Qed.

Lemma consuming_andThen_l {A B} (p : parser A) (k : A -> parser B) :
  consuming p -> (forall a, non_lengthening (k a)) -> consuming (andThen p k).
Proof.
  intros Hp Hk s b rest. unfold andThen.
  destruct (p s) as [[a r]|] eqn:E; [|discriminate].
  intros E'. specialize (Hp _ _ _ E). specialize (Hk _ _ _ _ E'). lia.
Qed.

Lemma consuming_andThen_r {A B} (p : parser A) (k : A -> parser B) :
  non_lengthening p -> (forall a, consuming (k a)) -> consuming (andThen p k).
Proof.
  intros Hp Hk s b rest. unfold andThen.
  destruct (p s) as [[a r]|] eqn:E; [|discriminate].
  intros E'. specialize (Hp _ _ _ E). specialize (Hk _ _ _ _ E'). lia.
Qed.

Lemma nl_Optional {A} (p : parser A) :
  non_lengthening p -> non_lengthening (Optional p).
Proof.
  intros Hp s o rest. unfold Optional.
  destruct (p s) as [[a r]|] eqn:E; intros [= _ <-]; [|lia].
  exact (Hp _ _ _ E).
Qed.

Lemma nl_MatchFirst {A} (p q : parser A) :
  non_lengthening p -> non_lengthening q -> non_lengthening (MatchFirst p q).
Proof.
  intros Hp Hq s a rest. unfold MatchFirst.
  destruct (p s) as [[a' r]|] eqn:E; [intros [= <- <-]; eauto | apply Hq].
Qed.

Lemma consuming_MatchFirst {A} (p q : parser A) :
  consuming p -> consuming q -> consuming (MatchFirst p q).
Proof.
  intros Hp Hq s a rest. unfold MatchFirst.
  destruct (p s) as [[a' r]|] eqn:E; [intros [= <- <-]; eauto | apply Hq].
Qed.

Lemma Or_from_cases {A} (ps : list (parser A)) : forall best s r,
  Or_from best ps s = Some r ->
  best = Some r \/ exists p, In p ps /\ p s = Some r.
Proof.
  induction ps as [|p ps IH]; simpl; intros best s r H; [now left|].
  assert (G : forall best',
             (best' = best \/ (exists x, best' = Some x /\ p s = Some x)) ->
             Or_from best' ps s = Some r ->
             best = Some r \/ exists q, (p = q \/ In q ps) /\ q s = Some r).
  { intros best' Hb H'. destruct (IH _ _ _ H') as [-> | (q & Hq & E)].
    - destruct Hb as [<- | (x & [= <-] & E)]; [now left|].
      right. exists p. split; [now left | exact E].
    - right. exists q. split; [now right | exact E]. }
  assert (Hold : Or_from best ps s = Some r ->
                 best = Some r \/ exists q, (p = q \/ In q ps) /\ q s = Some r)
    by (apply G; now left).
  destruct (p s) as [[a rest]|] eqn:E; [|exact (Hold H)].
  assert (Hnew : Or_from (Some (a, rest)) ps s = Some r ->
                 best = Some r \/ exists q, (p = q \/ In q ps) /\ q s = Some r)
    by (apply G; right; eauto).
  destruct best as [[b best_rest]|]; [|exact (Hnew H)].
  destruct (String.length rest <? String.length best_rest)%nat;
    [exact (Hnew H) | exact (Hold H)].
Qed.

Lemma consuming_Or {A} (ps : list (parser A)) :
  Forall consuming ps -> consuming (Or ps).
Proof.
  intros Hps s a rest H. unfold Or in H.
  destruct (Or_from_cases _ _ _ _ H) as [? | (p & Hin & E)]; [discriminate|].
  rewrite Forall_forall in Hps. exact (Hps p Hin _ _ _ E).
Qed.

Lemma nl_repeat_match {A} (p : parser A) :
  non_lengthening p ->
  forall fuel s,
    String.length (snd (repeat_match fuel p s)) <= String.length s.
Proof.
  intros Hp. induction fuel as [|fuel IH]; intros s; simpl; [lia|].
  destruct (p s) as [[a rest]|] eqn:E; simpl; [|lia].
  specialize (IH rest). specialize (Hp _ _ _ E).
  destruct (repeat_match fuel p rest) as [l rest']. simpl in *. lia.
Qed.

Lemma nl_ZeroOrMore {A} (p : parser A) :
  non_lengthening p -> non_lengthening (ZeroOrMore p).
Proof.
  intros Hp s l rest E.
  assert (E' : repeat_match (S (String.length s)) p s = (l, rest))
    by (unfold ZeroOrMore in E; congruence).
  pose proof (nl_repeat_match p Hp (S (String.length s)) s) as H.
  now rewrite E' in H.
Qed.

Lemma consuming_OneOrMore {A} (p : parser A) :
  consuming p -> consuming (OneOrMore p).
Proof.
  intros Hp. unfold OneOrMore.
  apply consuming_andThen_l; [exact Hp|]. intros a.
  apply nl_andThen; [apply nl_ZeroOrMore, consuming_nl, Hp|].
  intros l. apply nl_ret.
Qed.

Lemma consuming_delimiter {A} (p : parser A) :
  non_lengthening p ->
  consuming (andThen (Suppress (Literal ",")) (fun _ => p)).
Proof.
  intros Hp. apply consuming_andThen_l; [|intros _; exact Hp].
  unfold Suppress. apply consuming_andThen_l;
    [apply consuming_Literal; discriminate | intros _; apply nl_ret].
Qed.

Lemma consuming_delimitedList {A} (p : parser A) :
  consuming p -> consuming (delimitedList p).
Proof.
  intros Hp. unfold delimitedList.
  apply consuming_andThen_l; [exact Hp|]. intros a.
  apply nl_andThen; [|intros l; apply nl_ret].
  apply nl_ZeroOrMore, consuming_nl, consuming_delimiter, consuming_nl, Hp.
Qed.

(** ** The repetition ends at a failed match *)

Lemma repeat_match_stops {A} (p : parser A) :
  consuming p ->
  forall fuel s,
    String.length s < fuel -> p (snd (repeat_match fuel p s)) = None.
Proof.
  intros Hp. induction fuel as [|fuel IH]; intros s Hlt; [lia|]. simpl.
  destruct (p s) as [[a rest]|] eqn:E; [|exact E].
  specialize (Hp _ _ _ E). specialize (IH rest ltac:(lia)).
  destruct (repeat_match fuel p rest) as [l rest']. exact IH.
Qed.

Lemma ZeroOrMore_stops {A} (p : parser A) :
  consuming p ->
  forall s l rest, ZeroOrMore p s = Some (l, rest) -> p rest = None.
Proof.
  intros Hp s l rest E.
  assert (E' : repeat_match (S (String.length s)) p s = (l, rest))
    by (unfold ZeroOrMore in E; congruence).
  pose proof (repeat_match_stops p Hp (S (String.length s)) s ltac:(lia)) as H.
  now rewrite E' in H.
Qed.

(** More fuel than the length of the input changes nothing. *)
Lemma repeat_match_fuel {A} (p : parser A) :
  consuming p ->
  forall fuel fuel' s,
    String.length s < fuel -> String.length s < fuel' ->
    repeat_match fuel p s = repeat_match fuel' p s.
Proof.
  intros Hp. induction fuel as [|fuel IH]; intros fuel' s H H'; [lia|].
  destruct fuel' as [|fuel']; [lia|]. simpl.
  destruct (p s) as [[a rest]|] eqn:E; [|reflexivity].
  specialize (Hp _ _ _ E).
  now rewrite (IH fuel' rest ltac:(lia) ltac:(lia)).
Qed.

End Progress.

(** ** The repeated elements of the grammar *)

Create HintDb grammar.

#[local] Hint Unfold
  DdlParse._LPAR DdlParse._RPAR DdlParse._COMMA DdlParse._DOT
  DdlParse._DOUBLEQUOTE DdlParse._BACKQUOTE DdlParse._SUPPRESS_QUOTE
  DdlParse._CREATE DdlParse._TABLE DdlParse._TEMP DdlParse._CONSTRAINT
  DdlParse._NOT_NULL DdlParse._PRIMARY_KEY DdlParse._UNIQUE
  DdlParse._UNIQUE_KEY DdlParse._KEY DdlParse._COMMENT
  DdlParse.index_clause DdlParse.quoted_word DdlParse.constraint_clause
  DdlParse.column_clause DdlParse.clause DdlParse._CREATE_TABLE_STATEMENT
  Pyparsing.Suppress : grammar.

Ltac shrink :=
  autounfold with grammar;
  repeat lazymatch goal with
    | |- forall _, _ => intro
    | |- non_lengthening (Pyparsing.ret _) => apply nl_ret
    | |- non_lengthening (Pyparsing.andThen _ _) => apply nl_andThen
    | |- non_lengthening (Pyparsing.Optional _) => apply nl_Optional
    | |- non_lengthening (Pyparsing.MatchFirst _ _) => apply nl_MatchFirst
    | |- non_lengthening (Pyparsing.ZeroOrMore _) => apply nl_ZeroOrMore
    | |- non_lengthening Pyparsing.Regex_size_spec => apply nl_Regex_size_spec
    | |- non_lengthening _ => apply consuming_nl
    | |- consuming (Pyparsing.Literal _) =>
        apply consuming_Literal; discriminate
    | |- consuming (Pyparsing.CaselessKeyword _) =>
        apply consuming_CaselessKeyword; discriminate
    | |- consuming (Pyparsing.Word _) => apply consuming_Word
    | |- consuming Pyparsing.Regex_rest_of_line =>
        apply consuming_Regex_rest_of_line
    | |- consuming (Pyparsing.MatchFirst _ _) => apply consuming_MatchFirst
    | |- consuming (Pyparsing.Or _) =>
        apply consuming_Or; repeat apply Forall_cons; try apply Forall_nil
    | |- consuming (Pyparsing.OneOrMore _) => apply consuming_OneOrMore
    | |- consuming (Pyparsing.delimitedList _) => apply consuming_delimitedList
    | |- consuming (Pyparsing.andThen _ _) =>
        first [ apply consuming_andThen_l; [solve [shrink] | ]
              | apply consuming_andThen_r ]
    end.

Lemma quoted_word_consuming : consuming DdlParse.quoted_word.
Proof. shrink. Qed.

Lemma clause_consuming : consuming DdlParse.clause.
Proof. shrink. Qed.

Lemma next_quoted_word_consuming :
  consuming (Pyparsing.andThen (Pyparsing.Suppress (Pyparsing.Literal ","))
               (fun _ => DdlParse.quoted_word)).
Proof. apply consuming_delimiter, consuming_nl, quoted_word_consuming. Qed.

Lemma next_clauses_consuming :
  consuming
    (Pyparsing.andThen (Pyparsing.Suppress (Pyparsing.Literal ","))
       (fun _ =>
          Pyparsing.andThen (Pyparsing.OneOrMore DdlParse.clause)
            (fun l => Pyparsing.ret (concat l)))).
Proof.
  apply consuming_delimiter, nl_andThen; [|intros l; apply nl_ret].
  apply consuming_nl, consuming_OneOrMore, clause_consuming.
Qed.

Lemma statement_consuming :
  consuming
    (Pyparsing.MatchFirst
       (Pyparsing.andThen DdlParse._COMMENT
          (fun _ => Pyparsing.ret DdlParse.no_results))
       DdlParse._CREATE_TABLE_STATEMENT).
Proof. shrink. Qed.


(* ------------------------------------------------------------------ *)
(** * Further properties: the constraint text of a column               *)
(* ------------------------------------------------------------------ *)

Ltac all_ascii c :=
  destruct c as [[|] [|] [|] [|] [|] [|] [|] [|]];
  vm_compute; intros; try congruence; auto.

Lemma upper_char_upper_char (c : ascii) : upper_char (upper_char c) = upper_char c.
Proof. all_ascii c. Qed.

Lemma upper_char_lower_char (c : ascii) : upper_char (lower_char c) = upper_char c.
Proof. all_ascii c. Qed.

Lemma same_letter_upper_char (c : ascii) : same_letter (upper_char c) c.
Proof. unfold same_letter. all_ascii c. Qed.

Lemma same_letter_upper (c1 c2 : ascii) :
  same_letter c1 c2 -> upper_char c2 = upper_char c1.
Proof.
  intros [-> | [-> | ->]];
    [reflexivity | apply upper_char_upper_char | apply upper_char_lower_char].
Qed.

Lemma case_variant_upper (s1 s2 : string) :
  case_variant s1 s2 -> upper s2 = upper s1.
Proof.
  induction 1 as [|c1 c2 s1 s2 Hc _ IH]; [reflexivity|].
  unfold upper in *. simpl. now rewrite IH, (same_letter_upper _ _ Hc).
Qed.

Lemma upper_case_variant (kw : string) : case_variant (upper kw) kw.
Proof.
  induction kw as [|c kw IH]; [constructor|].
  constructor; [apply same_letter_upper_char | exact IH].
Qed.

Lemma map_str_app f (a b : string) :
  map_str f (a ++ b) = map_str f a ++ map_str f b.
Proof. induction a as [|c a IH]; simpl; [reflexivity | now rewrite IH]. Qed.

Lemma map_str_app_inv f (s : string) : forall A B,
  map_str f s = A ++ B ->
  exists a b, s = a ++ b /\ map_str f a = A /\ map_str f b = B.
Proof.
  induction s as [|c s IH]; intros A B H.
  - destruct A; [|discriminate]. destruct B; [|discriminate].
    exists "", "". repeat split.
  - destruct A as [|x A].
    + exists "", (String c s). repeat split. exact H.
    + simpl in H. injection H as Hx H.
      destruct (IH _ _ H) as (a & b & -> & Ha & Hb).
      exists (String c a), b. simpl. now rewrite Hx, Ha, Hb.
Qed.

Lemma startswith_app (p b : string) : startswith p (p ++ b) = true.
Proof.
  induction p as [|c p IH]; simpl; [reflexivity|].
  now rewrite Ascii.eqb_refl, IH.
Qed.

Lemma startswith_split (p : string) : forall s,
  startswith p s = true -> exists b, s = p ++ b.
Proof.
  induction p as [|c p IH]; intros s H; [now exists s|].
  destruct s as [|x s]; [discriminate|]. simpl in H.
  apply andb_true_iff in H as [Hc H]. apply Ascii.eqb_eq in Hc. subst x.
  destruct (IH _ H) as [b ->]. now exists b.
Qed.

Lemma contains_middle (sub a b : string) : contains sub (a ++ sub ++ b) = true.
Proof.
  induction a as [|c a IH].
  - destruct sub as [|x sub]; [destruct b; reflexivity|].
    change (contains (String x sub) ("" ++ String x sub ++ b))
      with (startswith (String x sub) (String x sub ++ b)
            || contains (String x sub) (sub ++ b)).
    now rewrite startswith_app.
  - change (contains sub (String c a ++ sub ++ b))
      with (startswith sub (String c (a ++ sub ++ b))
            || contains sub (a ++ sub ++ b)).
    rewrite IH. apply orb_true_r.
Qed.

Lemma contains_split (sub : string) : forall s,
  contains sub s = true -> exists a b, s = a ++ sub ++ b.
Proof.
  induction s as [|c s IH]; intros H.
  - destruct sub; [|discriminate]. now exists "", "".
  - change (contains sub (String c s))
      with (startswith sub (String c s) || contains sub s) in H.
    apply orb_true_iff in H as [H | H].
    + destruct (startswith_split _ _ H) as [b E]. now exists "", b.
    + destruct (IH H) as (a & b & ->). now exists (String c a), b.
Qed.

(** The detector of a keyword: a search in the upper-cased text finds the
    keyword exactly when the text mentions it in some case. *)
Lemma search_upper_mentions (keyword text : string) :
  upper keyword = keyword ->
  contains keyword (upper text) = true <-> mentions keyword text.
Proof.
  intros Hk. split.
  - intros H. destruct (contains_split _ _ H) as (A & B & E).
    unfold upper in E.
    destruct (map_str_app_inv _ _ _ _ E) as (pre & rest & -> & <- & E').
    destruct (map_str_app_inv _ _ _ _ E') as (kw & post & -> & E'' & _).
    exists pre, kw, post. split; [reflexivity|].
    rewrite <- E''. apply upper_case_variant.
  - intros (pre & kw & post & -> & Hv).
    unfold upper. rewrite !map_str_app.
    change (map_str upper_char kw) with (upper kw).
    rewrite (case_variant_upper _ _ Hv), Hk. apply contains_middle.
Qed.

(** X1.  The constraint setter classifies the text by three detectors that
    ignore case and position: the column is a primary key exactly when the
    text mentions PRIMARY KEY, not null exactly when it mentions NOT NULL
    or PRIMARY KEY, unique exactly when it mentions UNIQUE; the flags the
    column had before do not count, and without a text all three are
    cleared. *)
Theorem X1_constraint_text_detectors :
  (forall col text,
      let col' := DdlParseColumn.set_constraint col (Some text) in
      (DdlParseColumn.primary_key col' = true <-> mentions "PRIMARY KEY" text) /\
      (DdlParseColumn.not_null col' = true <->
       mentions "NOT NULL" text \/ mentions "PRIMARY KEY" text) /\
      (DdlParseColumn.unique col' = true <-> mentions "UNIQUE" text)) /\
  (forall col,
      flags (DdlParseColumn.set_constraint col None) = (false, false, false)).
Proof.
  split; [|reflexivity].
  intros col text. cbv zeta.
  unfold DdlParseColumn.primary_key, DdlParseColumn.not_null,
    DdlParseColumn.unique. simpl.
  rewrite !orb_false_r.
  rewrite <- !search_upper_mentions by reflexivity.
  repeat split; try (intros H; exact H).
  - apply orb_true_iff.
  - apply orb_true_iff.
Qed.

Lemma X1_witness :
  DdlParseColumn.not_null
    (DdlParseColumn.set_constraint
       (DdlParseColumn.mk "c" "INT" None None None false false false)
       (Some "default 0 Not Null")) = true.
Proof.
  apply (proj1 (proj2 (proj1 X1_constraint_text_detectors _ _))).
  left. exists "default 0 ", "Not Null", "". split; [reflexivity|].
  case_variants.
Defined.

(** X2.  Reading the constraint and assigning it back is a round trip: on
    a column where a primary key is not null the three flags are unchanged,
    and on every column the constraint string read afterwards is the
    same. *)
Theorem X2_constraint_round_trip :
  (forall col,
      pk_implies_not_null col ->
      flags (DdlParseColumn.set_constraint col
               (Some (DdlParseColumn.constraint col))) = flags col) /\
  (forall col,
      DdlParseColumn.constraint
        (DdlParseColumn.set_constraint col
           (Some (DdlParseColumn.constraint col)))
      = DdlParseColumn.constraint col).
Proof.
  split; intros [n dt len sc k nn pk u]; unfold pk_implies_not_null; simpl.
  - destruct nn, pk, u; intros H; try reflexivity;
      specialize (H eq_refl); discriminate.
  - destruct nn, pk, u; reflexivity.
Qed.

Lemma X2_witness :
  flags (DdlParseColumn.set_constraint
           (DdlParseColumn.mk "c" "INT" None None None true true true)
           (Some (DdlParseColumn.constraint
                    (DdlParseColumn.mk "c" "INT" None None None
                       true true true))))
  = (true, true, true).
Proof.
  apply (proj1 X2_constraint_round_trip
           (DdlParseColumn.mk "c" "INT" None None None true true true)).
  intros _. reflexivity.
Defined.

(** X3.  A table-level constraint only raises flags: applying one never
    clears a flag and never changes the name, the data type, the length or
    the scale; applying it twice is applying it once, and two of them can be
    applied in either order. *)
Theorem X3_table_constraints_only_raise_flags :
  forall type1 type2 col,
    let col1 := DdlParse.apply_constraint type1 col in
    (DdlParseColumn.not_null col = true -> DdlParseColumn.not_null col1 = true) /\
    (DdlParseColumn.primary_key col = true ->
     DdlParseColumn.primary_key col1 = true) /\
    (DdlParseColumn.unique col = true -> DdlParseColumn.unique col1 = true) /\
    (DdlParseColumn.name col1, DdlParseColumn.data_type col1,
     DdlParseColumn.length col1, DdlParseColumn.scale col1)
    = (DdlParseColumn.name col, DdlParseColumn.data_type col,
       DdlParseColumn.length col, DdlParseColumn.scale col) /\
    DdlParse.apply_constraint type1 col1 = col1 /\
    DdlParse.apply_constraint type2 col1
    = DdlParse.apply_constraint type1 (DdlParse.apply_constraint type2 col).
Proof.
  intros type1 type2 [n dt len sc k nn pk u]. cbv zeta.
  unfold DdlParse.apply_constraint.
  destruct (type1 =? "PRIMARY KEY"),
           ((type1 =? "UNIQUE") || (type1 =? "UNIQUE KEY")),
           (type1 =? "NOT NULL"),
           (type2 =? "PRIMARY KEY"),
           ((type2 =? "UNIQUE") || (type2 =? "UNIQUE KEY")),
           (type2 =? "NOT NULL");
    simpl; repeat split; auto.
Qed.

Lemma X3_witness :
  DdlParseColumn.unique
    (DdlParse.apply_constraint "PRIMARY KEY"
       (DdlParseColumn.mk "c" "INT" None None None false false true)) = true.
Proof.
  apply (proj1 (proj2 (proj2 (X3_table_constraints_only_raise_flags
                                "PRIMARY KEY" "UNIQUE"
                                (DdlParseColumn.mk "c" "INT" None None None
                                   false false true))))).
  reflexivity.
Defined.


(* ------------------------------------------------------------------ *)
(** * Further properties: the data type of a column                     *)
(* ------------------------------------------------------------------ *)

Lemma findall_size_spec_has_digit (s : string) :
  has_digit s = true ->
  exists g1 g2 rest first,
    Re.findall_size_spec_first s = Some (g1, g2) /\
    (g1, g2, rest) = Re.match_size_spec first /\
    (exists c tail, first = String c tail /\ is_digit c = true).
Proof.
  unfold has_digit. induction s as [|c s IH]; [discriminate|].
  change (Re.findall_size_spec_first (String c s))
    with (if is_digit c
          then let '(g1, g2, _) := Re.match_size_spec (String c s) in
               Some (g1, g2)
          else Re.findall_size_spec_first s).
  cbn [str_all]. destruct (is_digit c) eqn:D.
  - intros _.
    destruct (Re.match_size_spec (String c s)) as [[g1 g2] rest] eqn:M.
    exists g1, g2, rest, (String c s). rewrite M.
    split; [reflexivity|]. split; [reflexivity|].
    exists c, s. split; [reflexivity | exact D].
  - exact IH.
Qed.

Lemma findall_size_spec_no_digit (s : string) :
  has_digit s = false -> Re.findall_size_spec_first s = None.
Proof.
  unfold has_digit. induction s as [|c s IH]; simpl; [reflexivity|].
  destruct (is_digit c); simpl; [discriminate | exact IH].
Qed.

Lemma str_all_take_while f (s : string) : str_all f (take_while f s) = true.
Proof.
  induction s as [|c s IH]; simpl; [reflexivity|].
  destruct (f c) eqn:E; simpl; [now rewrite E|reflexivity].
Qed.

Lemma match_size_spec_groups (s : string) :
  str_all is_digit (fst (fst (Re.match_size_spec s))) = true /\
  str_all is_digit (snd (fst (Re.match_size_spec s))) = true.
Proof. split; apply str_all_take_while. Qed.

Lemma digit_val_bounds (c : ascii) :
  is_digit c = true -> (0 <= digit_val c <= 9)%Z.
Proof.
  unfold is_digit, in_range, digit_val. intros H.
  apply andb_true_iff in H as [H1 H2].
  apply N.leb_le in H1, H2. lia.
Qed.

Lemma int_acc_bounds (s : string) : forall acc,
  str_all is_digit s = true -> (0 <= acc)%Z -> (acc <= int_acc acc s)%Z.
Proof.
  induction s as [|c s IH]; simpl; intros acc H Hacc; [lia|].
  apply andb_true_iff in H as [Hc Hs].
  pose proof (digit_val_bounds c Hc).
  specialize (IH (acc * 10 + digit_val c)%Z Hs ltac:(lia)). lia.
Qed.

Lemma int_nonneg (s : string) : str_all is_digit s = true -> (0 <= int s)%Z.
Proof. intros H. apply (int_acc_bounds s 0%Z H). lia. Qed.

(** X4.  The second element of the type array is a size when it has a
    digit and a qualifier otherwise.  Without a digit it is appended to
    the upper-cased type word, as it is written, after one space, and
    length and scale stay unset, whatever follows in the array; with a
    digit the data type is the upper-cased type word alone and the length
    is set. *)
Theorem X4_qualifier_or_size :
  forall name ty spec more constraint,
  exists col,
    DdlParseColumn.__init__ name (ty :: spec :: more) constraint = Ok col /\
    (has_digit spec = false ->
     DdlParseColumn.data_type col = upper ty ++ " " ++ spec /\
     DdlParseColumn.length col = None /\
     DdlParseColumn.scale col = None) /\
    (has_digit spec = true ->
     DdlParseColumn.data_type col = upper ty /\
     DdlParseColumn.length col <> None).
Proof.
  intros name ty spec more k.
  unfold DdlParseColumn.__init__, DdlParseColumn._set_data_type.
  destruct (has_digit spec) eqn:D.
  - destruct (findall_size_spec_has_digit spec D) as (g1 & g2 & r & f & -> & _).
    simpl. eexists. split; [reflexivity|].
    split; [discriminate|]. intros _. split; [reflexivity | discriminate].
  - rewrite (findall_size_spec_no_digit spec D).
    simpl. eexists. split; [reflexivity|].
    split; [|discriminate]. intros _. repeat split.
Qed.

Lemma X4_witness :
  exists col,
    DdlParseColumn.__init__ "ts" ["timestamp"; "WITH TIME ZONE"; "6"] None
    = Ok col /\
    DdlParseColumn.data_type col = "TIMESTAMP WITH TIME ZONE" /\
    DdlParseColumn.length col = None.
Proof.
  destruct (X4_qualifier_or_size "ts" "timestamp" "WITH TIME ZONE" ["6"] None)
    as (col & E & H & _).
  exists col. split; [exact E|].
  destruct (H eq_refl) as (Hd & Hl & _). split; [exact Hd | exact Hl].
Defined.

(** X5.  The constructor raises [IndexError] for an empty type array.
    For a type array that is not empty and whose second element has no run
    of digits longer than [int()] converts, it returns a column: it keeps the
    name as it is written, the data type begins with the upper-cased type
    word, the length is not negative, a scale is never zero or negative, and
    there is no scale without a length. *)
Theorem X5_constructed_column :
  (forall name constraint,
      DdlParseColumn.__init__ name [] constraint = Err IndexError) /\
  (forall name ty rest constraint,
    size_within_limit (ty :: rest) ->
    exists col,
      DdlParseColumn.__init__ name (ty :: rest) constraint = Ok col /\
      DdlParseColumn.name col = name /\
      startswith (upper ty) (DdlParseColumn.data_type col) = true /\
      (forall n, DdlParseColumn.length col = Some n -> (0 <= n)%Z) /\
      (forall m, DdlParseColumn.scale col = Some m -> (0 < m)%Z) /\
      (DdlParseColumn.length col = None -> DdlParseColumn.scale col = None)).
Proof.
  split; [reflexivity|].
  intros name ty rest k _.
  unfold DdlParseColumn.__init__, DdlParseColumn._set_data_type.
  destruct rest as [|spec more].
  - simpl. eexists. split; [reflexivity|].
    split; [reflexivity|].
    split; [rewrite <- (append_empty_r (upper ty)) at 2; apply startswith_app|].
    repeat split; try discriminate.
  - destruct (has_digit spec) eqn:D.
    + destruct (findall_size_spec_has_digit spec D)
        as (g1 & g2 & r & f & -> & M & (c & tail & -> & Hc)).
      destruct (match_size_spec_groups (String c tail)) as [D1 D2].
      rewrite <- M in D1, D2. cbn [fst snd] in D1, D2.
      pose proof (int_nonneg g1 D1). pose proof (int_nonneg g2 D2).
      simpl. eexists. split; [reflexivity|].
      split; [reflexivity|].
      split; [rewrite <- (append_empty_r (upper ty)) at 2; apply startswith_app|].
      unfold DdlParseColumn.length, DdlParseColumn.scale. simpl.
      split; [intros n [= <-]; assumption|].
      split; [|discriminate].
      intros m. destruct ((g2 =? "") || (int g2 =? 0)%Z) eqn:Z; [discriminate|].
      intros [= <-]. apply orb_false_iff in Z as [_ Z].
      apply Z.eqb_neq in Z. lia.
    + rewrite (findall_size_spec_no_digit spec D).
      simpl. eexists. split; [reflexivity|].
      split; [reflexivity|].
      split; [apply startswith_app|].
      repeat split; discriminate.
Qed.

Lemma X5_witness :
  exists col,
    DdlParseColumn.__init__ "Price" ["numeric"; "10, 02"] None = Ok col /\
    DdlParseColumn.name col = "Price" /\
    DdlParseColumn.data_type col = "NUMERIC" /\
    DdlParseColumn.scale col = Some 2%Z.
Proof.
  destruct (proj2 X5_constructed_column "Price" "numeric" ["10, 02"] None
              eq_refl)
    as (col & E & Hn & _).
  exists col. split; [exact E|]. split; [exact Hn|].
  vm_compute in E. injection E as <-. split; reflexivity.
Defined.

Lemma items_loop_app (data_type : string) items1 : forall items2 this,
  DdlParseColumn.items_loop data_type (items1 ++ items2) this =
  DdlParseColumn.items_loop data_type items2
    (DdlParseColumn.items_loop data_type items1 this).
Proof.
  induction items1 as [|[bq conds] rest IH]; simpl; intros; [reflexivity|].
  apply IH.
Qed.

Lemma items_loop_result (data_type : string) items : forall this type,
  DdlParseColumn.items_loop data_type items this = Some type ->
  this = Some type \/ In type (map fst items).
Proof.
  induction items as [|[bq conds] rest IH]; simpl; intros this type H;
    [now left|].
  destruct (IH _ _ H) as [E | Hin]; [|now right; right].
  rewrite conditions_loop_spec in E.
  destruct (existsb _ conds); [injection E as <-; right; now left | now left].
Qed.

Lemma first_matching_type_none (data_type : string) items :
  existsb (rule_matches data_type) items = false ->
  first_matching_type data_type items = None.
Proof.
  unfold first_matching_type.
  induction items as [|e rest IH]; simpl; [reflexivity|].
  intros H. apply orb_false_iff in H as [-> H]. now apply IH.
Qed.

(** X6.  A target type that is returned is one of the eight of the table:
    no other string is ever produced. *)
Theorem X6_target_type_is_of_the_table :
  forall col type,
    DdlParseColumn.bigquery_data_type col = Ok type -> In type target_types.
Proof.
  intros col type. unfold DdlParseColumn.bigquery_data_type.
  destruct (DdlParseColumn.items_loop _ _ None) as [t|] eqn:L.
  - intros [= <-].
    destruct (items_loop_result _ _ _ _ L) as [? | Hin]; [discriminate|].
    exact Hin.
  - destruct ((_ =? "NUMERIC") || (_ =? "DECIMAL")); [|discriminate].
    intros [= <-]. destruct (DdlParseColumn._scale col); simpl; auto 10.
Qed.

Lemma X6_witness :
  In "FLOAT" target_types.
Proof.
  apply (X6_target_type_is_of_the_table
           (DdlParseColumn.mk "n" "DECIMAL" (Some 8%Z) (Some 3%Z) None
              false false false)).
  reflexivity.
Defined.

(** X7.  When exactly one entry of the table matches the data type, its
    target type is returned, and it is the first matching one. *)
Theorem X7_single_matching_entry :
  forall col before entry after,
    DdlParseColumn.BQ_DATA_TYPE_DIC = (before ++ entry :: after)%list ->
    existsb (rule_matches (DdlParseColumn.data_type col)) before = false ->
    rule_matches (DdlParseColumn.data_type col) entry = true ->
    existsb (rule_matches (DdlParseColumn.data_type col)) after = false ->
    DdlParseColumn.bigquery_data_type col = Ok (fst entry) /\
    first_matching_type (DdlParseColumn.data_type col)
      DdlParseColumn.BQ_DATA_TYPE_DIC = Some (fst entry).
Proof.
  intros col before [bq conds] after E Hb He Ha.
  unfold DdlParseColumn.bigquery_data_type, DdlParseColumn.data_type in *.
  rewrite E. split.
  - rewrite items_loop_app, (items_loop_no_match _ _ None Hb). simpl.
    rewrite conditions_loop_spec. unfold rule_matches in He. simpl in He.
    rewrite He. now rewrite (items_loop_no_match _ _ _ Ha).
  - rewrite first_matching_type_app, (first_matching_type_none _ _ Hb).
    unfold first_matching_type. simpl. now rewrite He.
Qed.

Lemma X7_witness :
  DdlParseColumn.bigquery_data_type
    (DdlParseColumn.mk "d" "DOUBLE PRECISION" None None None false false false)
  = Ok "FLOAT".
Proof.
  refine (proj1 (X7_single_matching_entry
                   (DdlParseColumn.mk "d" "DOUBLE PRECISION" None None None
                      false false false)
                   (firstn 2 DdlParseColumn.BQ_DATA_TYPE_DIC)
                   ("FLOAT", _)
                   (skipn 3 DdlParseColumn.BQ_DATA_TYPE_DIC)
                   eq_refl eq_refl eq_refl eq_refl)).
Defined.


(* ------------------------------------------------------------------ *)
(** * Further properties: names and fields                              *)
(* ------------------------------------------------------------------ *)

Lemma case_variant_refl (s : string) : case_variant s s.
Proof.
  induction s as [|c s IH]; constructor; [now left | exact IH].
Qed.

Lemma case_variant_to_lower (s : string) : case_variant s (lower s).
Proof.
  induction s as [|c s IH]; constructor; [now right; right | exact IH].
Qed.

Lemma case_variant_to_upper (s : string) : case_variant s (upper s).
Proof.
  induction s as [|c s IH]; constructor; [now right; left | exact IH].
Qed.

Lemma get_name_case_variant (name : string) name_case :
  case_variant name (DdlParseTableColumnBase._get_name name name_case).
Proof.
  destruct name_case; simpl;
    [apply case_variant_refl | apply case_variant_to_lower
     | apply case_variant_to_upper].
Qed.

Lemma append_result cols (name : string) dta k col cols' :
  DdlParseColumnDict.append cols name dta k = Ok (col, cols') ->
  DdlParseColumn.name col = name /\
  cols' = OrderedDict.set cols (lower name) col.
Proof.
  unfold DdlParseColumnDict.append, DdlParseColumn.__init__.
  destruct (DdlParseColumn._set_data_type dta) as [[[dt len] sc]|e];
    simpl; [|discriminate].
  intros [= <- <-]. split; reflexivity.
Qed.

(** X8.  For a column whose name is ASCII text, the name that the column
    gives for a name case is a case variant of its name, so in the
    collection the column was appended to, the name in any of the three
    cases finds the column again. *)
Theorem X8_name_in_any_case_finds_the_column :
  forall cols name data_type_array constraint col cols' name_case,
    ascii_text name ->
    DdlParseColumnDict.append cols name data_type_array constraint
    = Ok (col, cols') ->
    case_variant name (DdlParseColumn._get_name col name_case) /\
    DdlParseColumnDict.__getitem__ cols'
      (DdlParseColumn._get_name col name_case) = Ok col.
Proof.
  intros cols name dta k col cols' nc _ H.
  destruct (append_result _ _ _ _ _ _ H) as [Hn ->].
  unfold DdlParseColumn._get_name. unfold DdlParseColumn.name in Hn.
  rewrite Hn.
  pose proof (get_name_case_variant name nc) as Hv.
  split; [exact Hv|].
  unfold DdlParseColumnDict.__getitem__.
  now rewrite (case_variant_lower _ _ Hv), get_set_same.
Qed.

Lemma X8_witness :
  exists col cols,
    DdlParseColumnDict.append DdlParseColumnDict.empty "UserId" ["INT"] None
    = Ok (col, cols) /\
    DdlParseColumn._get_name col DdlParseBase.upper = "USERID" /\
    DdlParseColumnDict.__getitem__ cols "USERID" = Ok col.
Proof.
  destruct (DdlParseColumnDict.append DdlParseColumnDict.empty "UserId"
              ["INT"] None) as [[col cols]|e] eqn:E;
    [|vm_compute in E; discriminate].
  exists col, cols. split; [reflexivity|].
  assert (N : DdlParseColumn._get_name col DdlParseBase.upper = "USERID")
    by (vm_compute in E; injection E as <- _; reflexivity).
  split; [exact N|]. rewrite <- N.
  exact (proj2 (X8_name_in_any_case_finds_the_column
                  DdlParseColumnDict.empty "UserId" ["INT"] None col cols
                  DdlParseBase.upper eq_refl E)).
Defined.

Lemma to_bigquery_field_error col name_case e :
  DdlParseColumn.bigquery_data_type col = Err e ->
  DdlParseColumn.to_bigquery_field col name_case = Err e.
Proof. unfold DdlParseColumn.to_bigquery_field. now intros ->. Qed.

Lemma to_bigquery_field_resolves col name_case :
  resolves col ->
  exists field, DdlParseColumn.to_bigquery_field col name_case = Ok field.
Proof.
  intros [type H]. unfold DdlParseColumn.to_bigquery_field. rewrite H.
  simpl. eauto.
Qed.

Lemma fields_loop_inv cols name_case : forall bq_fields out,
  DdlParseTable.fields_loop cols name_case bq_fields = Ok out ->
  exists fields,
    out = (bq_fields ++ fields)%list /\
    Forall2 (fun col field =>
               DdlParseColumn.to_bigquery_field col name_case = Ok field)
      cols fields.
Proof.
  induction cols as [|col rest IH]; simpl; intros acc out H.
  - injection H as <-. exists []. split; [now rewrite app_nil_r | constructor].
  - destruct (DdlParseColumn.to_bigquery_field col name_case) as [f|e] eqn:F;
      simpl in H; [|discriminate].
    destruct (IH _ _ H) as (fields & -> & HF).
    exists (f :: fields). split; [now rewrite <- app_assoc | now constructor].
Qed.

Lemma fields_loop_error before : forall col after name_case e bq_fields,
  Forall resolves before ->
  DdlParseColumn.bigquery_data_type col = Err e ->
  DdlParseTable.fields_loop (before ++ col :: after) name_case bq_fields
  = Err e.
Proof.
  induction before as [|c before IH]; simpl; intros col after nc e acc Hb He.
  - now rewrite (to_bigquery_field_error _ _ _ He).
  - inversion Hb as [|? ? Hc Hrest]; subst.
    destruct (to_bigquery_field_resolves c nc Hc) as [f ->]. simpl.
    now apply IH.
Qed.

Lemma fields_loop_total cols name_case : forall bq_fields,
  Forall resolves cols ->
  exists out, DdlParseTable.fields_loop cols name_case bq_fields = Ok out.
Proof.
  induction cols as [|c cols IH]; simpl; intros acc H; [eauto|].
  inversion H as [|? ? Hc Hrest]; subst.
  destruct (to_bigquery_field_resolves c name_case Hc) as [f ->]. simpl.
  now apply IH.
Qed.

(** X9.  The field list of a table is all or nothing.  When it is
    returned it is the bracketed, comma-joined list of the fields of all
    columns in the order of the collection; it is returned when every
    column has a target type; and when a column has none, the error of the
    first such column is raised and no field list is returned. *)
Theorem X9_field_list_is_all_or_nothing :
  forall table name_case,
    (forall text,
        DdlParseTable.to_bigquery_fields table name_case = Ok text ->
        exists fields,
          Forall2 (fun col field =>
                     DdlParseColumn.to_bigquery_field col name_case = Ok field)
            (OrderedDict.values (DdlParseTable.columns table)) fields /\
          text = "[" ++ join "," fields ++ "]") /\
    (Forall resolves (OrderedDict.values (DdlParseTable.columns table)) ->
     exists text, DdlParseTable.to_bigquery_fields table name_case = Ok text) /\
    (forall before col after e,
        OrderedDict.values (DdlParseTable.columns table)
        = (before ++ col :: after)%list ->
        Forall resolves before ->
        DdlParseColumn.bigquery_data_type col = Err e ->
        DdlParseTable.to_bigquery_fields table name_case = Err e).
Proof.
  intros table nc. unfold DdlParseTable.to_bigquery_fields, DdlParseTable.columns.
  repeat split.
  - intros text H.
    destruct (DdlParseTable.fields_loop _ nc []) as [out|e] eqn:L;
      simpl in H; [|discriminate].
    injection H as <-.
    destruct (fields_loop_inv _ _ _ _ L) as (fields & -> & HF).
    exists fields. split; [exact HF | reflexivity].
  - intros H. destruct (fields_loop_total _ nc [] H) as [out ->].
    simpl. eauto.
  - intros before col after e -> Hb He.
    now rewrite (fields_loop_error before col after nc e [] Hb He).
Qed.

Lemma X9_witness :
  (r <- DdlParse.parse fresh (Some "CREATE TABLE t (id INT, g GEOMETRY, n TEXT)") ;;
   DdlParseTable.to_bigquery_fields (snd r) DdlParseBase.lower)
  = Err (ValueError "Unknown data type : 'GEOMETRY'").
Proof.
  destruct (DdlParse.parse fresh
              (Some "CREATE TABLE t (id INT, g GEOMETRY, n TEXT)"))
    as [[self' table]|e] eqn:E; vm_compute in E; [|discriminate].
  injection E as <- <-. cbn [Py.bind snd].
  match goal with
  | |- DdlParseTable.to_bigquery_fields ?table _ = _ =>
      refine (proj2 (proj2 (X9_field_list_is_all_or_nothing table
                              DdlParseBase.lower))
                [_] _ [_] _ eq_refl _ eq_refl)
  end.
  constructor; [|constructor]. eexists. vm_compute. reflexivity.
Defined.


(* ------------------------------------------------------------------ *)
(** * Further properties: the keys of the collection                    *)
(* ------------------------------------------------------------------ *)

Section Keys.

Variable V : Type.
Implicit Type d : OrderedDict.t V.

Lemma get_in_keys d key value :
  OrderedDict.get d key = Some value ->
  existsb (String.eqb key) (OrderedDict.keys d) = true.
Proof.
  induction d as [|[k v] d IH]; simpl; [discriminate|].
  rewrite (String.eqb_sym key k).
  destruct (k =? key); [reflexivity | exact IH].
Qed.

Lemma get_not_in_keys d key :
  OrderedDict.get d key = None ->
  existsb (String.eqb key) (OrderedDict.keys d) = false.
Proof.
  induction d as [|[k v] d IH]; simpl; [reflexivity|].
  rewrite (String.eqb_sym key k).
  destruct (k =? key); [discriminate | exact IH].
Qed.

Lemma keys_set d key value :
  OrderedDict.keys (OrderedDict.set d key value)
  = add_key (OrderedDict.keys d) key.
Proof.
  unfold add_key. induction d as [|[k v] d IH]; simpl; [reflexivity|].
  rewrite (String.eqb_sym key k).
  destruct (k =? key) eqn:E; simpl; [reflexivity|].
  rewrite IH. now destruct (existsb _ (OrderedDict.keys d)).
Qed.

Lemma set_absent d key value :
  OrderedDict.get d key = None ->
  OrderedDict.set d key value = (d ++ [(key, value)])%list.
Proof.
  induction d as [|[k v] d IH]; simpl; [reflexivity|].
  destruct (k =? key); [discriminate|]. intros H. now rewrite IH.
Qed.

Lemma get_In d key value :
  OrderedDict.get d key = Some value -> In (key, value) d.
Proof.
  induction d as [|[k v] d IH]; simpl; [discriminate|].
  destruct (k =? key) eqn:E.
  - apply String.eqb_eq in E. intros [= <-]. left. now subst.
  - intros H. right. now apply IH.
Qed.

Lemma In_get d key value :
  NoDup (OrderedDict.keys d) -> In (key, value) d ->
  OrderedDict.get d key = Some value.
Proof.
  induction d as [|[k v] d IH]; simpl; intros Hnd Hin; [easy|].
  inversion Hnd as [|? ? Hk Hrest]; subst.
  destruct Hin as [[= -> ->] | Hin].
  - now rewrite String.eqb_refl.
  - destruct (k =? key) eqn:E; [|now apply IH].
    apply String.eqb_eq in E. subst k. exfalso. apply Hk.
    unfold OrderedDict.keys. change key with (fst (key, value)).
    now apply in_map.
Qed.

Lemma set_entries_Forall (P : string * V -> Prop) d key value :
  Forall P d -> P (key, value) -> Forall P (OrderedDict.set d key value).
Proof.
  intros Hd Hv. induction d as [|[k v] d IH]; simpl.
  - constructor; [exact Hv | constructor].
  - inversion Hd as [|? ? Hk Hrest]; subst.
    destruct (k =? key) eqn:E.
    + apply String.eqb_eq in E. subst k. now constructor.
    + constructor; auto.
Qed.

End Keys.

Lemma existsb_eqb_In (k : string) ks :
  existsb (String.eqb k) ks = true <-> In k ks.
Proof.
  rewrite existsb_exists. split.
  - intros (x & Hin & E). apply String.eqb_eq in E. now subst.
  - intros H. exists k. split; [exact H | apply String.eqb_refl].
Qed.

Lemma add_key_present ks (k : string) : In k ks -> add_key ks k = ks.
Proof.
  intros H. unfold add_key. apply existsb_eqb_In in H. now rewrite H.
Qed.

Lemma In_add_key ks (k : string) : In k (add_key ks k).
Proof.
  unfold add_key. destruct (existsb (String.eqb k) ks) eqn:E.
  - now apply existsb_eqb_In.
  - apply in_or_app. right. now left.
Qed.

Lemma add_key_extends ks (k : string) :
  exists added, add_key ks k = (ks ++ added)%list.
Proof.
  unfold add_key. destruct (existsb (String.eqb k) ks).
  - exists []. now rewrite app_nil_r.
  - now exists [k].
Qed.

Lemma NoDup_add_key ks (k : string) : NoDup ks -> NoDup (add_key ks k).
Proof.
  unfold add_key. destruct (existsb (String.eqb k) ks) eqn:E; [easy|].
  assert (Hk : ~ In k ks).
  { intros Hin. apply existsb_eqb_In in Hin. congruence. }
  clear E. induction 1 as [|x l Hx Hl IH]; simpl.
  - constructor; [easy | constructor].
  - constructor.
    + intros Hin. apply in_app_or in Hin as [Hin | [-> | []]]; [easy|].
      apply Hk. now left.
    + apply IH. intros Hin. apply Hk. now right.
Qed.

Lemma fold_add_key_extends l : forall ks,
  exists added, fold_left add_key l ks = (ks ++ added)%list.
Proof.
  induction l as [|k l IH]; simpl; intros ks.
  - exists []. now rewrite app_nil_r.
  - destruct (add_key_extends ks k) as [a1 ->].
    destruct (IH (ks ++ a1)%list) as [a2 ->].
    exists (a1 ++ a2)%list. now rewrite app_assoc.
Qed.

Lemma lower_lower (s : string) : lower (lower s) = lower s.
Proof.
  unfold lower. induction s as [|c s IH]; simpl; [reflexivity|].
  now rewrite lower_char_lower_char, IH.
Qed.

(** X10.  Appending a column with a type array that is not empty (and
    whose size is within what [int()] converts) always succeeds, and the
    column that is returned is the one a lookup of the name then returns.
    Under a name that the collection does not have, the column is put at
    the end.  Under a name that it has, in any case, the new column takes
    the place of the old one and the keys and their order stay as they are.
    In both cases the columns under other names are untouched. *)
Theorem X10_append_new_or_again :
  forall cols name ty rest constraint,
    size_within_limit (ty :: rest) ->
    exists col cols',
      DdlParseColumnDict.append cols name (ty :: rest) constraint
      = Ok (col, cols') /\
      DdlParseColumnDict.__getitem__ cols' name = Ok col /\
      (missing cols name -> cols' = (cols ++ [(lower name, col)])%list) /\
      (forall old,
          DdlParseColumnDict.__getitem__ cols name = Ok old ->
          OrderedDict.keys cols' = OrderedDict.keys cols /\
          OrderedDict.get cols' (lower name) = Some col) /\
      (forall other,
          lower other <> lower name ->
          DdlParseColumnDict.__getitem__ cols' other
          = DdlParseColumnDict.__getitem__ cols other).
Proof.
  intros cols name ty rest k _.
  destruct (append_nonempty cols name ty rest k) as (col & H & _).
  exists col, (DdlParseColumnDict.__setitem__ cols name col).
  split; [exact H|].
  unfold DdlParseColumnDict.__setitem__.
  split; [|split; [|split]].
  - unfold DdlParseColumnDict.__getitem__. now rewrite get_set_same.
  - intros Hm. now apply set_absent.
  - intros old. unfold DdlParseColumnDict.__getitem__.
    destruct (OrderedDict.get cols (lower name)) as [v|] eqn:G; [|discriminate].
    intros _. split; [|apply get_set_same].
    rewrite keys_set. apply add_key_present.
    apply existsb_eqb_In. exact (get_in_keys _ _ _ _ G).
  - intros other Hne. unfold DdlParseColumnDict.__getitem__.
    rewrite get_set_other; [reflexivity | congruence].
Qed.

Lemma X10_witness :
  exists c1 cols1 c2 cols2,
    DdlParseColumnDict.append DdlParseColumnDict.empty "Id" ["INT"] None
    = Ok (c1, cols1) /\
    DdlParseColumnDict.append cols1 "ID" ["TEXT"] None = Ok (c2, cols2) /\
    cols1 = [("id", c1)] /\
    OrderedDict.keys cols2 = OrderedDict.keys cols1 /\
    DdlParseColumnDict.__getitem__ cols2 "id" = Ok c2 /\
    DdlParseColumn.data_type c2 = "TEXT".
Proof.
  destruct (X10_append_new_or_again DdlParseColumnDict.empty "Id" "INT" []
              None I) as (c1 & cols1 & E1 & _ & New & _).
  destruct (X10_append_new_or_again cols1 "ID" "TEXT" [] None I)
    as (c2 & cols2 & E2 & _ & _ & Again & _).
  exists c1, cols1, c2, cols2. split; [exact E1|]. split; [exact E2|].
  pose proof (New eq_refl) as N. simpl in N.
  split; [exact N|].
  assert (G : DdlParseColumnDict.__getitem__ cols1 "ID" = Ok c1)
    by (rewrite N; reflexivity).
  destruct (Again c1 G) as [K V].
  split; [exact K|].
  split.
  { unfold DdlParseColumnDict.__getitem__.
    change (lower "id") with (lower "ID"). now rewrite V. }
  vm_compute in E2. now injection E2 as <- _.
Defined.

(** ** The walk keeps the collection well keyed *)

Lemma well_keyed_set cols (key : string) col :
  key = lower (DdlParseColumn.name col) ->
  well_keyed cols -> well_keyed (OrderedDict.set cols key col).
Proof.
  intros Hk [Hnd Hall]. split.
  - rewrite keys_set. now apply NoDup_add_key.
  - apply set_entries_Forall; [exact Hall | exact Hk].
Qed.

Lemma well_keyed_get cols (key : string) col :
  well_keyed cols -> OrderedDict.get cols key = Some col ->
  key = lower (DdlParseColumn.name col).
Proof.
  intros [_ Hall] G. apply get_In in G.
  rewrite Forall_forall in Hall. exact (Hall _ G).
Qed.

Lemma apply_constraint_name (type : string) col :
  DdlParseColumn.name (DdlParse.apply_constraint type col)
  = DdlParseColumn.name col.
Proof.
  unfold DdlParse.apply_constraint.
  destruct (type =? "PRIMARY KEY"); [reflexivity|].
  destruct ((type =? "UNIQUE") || (type =? "UNIQUE KEY")); [reflexivity|].
  destruct (type =? "NOT NULL"); reflexivity.
Qed.

Lemma constraint_columns_loop_well_keyed names : forall cols type cols',
  well_keyed cols ->
  DdlParse.constraint_columns_loop cols type names = Ok cols' ->
  well_keyed cols' /\ OrderedDict.keys cols' = OrderedDict.keys cols.
Proof.
  induction names as [|a rest IH]; simpl; intros cols type cols' Hw H.
  - injection H as <-. now split.
  - unfold DdlParseColumnDict.__getitem__ in H.
    destruct (OrderedDict.get cols (lower a)) as [col|] eqn:G; simpl in H;
      [|discriminate].
    unfold DdlParseColumnDict.store in H.
    destruct (IH _ _ _ (well_keyed_set cols (lower a)
                          (DdlParse.apply_constraint type col)
                          ltac:(rewrite apply_constraint_name;
                                exact (well_keyed_get _ _ _ Hw G)) Hw) H)
      as [Hw' Hk].
    split; [exact Hw'|]. rewrite Hk, keys_set. apply add_key_present.
    apply existsb_eqb_In. exact (get_in_keys _ _ _ _ G).
Qed.

Lemma add_key_twice ks (k : string) : add_key (add_key ks k) k = add_key ks k.
Proof. apply add_key_present, In_add_key. Qed.

Lemma columns_loop_well_keyed elems : forall cols cols',
  well_keyed cols ->
  DdlParse.columns_loop cols elems = Ok cols' ->
  well_keyed cols' /\
  OrderedDict.keys cols'
  = fold_left add_key (defined_keys elems) (OrderedDict.keys cols).
Proof.
  induction elems as [|[c|c] rest IH]; simpl; intros cols cols' Hw H.
  - injection H as <-. now split.
  - destruct (DdlParseColumnDict.append cols (DdlParse.column_name c) _ None)
      as [[col cols1]|e] eqn:A; simpl in H; [|discriminate].
    destruct (append_result _ _ _ _ _ _ A) as [Hn ->].
    assert (Hk : lower (DdlParse.column_name c) = lower (DdlParseColumn.name col))
      by now rewrite Hn.
    pose proof (well_keyed_set _ _ _ Hk Hw) as Hw1.
    destruct (DdlParse.column_constraint c) as [text|].
    + unfold DdlParseColumnDict.store in H.
      destruct (IH _ _ (well_keyed_set _ (lower (DdlParse.column_name c))
                          (DdlParseColumn.set_constraint col (Some text))
                          Hk Hw1) H) as [Hw' Hkeys].
      split; [exact Hw'|]. now rewrite Hkeys, !keys_set, add_key_twice.
    + destruct (IH _ _ Hw1 H) as [Hw' Hkeys].
      split; [exact Hw'|]. now rewrite Hkeys, keys_set.
  - destruct (DdlParse.constraint_columns_loop cols _ _) as [cols1|e] eqn:L;
      simpl in H; [|discriminate].
    destruct (constraint_columns_loop_well_keyed _ _ _ _ Hw L) as [Hw1 Hk1].
    destruct (IH _ _ Hw1 H) as [Hw' Hkeys].
    split; [exact Hw'|]. now rewrite Hkeys, Hk1.
Qed.

Lemma parse_columns_loop self ddl self' table :
  DdlParse.parse self ddl = Ok (self', table) ->
  exists text ret elems,
    DdlParse._ddl self' = Some text /\
    DdlParse._table self' = table /\
    (ddl = Some text \/ ddl = None /\ DdlParse._ddl self = Some text) /\
    Pyparsing.parseString DdlParse._DDL_PARSE_EXPR text = Ok ret /\
    DdlParse.table ret = Some (DdlParseTable.name table) /\
    DdlParse.columns ret = Some elems /\
    DdlParseTable.schema table
    = DdlParse.later (DdlParseTable.schema (DdlParse._table self))
        (DdlParse.schema ret) /\
    DdlParseTable._is_temp table
    = Some (match DdlParse.temp ret with Some _ => true | None => false end) /\
    DdlParse.columns_loop (DdlParseTable.columns (DdlParse._table self)) elems
    = Ok (DdlParseTable.columns table).
Proof.
  unfold DdlParse.parse.
  destruct (match ddl with Some _ => ddl | None => DdlParse._ddl self end)
    as [text|] eqn:D; [|discriminate].
  destruct (Pyparsing.parseString DdlParse._DDL_PARSE_EXPR text) as [ret|e]
    eqn:P; [|discriminate].
  cbn [Py.bind].
  destruct (DdlParse.table ret) as [name'|] eqn:T; [|discriminate].
  destruct (DdlParse.columns ret) as [elems|] eqn:C; [|discriminate].
  cbn [DdlParse.item Py.bind].
  destruct (DdlParse.columns_loop _ elems) as [cols'|e] eqn:L; [|discriminate].
  cbn [Py.bind]. intros [= <- <-].
  exists text, ret, elems. repeat split; try assumption; try reflexivity.
  destruct ddl as [d|]; [left; congruence | right; split; congruence].
Qed.

(** X11.  The collection of a parsed table is well keyed: no two columns
    have the same key, the key of a column is its name in lower case, and
    so looking up the name of any column of the table returns that
    column.  This holds after every successful parse by a new parser, and
    it is kept by a parse that starts from a well keyed collection. *)
Theorem X11_parsed_collection_is_well_keyed :
  (forall self ddl self' table,
      well_keyed (DdlParseTable.columns (DdlParse._table self)) ->
      DdlParse.parse self ddl = Ok (self', table) ->
      well_keyed (DdlParseTable.columns table) /\
      forall col,
        In col (OrderedDict.values (DdlParseTable.columns table)) ->
        DdlParseColumnDict.__getitem__ (DdlParseTable.columns table)
          (DdlParseColumn.name col) = Ok col) /\
  (forall ddl0 ddl self' table,
      DdlParse.parse (DdlParse.__init__ ddl0) ddl = Ok (self', table) ->
      well_keyed (DdlParseTable.columns table)).
Proof.
  assert (G : forall self ddl self' table,
             well_keyed (DdlParseTable.columns (DdlParse._table self)) ->
             DdlParse.parse self ddl = Ok (self', table) ->
             well_keyed (DdlParseTable.columns table)).
  { intros self ddl self' table Hw H.
    destruct (parse_columns_loop _ _ _ _ H)
      as (text & ret & elems & _ & _ & _ & _ & _ & _ & _ & _ & L).
    exact (proj1 (columns_loop_well_keyed _ _ _ Hw L)). }
  split.
  - intros self ddl self' table Hw H.
    pose proof (G _ _ _ _ Hw H) as Hw'. split; [exact Hw'|].
    intros col Hin. unfold OrderedDict.values in Hin.
    apply in_map_iff in Hin as ([k v] & <- & Hin). simpl.
    destruct Hw' as [Hnd Hall].
    rewrite Forall_forall in Hall. pose proof (Hall _ Hin) as Hk. simpl in Hk.
    unfold DdlParseColumnDict.__getitem__. rewrite <- Hk.
    now rewrite (In_get _ _ _ _ Hnd Hin).
  - intros ddl0 ddl self' table. apply G. split; constructor.
Qed.

Lemma X11_witness :
  exists self' table,
    DdlParse.parse fresh (Some "CREATE TABLE t (Id INT, ID TEXT, id DATE)")
    = Ok (self', table) /\
    OrderedDict.keys (DdlParseTable.columns table) = ["id"] /\
    well_keyed (DdlParseTable.columns table).
Proof.
  destruct (DdlParse.parse fresh
              (Some "CREATE TABLE t (Id INT, ID TEXT, id DATE)"))
    as [[self' table]|e] eqn:E; [|vm_compute in E; discriminate].
  exists self', table. split; [reflexivity|]. split.
  - vm_compute in E. injection E as _ <-. reflexivity.
  - exact (proj2 X11_parsed_collection_is_well_keyed None _ _ _ E).
Defined.

(** X12.  A parse keeps the columns the table already has, in their
    positions, and adds after them one key for each new name among the
    column clauses of the body, in the order of their first definition;
    constraint clauses and repeated definitions add none. *)
Theorem X12_keys_after_parse :
  forall self ddl self' table,
    well_keyed (DdlParseTable.columns (DdlParse._table self)) ->
    DdlParse.parse self (Some ddl) = Ok (self', table) ->
    exists ret elems,
      Pyparsing.parseString DdlParse._DDL_PARSE_EXPR ddl = Ok ret /\
      DdlParse.columns ret = Some elems /\
      OrderedDict.keys (DdlParseTable.columns table)
      = fold_left add_key (defined_keys elems)
          (OrderedDict.keys (DdlParseTable.columns (DdlParse._table self))) /\
      exists added,
        OrderedDict.keys (DdlParseTable.columns table)
        = (OrderedDict.keys (DdlParseTable.columns (DdlParse._table self))
           ++ added)%list.
Proof.
  intros self ddl self' table Hw H.
  destruct (parse_columns_loop _ _ _ _ H)
    as (text & ret & elems & _ & _ & [[= <-] | [? _]] & P & _ & C & _ & _ & L);
    [|discriminate].
  exists ret, elems. split; [exact P|]. split; [exact C|].
  destruct (columns_loop_well_keyed _ _ _ Hw L) as [_ K].
  split; [exact K|]. rewrite K. apply fold_add_key_extends.
Qed.

Lemma X12_witness :
  exists self1 table1 self2 table2,
    DdlParse.parse fresh (Some "CREATE TABLE a (x INT, y INT)")
    = Ok (self1, table1) /\
    DdlParse.parse self1 (Some "CREATE TABLE b (z INT, Y TEXT, UNIQUE (x))")
    = Ok (self2, table2) /\
    OrderedDict.keys (DdlParseTable.columns table2) = ["x"; "y"; "z"].
Proof.
  destruct (DdlParse.parse fresh (Some "CREATE TABLE a (x INT, y INT)"))
    as [[self1 table1]|e] eqn:E1; [|vm_compute in E1; discriminate].
  assert (W : well_keyed (DdlParseTable.columns (DdlParse._table self1))).
  { vm_compute in E1. injection E1 as <- _.
    split; repeat constructor; simpl; intuition discriminate. }
  destruct (DdlParse.parse self1
              (Some "CREATE TABLE b (z INT, Y TEXT, UNIQUE (x))"))
    as [[self2 table2]|e] eqn:E2;
    [|vm_compute in E1; injection E1 as <- _; vm_compute in E2; discriminate].
  exists self1, table1, self2, table2.
  split; [reflexivity|]. split; [exact E2|].
  destruct (X12_keys_after_parse _ _ _ _ W E2)
    as (ret & elems & P & C & K & _).
  rewrite K. vm_compute in E1. injection E1 as <- _.
  vm_compute in P. injection P as <-. injection C as <-. reflexivity.
Defined.


(* ------------------------------------------------------------------ *)
(** * Further properties: parsing the same text again                   *)
(* ------------------------------------------------------------------ *)

Lemma override_empty base : override base [] = base.
Proof.
  unfold override.
  transitivity (map (fun entry : string * DdlParseColumn.t => entry) base);
    [|apply map_id].
  apply map_ext. now intros [k v].
Qed.

Lemma keys_override base current :
  OrderedDict.keys (override base current) = OrderedDict.keys base.
Proof.
  unfold override, OrderedDict.keys. rewrite map_map. reflexivity.
Qed.

Lemma override_ext base current1 current2 :
  (forall k, In k (OrderedDict.keys base) ->
             OrderedDict.get current1 k = OrderedDict.get current2 k) ->
  override base current1 = override base current2.
Proof.
  intros H. unfold override. apply map_ext_in. intros [k v] Hin. simpl.
  rewrite (H k); [reflexivity|].
  unfold OrderedDict.keys. change k with (fst (k, v)). now apply in_map.
Qed.

Lemma override_self base :
  NoDup (OrderedDict.keys base) -> override base base = base.
Proof.
  intros Hnd. unfold override.
  transitivity (map (fun entry : string * DdlParseColumn.t => entry) base);
    [|apply map_id].
  apply map_ext_in. intros [k v] Hin. simpl.
  now rewrite (In_get _ _ _ _ Hnd Hin).
Qed.

Lemma override_set base : forall current (key : string) value,
  NoDup (OrderedDict.keys base) -> In key (OrderedDict.keys base) ->
  override base (OrderedDict.set current key value)
  = OrderedDict.set (override base current) key value.
Proof.
  induction base as [|[k v] base IH]; intros current key value Hnd Hin;
    [easy|].
  inversion Hnd as [|? ? Hk Hrest]; subst.
  change (override ((k, v) :: base) (OrderedDict.set current key value))
    with ((k, match OrderedDict.get (OrderedDict.set current key value) k with
              | Some x => x
              | None => v
              end)
          :: override base (OrderedDict.set current key value)).
  change (override ((k, v) :: base) current)
    with ((k, match OrderedDict.get current k with
              | Some x => x
              | None => v
              end) :: override base current).
  simpl OrderedDict.set.
  destruct (k =? key) eqn:E.
  - apply String.eqb_eq in E. subst k.
    rewrite get_set_same. f_equal.
    apply override_ext. intros k' Hk'. apply get_set_other.
    intros ->. contradiction.
  - apply String.eqb_neq in E.
    rewrite get_set_other by congruence. f_equal.
    apply IH; [exact Hrest|].
    destruct Hin as [Hin | Hin]; [simpl in Hin; congruence | exact Hin].
Qed.

Lemma get_override base current (key : string) value :
  OrderedDict.get current key = Some value ->
  In key (OrderedDict.keys base) ->
  OrderedDict.get (override base current) key = Some value.
Proof.
  intros G. induction base as [|[k v] base IH]; simpl; [easy|].
  destruct (k =? key) eqn:E.
  - apply String.eqb_eq in E. subst k. now rewrite G.
  - apply String.eqb_neq in E. intros [Hin | Hin]; [congruence | now apply IH].
Qed.

Lemma constraint_columns_loop_override names : forall base cols type cols',
  NoDup (OrderedDict.keys base) ->
  incl (OrderedDict.keys cols) (OrderedDict.keys base) ->
  DdlParse.constraint_columns_loop cols type names = Ok cols' ->
  DdlParse.constraint_columns_loop (override base cols) type names
  = Ok (override base cols').
Proof.
  induction names as [|a rest IH]; simpl; intros base cols type cols' Hnd Hi H.
  - now injection H as <-.
  - unfold DdlParseColumnDict.__getitem__ in *.
    destruct (OrderedDict.get cols (lower a)) as [col|] eqn:G; simpl in H;
      [|discriminate].
    assert (Hin : In (lower a) (OrderedDict.keys base))
      by (apply Hi, existsb_eqb_In; exact (get_in_keys _ _ _ _ G)).
    rewrite (get_override _ _ _ _ G Hin). simpl.
    unfold DdlParseColumnDict.store in *.
    rewrite <- (override_set base cols (lower a) _ Hnd Hin).
    apply IH; [exact Hnd | | exact H].
    rewrite keys_set, add_key_present; [exact Hi|].
    apply existsb_eqb_In. exact (get_in_keys _ _ _ _ G).
Qed.

Lemma columns_loop_keys_incl elems cols cols' :
  well_keyed cols ->
  DdlParse.columns_loop cols elems = Ok cols' ->
  incl (OrderedDict.keys cols) (OrderedDict.keys cols').
Proof.
  intros Hw H. destruct (columns_loop_well_keyed _ _ _ Hw H) as [_ K].
  destruct (fold_add_key_extends (defined_keys elems) (OrderedDict.keys cols))
    as [added E].
  rewrite K, E. apply incl_appl, incl_refl.
Qed.

(** The walk from [base] with the values of [cols] does what the walk from
    [cols] does, when [base] has all the keys the walk ends with. *)
Lemma columns_loop_override elems : forall base cols cols',
  NoDup (OrderedDict.keys base) ->
  well_keyed cols ->
  DdlParse.columns_loop cols elems = Ok cols' ->
  incl (OrderedDict.keys cols') (OrderedDict.keys base) ->
  DdlParse.columns_loop (override base cols) elems = Ok (override base cols').
Proof.
  induction elems as [|[c|c] rest IH]; simpl; intros base cols cols' Hnd Hw H Hi.
  - now injection H as <-.
  - unfold DdlParseColumnDict.append in *.
    destruct (DdlParseColumn.__init__ (DdlParse.column_name c) _ None)
      as [col|e] eqn:I; simpl in *; [|discriminate].
    assert (Hn : lower (DdlParse.column_name c) = lower (DdlParseColumn.name col)).
    { unfold DdlParseColumn.__init__ in I.
      destruct (DdlParseColumn._set_data_type _) as [[[dt len] sc]|]; simpl in I;
        [|discriminate].
      now injection I as <-. }
    unfold DdlParseColumnDict.__setitem__, DdlParseColumnDict.store in *.
    pose proof (well_keyed_set _ _ _ Hn Hw) as Hw1.
    assert (Hk : In (lower (DdlParse.column_name c)) (OrderedDict.keys base)).
    { apply Hi.
      destruct (DdlParse.column_constraint c) as [text|].
      - apply (columns_loop_keys_incl _ _ _
                 (well_keyed_set _ _ (DdlParseColumn.set_constraint col
                                        (Some text)) Hn Hw1) H).
        rewrite keys_set. apply In_add_key.
      - apply (columns_loop_keys_incl _ _ _ Hw1 H).
        rewrite keys_set. apply In_add_key. }
    destruct (DdlParse.column_constraint c) as [text|].
    + rewrite <- !(override_set base _ _ _ Hnd Hk).
      apply IH; [exact Hnd | | exact H | exact Hi].
      now apply well_keyed_set.
    + rewrite <- (override_set base _ _ _ Hnd Hk).
      now apply IH.
  - destruct (DdlParse.constraint_columns_loop cols _ _) as [cols1|e] eqn:L;
      simpl in H; [|discriminate].
    destruct (constraint_columns_loop_well_keyed _ _ _ _ Hw L) as [Hw1 K1].
    assert (Hi1 : incl (OrderedDict.keys cols) (OrderedDict.keys base)).
    { rewrite <- K1. intros k Hk. apply Hi.
      exact (columns_loop_keys_incl _ _ _ Hw1 H k Hk). }
    rewrite (constraint_columns_loop_override _ _ _ _ _ Hnd Hi1 L). simpl.
    now apply IH.
Qed.

Lemma columns_loop_again elems cols :
  DdlParse.columns_loop [] elems = Ok cols ->
  DdlParse.columns_loop cols elems = Ok cols.
Proof.
  intros H.
  assert (W0 : well_keyed []) by (split; constructor).
  destruct (columns_loop_well_keyed _ _ _ W0 H) as [[Hnd _] _].
  pose proof (columns_loop_override elems cols [] cols Hnd W0 H
                (incl_refl _)) as G.
  now rewrite override_empty, override_self in G.
Qed.

(** X13.  Parsing is idempotent for a new parser: after a successful
    parse, parsing again, without an argument or with the same text,
    returns the same table and leaves the parser as it is.  Each column is
    defined again in its place and the constraints are applied again. *)
Theorem X13_parse_again :
  forall ddl0 ddl self1 table1,
    DdlParse.parse (DdlParse.__init__ ddl0) (Some ddl) = Ok (self1, table1) ->
    DdlParse.parse self1 None = Ok (self1, table1) /\
    DdlParse.parse self1 (Some ddl) = Ok (self1, table1).
Proof.
  intros ddl0 ddl self1 table1 H.
  destruct (parse_columns_loop _ _ _ _ H)
    as (text & ret & elems & D & T & [[= <-] | [? _]] & P & N & C & S & I & L);
    [|discriminate].
  apply columns_loop_again in L.
  destruct self1 as [d1 t1]. simpl in D, T. subst d1 t1.
  destruct table1 as [n s i cols]. simpl in *.
  unfold DdlParseTable.name, DdlParseTable.schema, DdlParseTable.columns in *.
  simpl in *.
  assert (G : forall arg,
             arg = None \/ arg = Some ddl ->
             DdlParse.parse
               {| DdlParse._ddl := Some ddl;
                  DdlParse._table := DdlParseTable.mk n s i cols |} arg
             = Ok ({| DdlParse._ddl := Some ddl;
                      DdlParse._table := DdlParseTable.mk n s i cols |},
                   DdlParseTable.mk n s i cols)).
  { intros arg Harg. unfold DdlParse.parse.
    assert (E : match arg with
                | Some _ => arg
                | None => DdlParse._ddl
                            {| DdlParse._ddl := Some ddl;
                               DdlParse._table := DdlParseTable.mk n s i cols |}
                end = Some ddl)
      by (destruct Harg as [-> | ->]; reflexivity).
    rewrite E, P. cbn [Py.bind]. rewrite N, C.
    cbn [DdlParse.item Py.bind DdlParse._table DdlParseTable._columns
           DdlParseTable._schema].
    rewrite L. cbn [Py.bind]. rewrite <- I.
    assert (Es : DdlParse.later s (DdlParse.schema ret) = s)
      by (rewrite S; destruct (DdlParse.schema ret); reflexivity).
    now rewrite Es. }
  split; apply G; auto.
Qed.

Lemma X13_witness :
  exists self1 table1,
    DdlParse.parse fresh
      (Some "CREATE TABLE s.t (a INT, UNIQUE (a), a TEXT NOT NULL, b INT)")
    = Ok (self1, table1) /\
    DdlParse.parse self1 None = Ok (self1, table1).
Proof.
  destruct (DdlParse.parse fresh
              (Some "CREATE TABLE s.t (a INT, UNIQUE (a), a TEXT NOT NULL, b INT)"))
    as [[self1 table1]|e] eqn:E; [|vm_compute in E; discriminate].
  exists self1, table1. split; [reflexivity|].
  exact (proj1 (X13_parse_again None _ _ _ E)).
Defined.


(* ------------------------------------------------------------------ *)
(** * Further properties: what the grammar returns                      *)
(* ------------------------------------------------------------------ *)

Section Yields.

Import Pyparsing.

Lemma yields_any {A} (p : parser A) : yields (fun _ => True) p.
Proof. now intros s a rest _. Qed.

Lemma yields_weaken {A} (P Q : A -> Prop) (p : parser A) :
  (forall a, P a -> Q a) -> yields P p -> yields Q p.
Proof. intros H Hp s a rest E. exact (H _ (Hp _ _ _ E)). Qed.

Lemma yields_ret {A} (P : A -> Prop) (a : A) : P a -> yields P (ret a).
Proof. now intros H s b rest [= <- _]. Qed.

Lemma yields_andThen {A B} (Q : A -> Prop) (P : B -> Prop)
      (p : parser A) (k : A -> parser B) :
  yields Q p -> (forall a, Q a -> yields P (k a)) -> yields P (andThen p k).
Proof.
  intros Hp Hk s b rest. unfold andThen.
  destruct (p s) as [[a r]|] eqn:E; [|discriminate].
  exact (Hk a (Hp _ _ _ E) r b rest).
Qed.

Lemma yields_MatchFirst {A} (P : A -> Prop) (p q : parser A) :
  yields P p -> yields P q -> yields P (MatchFirst p q).
Proof.
  intros Hp Hq s a rest. unfold MatchFirst.
  destruct (p s) as [[a' r]|] eqn:E; [intros [= <- <-]; eauto | apply Hq].
Qed.

Lemma yields_Optional {A} (P : A -> Prop) (p : parser A) :
  yields P p ->
  yields (fun o => match o with Some a => P a | None => True end) (Optional p).
Proof.
  intros Hp s o rest. unfold Optional.
  destruct (p s) as [[a r]|] eqn:E; intros [= <- _]; [eauto | exact I].
Qed.

Lemma yields_Or {A} (P : A -> Prop) (ps : list (parser A)) :
  Forall (yields P) ps -> yields P (Or ps).
Proof.
  intros Hps s a rest H. unfold Or in H.
  destruct (Or_from_cases _ _ _ _ H) as [? | (p & Hin & E)]; [discriminate|].
  rewrite Forall_forall in Hps. exact (Hps p Hin _ _ _ E).
Qed.

Lemma yields_repeat_match {A} (P : A -> Prop) (p : parser A) :
  yields P p -> forall fuel s, Forall P (fst (repeat_match fuel p s)).
Proof.
  intros Hp. induction fuel as [|fuel IH]; intros s; simpl; [constructor|].
  destruct (p s) as [[a rest]|] eqn:E; simpl; [|constructor].
  specialize (IH rest).
  destruct (repeat_match fuel p rest) as [l rest']. simpl in *.
  constructor; [exact (Hp _ _ _ E) | exact IH].
Qed.

Lemma yields_ZeroOrMore {A} (P : A -> Prop) (p : parser A) :
  yields P p -> yields (Forall P) (ZeroOrMore p).
Proof.
  intros Hp s l rest E.
  assert (E' : repeat_match (S (String.length s)) p s = (l, rest))
    by (unfold ZeroOrMore in E; congruence).
  pose proof (yields_repeat_match P p Hp (S (String.length s)) s) as H.
  now rewrite E' in H.
Qed.

Lemma yields_OneOrMore {A} (P : A -> Prop) (p : parser A) :
  yields P p -> yields (fun l => l <> [] /\ Forall P l) (OneOrMore p).
Proof.
  intros Hp. unfold OneOrMore.
  apply (yields_andThen P); [exact Hp|]. intros a Ha.
  apply (yields_andThen (Forall P)); [now apply yields_ZeroOrMore|].
  intros l Hl. apply yields_ret. split; [discriminate | now constructor].
Qed.

Lemma yields_delimitedList {A} (P : A -> Prop) (p : parser A) :
  yields P p -> yields (fun l => l <> [] /\ Forall P l) (delimitedList p).
Proof.
  intros Hp. unfold delimitedList.
  apply (yields_andThen P); [exact Hp|]. intros a Ha.
  apply (yields_andThen (Forall P)).
  - apply yields_ZeroOrMore.
    apply (yields_andThen (fun _ => True)); [apply yields_any|].
    intros _ _. exact Hp.
  - intros l Hl. apply yields_ret. split; [discriminate | now constructor].
Qed.

Lemma yields_Word chars : yields (is_word chars) (Word chars).
Proof.
  intros s w rest. unfold Word, is_word.
  pose proof (str_all_take_while (char_in chars) (preParse s)) as H.
  destruct (take_while (char_in chars) (preParse s)) as [|c t];
    [discriminate|].
  intros [= <- _]. split; [discriminate | exact H].
Qed.

Lemma yields_CaselessKeyword m : yields (eq m) (CaselessKeyword m).
Proof.
  intros s a rest. unfold CaselessKeyword.
  match goal with |- context [if ?b then _ else _] => destruct b end;
    [|discriminate].
  now intros [= <- _].
Qed.

End Yields.

Lemma Forall_concat {A} (P : A -> Prop) (ll : list (list A)) :
  Forall (Forall P) ll -> Forall P (concat ll).
Proof.
  induction 1 as [|l ll Hl _ IH]; simpl; [constructor|].
  apply Forall_app. now split.
Qed.

Lemma quoted_word_yields :
  yields (is_word identifier_chars) DdlParse.quoted_word.
Proof.
  unfold DdlParse.quoted_word.
  apply (yields_andThen (fun _ => True)); [apply yields_any|]. intros _ _.
  apply (yields_andThen (is_word identifier_chars)); [apply yields_Word|].
  intros w Hw.
  apply (yields_andThen (fun _ => True)); [apply yields_any|]. intros _ _.
  now apply yields_ret.
Qed.

Lemma constraint_clause_yields :
  yields (fun c => well_formed_clause (DdlParse.constraint c))
    DdlParse.constraint_clause.
Proof.
  unfold DdlParse.constraint_clause.
  apply (yields_andThen (fun _ => True)); [apply yields_any|]. intros name1 _.
  apply (yields_andThen (fun type => In type constraint_types)).
  { apply yields_Or. repeat apply Forall_cons; try apply Forall_nil;
      (eapply yields_weaken; [|apply yields_CaselessKeyword]);
      intros a <-; simpl; auto. }
  intros type Htype.
  apply (yields_andThen (fun _ => True)); [apply yields_any|]. intros _ _.
  apply (yields_andThen (fun _ => True)); [apply yields_any|]. intros name2 _.
  apply (yields_andThen (fun _ => True)); [apply yields_any|]. intros _ _.
  apply (yields_andThen (fun _ => True)); [apply yields_any|]. intros _ _.
  apply (yields_andThen
           (fun l => l <> [] /\ Forall (is_word identifier_chars) l));
    [apply yields_delimitedList, quoted_word_yields|].
  intros cols [Hne Hcols].
  apply (yields_andThen (fun _ => True)); [apply yields_any|]. intros _ _.
  apply yields_ret. simpl. auto.
Qed.

Lemma column_clause_yields :
  yields (fun c => well_formed_clause (DdlParse.column c))
    DdlParse.column_clause.
Proof.
  unfold DdlParse.column_clause.
  apply (yields_andThen (is_word identifier_chars));
    [apply quoted_word_yields|].
  intros name Hname.
  apply (yields_andThen (is_word identifier_chars)); [apply yields_Word|].
  intros type_word Htype.
  apply (yields_andThen (fun _ => True)); [apply yields_any|]. intros q _.
  apply (yields_andThen (fun _ => True)); [apply yields_any|]. intros size _.
  apply (yields_andThen (fun _ => True)); [apply yields_any|]. intros text _.
  apply yields_ret. simpl. auto.
Qed.

Lemma clause_yields : yields (Forall well_formed_clause) DdlParse.clause.
Proof.
  unfold DdlParse.clause.
  repeat apply yields_MatchFirst.
  - apply (yields_andThen (fun _ => True)); [apply yields_any|]. intros _ _.
    apply yields_ret. constructor.
  - eapply yields_andThen; [apply constraint_clause_yields|].
    intros c Hc. apply yields_ret. constructor; [exact Hc | constructor].
  - eapply yields_andThen; [apply column_clause_yields|].
    intros c Hc. apply yields_ret. constructor; [exact Hc | constructor].
Qed.

Lemma statement_yields :
  yields (fun ret => well_formed_results ret /\ DdlParse.table ret <> None)
    DdlParse._CREATE_TABLE_STATEMENT.
Proof.
  unfold DdlParse._CREATE_TABLE_STATEMENT.
  apply (yields_andThen (fun _ => True)); [apply yields_any|]. intros _ _.
  apply (yields_andThen (fun o => o = None \/ o = Some "TEMP")).
  { eapply yields_weaken; [|apply yields_Optional, yields_CaselessKeyword].
    intros [a|]; [intros <-; now right | now left]. }
  intros temp Htemp.
  apply (yields_andThen (fun _ => True)); [apply yields_any|]. intros _ _.
  apply (yields_andThen (fun _ => True)); [apply yields_any|]. intros _ _.
  apply (yields_andThen (fun _ => True)); [apply yields_any|]. intros _ _.
  apply (yields_andThen
           (fun o => match o with
                     | Some name => is_word identifier_chars name
                     | None => True
                     end)).
  { apply yields_Optional.
    apply (yields_andThen (is_word identifier_chars)); [apply yields_Word|].
    intros w Hw.
    apply (yields_andThen (fun _ => True)); [apply yields_any|]. intros _ _.
    apply (yields_andThen (fun _ => True)); [apply yields_any|]. intros _ _.
    apply (yields_andThen (fun _ => True)); [apply yields_any|]. intros _ _.
    now apply yields_ret. }
  intros schema Hschema.
  apply (yields_andThen (is_word (Pyparsing.alphanums ++ "_<>")));
    [apply yields_Word|].
  intros table Htable.
  apply (yields_andThen (fun _ => True)); [apply yields_any|]. intros _ _.
  apply (yields_andThen (fun _ => True)); [apply yields_any|]. intros _ _.
  apply (yields_andThen
           (fun ll => ll <> [] /\ Forall (Forall well_formed_clause) ll)).
  { apply yields_delimitedList.
    eapply yields_andThen; [apply yields_OneOrMore, clause_yields|].
    intros l [_ Hl]. apply yields_ret. now apply Forall_concat. }
  intros body [_ Hbody].
  apply yields_ret. split; [|discriminate].
  unfold well_formed_results. simpl.
  split; [split; [exact Htable | now apply Forall_concat]|].
  split; [exact Hschema | exact Htemp].
Qed.

Lemma merge_well_formed r1 r2 :
  well_formed_results r1 -> well_formed_results r2 ->
  well_formed_results (DdlParse.merge r1 r2).
Proof.
  unfold well_formed_results, DdlParse.merge, DdlParse.later. simpl.
  intros (H1 & S1 & T1) (H2 & S2 & T2).
  destruct (DdlParse.table r2), (DdlParse.columns r2); try contradiction;
    (split; [assumption|]);
    (split; [destruct (DdlParse.schema r2); assumption|]);
    destruct (DdlParse.temp r2); try assumption;
    destruct T2 as [? | ?]; try discriminate; auto.
Qed.

Lemma fold_merge_well_formed l : forall r,
  well_formed_results r -> Forall well_formed_results l ->
  well_formed_results (fold_left DdlParse.merge l r).
Proof.
  induction l as [|x l IH]; simpl; intros r Hr Hl; [exact Hr|].
  inversion Hl as [|? ? Hx Hrest]; subst.
  apply IH; [now apply merge_well_formed | exact Hrest].
Qed.

Lemma no_results_well_formed : well_formed_results DdlParse.no_results.
Proof. unfold well_formed_results. simpl. auto. Qed.

Lemma DDL_PARSE_EXPR_yields :
  yields well_formed_results DdlParse._DDL_PARSE_EXPR.
Proof.
  unfold DdlParse._DDL_PARSE_EXPR.
  eapply yields_andThen.
  - apply (yields_OneOrMore well_formed_results).
    apply yields_MatchFirst.
    + apply (yields_andThen (fun _ => True)); [apply yields_any|]. intros _ _.
      apply yields_ret, no_results_well_formed.
    + eapply yields_weaken; [|apply statement_yields]. now intros a [H _].
  - intros l [_ Hl]. apply yields_ret.
    apply fold_merge_well_formed; [apply no_results_well_formed | exact Hl].
Qed.

Lemma parseString_yields ddl ret :
  Pyparsing.parseString DdlParse._DDL_PARSE_EXPR ddl = Ok ret ->
  well_formed_results ret.
Proof.
  unfold Pyparsing.parseString.
  destruct (DdlParse._DDL_PARSE_EXPR (Pyparsing.expandtabs ddl))
    as [[tokens rest]|] eqn:E; [|discriminate].
  intros [= <-]. exact (DDL_PARSE_EXPR_yields _ _ _ E).
Qed.

(** X14.  Whatever the text, a parse tree that the grammar returns is well
    formed: the names table and columns are there together (both, or
    neither when the text has comments only); the table name, the schema
    and every column name and type word are non-empty words over the
    allowed characters, so the quotes around a name are never part of it;
    every constraint clause has one of the four constraint types and names
    at least one column. *)
Theorem X14_parse_tree_is_well_formed :
  forall ddl ret,
    Pyparsing.parseString DdlParse._DDL_PARSE_EXPR ddl = Ok ret ->
    well_formed_results ret.
Proof.
  intros ddl ret. unfold Pyparsing.parseString.
  destruct (DdlParse._DDL_PARSE_EXPR (Pyparsing.expandtabs ddl))
    as [[tokens rest]|] eqn:E; [|discriminate].
  intros [= <-]. exact (DDL_PARSE_EXPR_yields _ _ _ E).
Qed.

Lemma X14_witness :
  exists ret,
    Pyparsing.parseString DdlParse._DDL_PARSE_EXPR
      "create table `s`.`t` (`a` int, unique key uk (`a`))" = Ok ret /\
    DdlParse.table ret = Some "t" /\
    well_formed_results ret.
Proof.
  destruct (Pyparsing.parseString DdlParse._DDL_PARSE_EXPR
              "create table `s`.`t` (`a` int, unique key uk (`a`))")
    as [ret|e] eqn:E; [|vm_compute in E; discriminate].
  exists ret. split; [reflexivity|]. split.
  - vm_compute in E. injection E as <-. reflexivity.
  - exact (X14_parse_tree_is_well_formed _ _ E).
Defined.

Lemma parseString_error {A} (p : Pyparsing.parser A) instring e :
  Pyparsing.parseString p instring = Err e -> e = ParseException.
Proof.
  unfold Pyparsing.parseString.
  destruct (p (Pyparsing.expandtabs instring)) as [[? ?]|]; [discriminate|].
  now intros [= <-].
Qed.

(** X15.  For a text without a run of digits longer than [int()] converts,
    the exceptions of [parse] are these and no others: the error that no
    DDL is specified, when no text is given or stored; the exception of the
    grammar, when the text does not match it; the [KeyError] of the name
    table, when the text has comments only; and the [KeyError] of the
    lower-cased name of a column that a constraint clause of the body
    names. *)
Theorem X15_exceptions_of_parse :
  forall self ddl e,
    (forall text,
        ddl = Some text \/ ddl = None /\ DdlParse._ddl self = Some text ->
        digits_within_limit text = true) ->
    DdlParse.parse self ddl = Err e ->
    (ddl = None /\ DdlParse._ddl self = None /\
     e = ValueError "DDL is not specified") \/
    exists text,
      (ddl = Some text \/ ddl = None /\ DdlParse._ddl self = Some text) /\
      ((Pyparsing.parseString DdlParse._DDL_PARSE_EXPR text
        = Err ParseException /\ e = ParseException) \/
       (exists ret,
           Pyparsing.parseString DdlParse._DDL_PARSE_EXPR text = Ok ret /\
           DdlParse.table ret = None /\ DdlParse.columns ret = None /\
           e = KeyError "table") \/
       (exists ret elems n,
           Pyparsing.parseString DdlParse._DDL_PARSE_EXPR text = Ok ret /\
           DdlParse.columns ret = Some elems /\
           referenced elems n /\ e = KeyError (lower n))).
Proof.
  intros self ddl e _. unfold DdlParse.parse.
  destruct (match ddl with Some _ => ddl | None => DdlParse._ddl self end)
    as [text|] eqn:D.
  - intros H. right. exists text. split.
    { destruct ddl as [d|]; [left; congruence | right; split; congruence]. }
    destruct (Pyparsing.parseString DdlParse._DDL_PARSE_EXPR text) as [ret|e']
      eqn:P.
    + right. pose proof (parseString_yields _ _ P) as [W _].
      cbn [Py.bind] in H.
      destruct (DdlParse.table ret) as [name|] eqn:T;
        destruct (DdlParse.columns ret) as [elems|] eqn:C;
        try contradiction; cbn [DdlParse.item Py.bind] in H.
      * right. destruct (DdlParse.columns_loop _ elems) as [cols|e''] eqn:L;
          cbn [Py.bind] in H; [discriminate|].
        injection H as <-.
        destruct (columns_loop_error _ _ _ L) as (n & Hr & ->).
        exists ret, elems, n. auto.
      * left. injection H as <-. exists ret. auto.
    + left. cbn [Py.bind] in H. injection H as <-.
      pose proof (parseString_error _ _ _ P). subst e'.
      split; reflexivity.
  - intros [= <-]. left. destruct ddl; [discriminate|]. auto.
Qed.

Lemma X15_witness :
  exists ret,
    Pyparsing.parseString DdlParse._DDL_PARSE_EXPR "-- nothing to parse"
    = Ok ret /\
    DdlParse.parse fresh (Some "-- nothing to parse") = Err (KeyError "table").
Proof.
  assert (E : DdlParse.parse fresh (Some "-- nothing to parse")
              = Err (KeyError "table")) by (vm_compute; reflexivity).
  assert (B : forall text,
             Some "-- nothing to parse" = Some text \/
             Some "-- nothing to parse" = None /\
             DdlParse._ddl fresh = Some text ->
             digits_within_limit text = true).
  { intros text [[= <-] | [D _]]; [reflexivity | discriminate]. }
  destruct (X15_exceptions_of_parse _ _ _ B E)
    as [(D & _) | (text & [[= <-] | [D _]] & H)]; try discriminate.
  destruct H as [[P _] | [(ret & P & _) | (ret & elems & n & P & C & _)]].
  - vm_compute in P. discriminate.
  - exists ret. split; [exact P | exact E].
  - exists ret. split; [exact P | exact E].
Defined.


(* ------------------------------------------------------------------ *)
(** * Further properties: resolving a table-level constraint            *)
(* ------------------------------------------------------------------ *)

Lemma apply_constraint_twice (type : string) col :
  DdlParse.apply_constraint type (DdlParse.apply_constraint type col)
  = DdlParse.apply_constraint type col.
Proof.
  destruct col as [n dt len sc k nn pk u]. unfold DdlParse.apply_constraint.
  destruct (type =? "PRIMARY KEY"); [reflexivity|].
  destruct ((type =? "UNIQUE") || (type =? "UNIQUE KEY")); [reflexivity|].
  destruct (type =? "NOT NULL"); reflexivity.
Qed.

(** The value under every key after the loop over the column names of a
    constraint clause. *)
Lemma constraint_columns_loop_get names : forall cols type cols' key,
  DdlParse.constraint_columns_loop cols type names = Ok cols' ->
  OrderedDict.get cols' key
  = if existsb (String.eqb key) (map lower names)
    then option_map (DdlParse.apply_constraint type) (OrderedDict.get cols key)
    else OrderedDict.get cols key.
Proof.
  induction names as [|a rest IH]; simpl; intros cols type cols' key H.
  - now injection H as <-.
  - unfold DdlParseColumnDict.__getitem__ in H.
    destruct (OrderedDict.get cols (lower a)) as [col|] eqn:G; simpl in H;
      [|discriminate].
    unfold DdlParseColumnDict.store in H.
    rewrite (IH _ _ _ key H). clear IH H.
    destruct (key =? lower a) eqn:E.
    + apply String.eqb_eq in E. subst key.
      rewrite get_set_same, G. simpl.
      rewrite apply_constraint_twice. now destruct (existsb _ _).
    + apply String.eqb_neq in E.
      rewrite get_set_other by congruence. reflexivity.
Qed.

(** X16.  When the column names of a table-level constraint clause are all
    found, every named column ends as the column it was with the
    constraint applied once, also when it is named twice or in different
    cases, and the columns that are not named are as they were.  So a
    PRIMARY KEY clause leaves its columns primary key and not null, a UNIQUE
    or UNIQUE KEY clause unique, a NOT NULL clause not null. *)
Theorem X16_table_constraint_resolution :
  forall cols type names cols',
    DdlParse.constraint_columns_loop cols type names = Ok cols' ->
    (forall n,
        In n names ->
        exists before after,
          DdlParseColumnDict.__getitem__ cols n = Ok before /\
          DdlParseColumnDict.__getitem__ cols' n = Ok after /\
          after = DdlParse.apply_constraint type before /\
          (type = "PRIMARY KEY" ->
           DdlParseColumn.primary_key after = true /\
           DdlParseColumn.not_null after = true) /\
          (type = "UNIQUE" \/ type = "UNIQUE KEY" ->
           DdlParseColumn.unique after = true) /\
          (type = "NOT NULL" -> DdlParseColumn.not_null after = true)) /\
    (forall other,
        ~ In (lower other) (map lower names) ->
        DdlParseColumnDict.__getitem__ cols' other
        = DdlParseColumnDict.__getitem__ cols other).
Proof.
  intros cols type names cols' H. split.
  - intros n Hin.
    assert (Hk : existsb (String.eqb (lower n)) (map lower names) = true)
      by (apply existsb_eqb_In; now apply in_map).
    pose proof (constraint_columns_loop_get _ _ _ _ (lower n) H) as G.
    rewrite Hk in G.
    destruct (OrderedDict.get cols (lower n)) as [before|] eqn:B.
    + exists before, (DdlParse.apply_constraint type before).
      unfold DdlParseColumnDict.__getitem__. rewrite B, G. simpl.
      repeat split; try reflexivity.
      * subst type. reflexivity.
      * subst type. reflexivity.
      * intros [-> | ->]; reflexivity.
      * intros ->. reflexivity.
    + exfalso.
      destruct (constraint_columns_loop_missing names cols type n Hin B)
        as (m & _ & E).
      congruence.
  - intros other Hno.
    assert (Hk : existsb (String.eqb (lower other)) (map lower names) = false).
    { destruct (existsb _ _) eqn:E; [|reflexivity].
      apply existsb_eqb_In in E. contradiction. }
    unfold DdlParseColumnDict.__getitem__.
    now rewrite (constraint_columns_loop_get _ _ _ _ (lower other) H), Hk.
Qed.

Lemma X16_witness :
  exists cols',
    DdlParse.constraint_columns_loop
      [("a", DdlParseColumn.mk "a" "INT" None None None false false false);
       ("b", DdlParseColumn.mk "b" "INT" None None None false false false)]
      "PRIMARY KEY" ["A"; "a"] = Ok cols' /\
    DdlParseColumnDict.__getitem__ cols' "a"
    = Ok (DdlParseColumn.mk "a" "INT" None None None true true false) /\
    DdlParseColumnDict.__getitem__ cols' "b"
    = Ok (DdlParseColumn.mk "b" "INT" None None None false false false).
Proof.
  destruct (DdlParse.constraint_columns_loop
              [("a", DdlParseColumn.mk "a" "INT" None None None
                       false false false);
               ("b", DdlParseColumn.mk "b" "INT" None None None
                       false false false)]
              "PRIMARY KEY" ["A"; "a"])
    as [cols'|e] eqn:L; [|vm_compute in L; discriminate].
  exists cols'. split; [reflexivity|].
  destruct (X16_table_constraint_resolution _ _ _ _ L) as [H1 H2].
  split.
  - destruct (H1 "a" ltac:(simpl; auto)) as (x & y & Hx & Hy & -> & _).
    vm_compute in Hx. injection Hx as <-. exact Hy.
  - rewrite (H2 "b"); [reflexivity|].
    vm_compute. intros [H | [H | []]]; discriminate.
Defined.


(* ------------------------------------------------------------------ *)
(** * Further properties: the size in a column clause                   *)
(* ------------------------------------------------------------------ *)

Lemma take_drop_while f (s : string) : take_while f s ++ drop_while f s = s.
Proof.
  induction s as [|c s IH]; simpl; [reflexivity|].
  destruct (f c); simpl; [now rewrite IH | reflexivity].
Qed.

Lemma take_while_drop_while f (s : string) : take_while f (drop_while f s) = "".
Proof.
  induction s as [|c s IH]; simpl; [reflexivity|].
  destruct (f c) eqn:E; [exact IH | simpl; now rewrite E].
Qed.

Lemma take_app_length (a b : string) : take (String.length a) (a ++ b) = a.
Proof. induction a as [|c a IH]; simpl; [now destruct b | now rewrite IH]. Qed.

Lemma length_append (a b : string) :
  String.length (a ++ b) = String.length a + String.length b.
Proof. induction a as [|c a IH]; simpl; [reflexivity | now rewrite IH]. Qed.

Lemma append_assoc (a b c : string) : (a ++ b) ++ c = a ++ b ++ c.
Proof. induction a as [|x a IH]; simpl; [reflexivity | now rewrite IH]. Qed.

(** The match of the size pattern splits the text into the two groups,
    what separates them, and the rest. *)
Lemma match_size_spec_parts (c : ascii) (tail : string) :
  is_digit c = true ->
  exists g1 sp1 cm sp2 g2 rest,
    Re.match_size_spec (String c tail) = (g1, g2, rest) /\
    String c tail = g1 ++ sp1 ++ cm ++ sp2 ++ g2 ++ rest /\
    size_spec_parts g1 sp1 cm sp2 g2.
Proof.
  intros Hc. unfold Re.match_size_spec. cbv zeta.
  set (s := String c tail).
  set (r1 := drop_while is_digit s).
  set (r2 := drop_while Re.is_space r1).
  set (r3 := drop_while Re.is_comma r2).
  set (r4 := drop_while Re.is_space r3).
  exists (take_while is_digit s), (take_while Re.is_space r1),
    (take_while Re.is_comma r2), (take_while Re.is_space r3),
    (take_while is_digit r4), (drop_while is_digit r4).
  split; [reflexivity|]. split.
  - rewrite (take_drop_while is_digit r4). unfold r4.
    rewrite (take_drop_while Re.is_space r3). unfold r3.
    rewrite (take_drop_while Re.is_comma r2). unfold r2.
    rewrite (take_drop_while Re.is_space r1). unfold r1.
    symmetry. apply take_drop_while.
  - constructor; try apply str_all_take_while.
    + unfold s. simpl. now rewrite Hc.
    + destruct (take_while Re.is_space r1) as [|x1 t1] eqn:E1;
        [|right; discriminate].
      destruct (take_while Re.is_comma r2) as [|x2 t2] eqn:E2;
        [|right; discriminate].
      destruct (take_while Re.is_space r3) as [|x3 t3] eqn:E3;
        [|right; discriminate].
      left.
      assert (H1 : r2 = r1)
        by (unfold r2; rewrite <- (take_drop_while Re.is_space r1) at 2;
            now rewrite E1).
      assert (H2 : r3 = r2)
        by (unfold r3; rewrite <- (take_drop_while Re.is_comma r2) at 2;
            now rewrite E2).
      assert (H3 : r4 = r3)
        by (unfold r4; rewrite <- (take_drop_while Re.is_space r3) at 2;
            now rewrite E3).
      rewrite H3, H2, H1. apply take_while_drop_while.
Qed.

Lemma Regex_size_spec_yields : yields is_size Pyparsing.Regex_size_spec.
Proof.
  intros s token rest. unfold Pyparsing.Regex_size_spec.
  destruct (Pyparsing.preParse s) as [|c tail]; [discriminate|].
  destruct (is_digit c) eqn:Hc; [|discriminate].
  destruct (match_size_spec_parts c tail Hc)
    as (g1 & sp1 & cm & sp2 & g2 & r & M & E & P).
  rewrite M.
  assert (T : take (String.length (String c tail) - String.length r)
                (String c tail) = g1 ++ sp1 ++ cm ++ sp2 ++ g2).
  { rewrite E.
    replace (g1 ++ sp1 ++ cm ++ sp2 ++ g2 ++ r)
      with ((g1 ++ sp1 ++ cm ++ sp2 ++ g2) ++ r)
      by now rewrite !append_assoc.
    rewrite length_append, Nat.add_sub. apply take_app_length. }
  rewrite T. intros [= <- _]. exists g1, sp1, cm, sp2, g2. now split.
Qed.

Lemma column_clause_sized :
  yields (fun c => sized_clause (DdlParse.column c)) DdlParse.column_clause.
Proof.
  unfold DdlParse.column_clause.
  apply (yields_andThen (fun _ => True)); [apply yields_any|]. intros name _.
  apply (yields_andThen (fun _ => True)); [apply yields_any|]. intros w _.
  apply (yields_andThen
           (fun o => match o with
                     | Some q => In q type_qualifiers
                     | None => True
                     end)).
  { apply yields_Optional, yields_Or.
    repeat apply Forall_cons; try apply Forall_nil;
      (eapply yields_weaken; [|apply yields_CaselessKeyword]);
      intros a <-; simpl; auto. }
  intros qualifier Hq.
  apply (yields_andThen
           (fun o => match o with Some t => is_size t | None => True end)).
  { apply yields_Optional.
    apply (yields_andThen (fun _ => True)); [apply yields_any|]. intros _ _.
    apply (yields_andThen is_size); [apply Regex_size_spec_yields|].
    intros r Hr.
    apply (yields_andThen (fun _ => True)); [apply yields_any|]. intros _ _.
    now apply yields_ret. }
  intros size Hsize.
  apply (yields_andThen (fun _ => True)); [apply yields_any|]. intros text _.
  apply yields_ret. unfold sized_clause. cbn [DdlParse.column_type snd].
  exists qualifier, size. split; [reflexivity|]. now split.
Qed.

Lemma clause_sized : yields (Forall sized_clause) DdlParse.clause.
Proof.
  unfold DdlParse.clause.
  repeat apply yields_MatchFirst.
  - apply (yields_andThen (fun _ => True)); [apply yields_any|]. intros _ _.
    apply yields_ret. constructor.
  - apply (yields_andThen (fun _ => True)); [apply yields_any|]. intros c _.
    apply yields_ret. constructor; [exact I | constructor].
  - eapply yields_andThen; [apply column_clause_sized|].
    intros c Hc. apply yields_ret. constructor; [exact Hc | constructor].
Qed.

(** A property of every clause that the grammar returns is a property of
    every clause of the parse tree. *)
Lemma DDL_PARSE_EXPR_clauses (P : DdlParse.Clause -> Prop) :
  yields (Forall P) DdlParse.clause ->
  yields (fun ret => forall elems,
              DdlParse.columns ret = Some elems -> Forall P elems)
    DdlParse._DDL_PARSE_EXPR.
Proof.
  intros Hclause.
  set (good := fun ret => forall elems,
                 DdlParse.columns ret = Some elems -> Forall P elems).
  assert (Hs : yields good DdlParse._CREATE_TABLE_STATEMENT).
  { unfold DdlParse._CREATE_TABLE_STATEMENT.
    do 9 (apply (yields_andThen (fun _ => True)); [apply yields_any|];
          intros ? _).
    apply (yields_andThen
             (fun ll => ll <> [] /\ Forall (Forall P) ll)).
    { apply yields_delimitedList.
      eapply yields_andThen; [apply yields_OneOrMore, Hclause|].
      intros l [_ Hl]. apply yields_ret. now apply Forall_concat. }
    intros body [_ Hbody]. apply yields_ret.
    intros elems [= <-]. now apply Forall_concat. }
  assert (Hm : forall r1 r2, good r1 -> good r2 -> good (DdlParse.merge r1 r2)).
  { unfold good, DdlParse.merge, DdlParse.later. simpl.
    intros r1 r2 H1 H2 elems.
    destruct (DdlParse.columns r2); [apply H2 | apply H1]. }
  assert (Hf : forall l r, good r -> Forall good l ->
                           good (fold_left DdlParse.merge l r)).
  { induction l as [|x l IH]; simpl; intros r Hr Hl; [exact Hr|].
    inversion Hl; subst. apply IH; auto. }
  unfold DdlParse._DDL_PARSE_EXPR.
  eapply yields_andThen.
  - apply (yields_OneOrMore good).
    apply yields_MatchFirst; [|exact Hs].
    apply (yields_andThen (fun _ => True)); [apply yields_any|]. intros _ _.
    apply yields_ret. intros elems. discriminate.
  - intros l [_ Hl]. apply yields_ret.
    apply Hf; [intros elems; discriminate | exact Hl].
Qed.

(** X17.  The grammar and the column constructor agree on what a size
    is, but a size is only read directly after the type word.  In every
    parse tree, what follows the type word of a column clause is nothing, a
    size, or one of the three qualifiers with or without a size after it,
    where a size has the shape digits, white space, commas, white space,
    digits.  The column built from the clause (for a size within what
    [int()] converts) has, in the first case, the upper-cased type word as
    data type and no length; in the second, the upper-cased type word as
    data type, the first integer as length and the second as scale unless it
    is missing or zero; in the third, the upper-cased type word, a space
    and the qualifier as data type, and neither length nor scale: the size
    after a qualifier is not read. *)
Theorem X17_size_of_a_column_clause :
  forall ddl ret elems c,
    Pyparsing.parseString DdlParse._DDL_PARSE_EXPR ddl = Ok ret ->
    DdlParse.columns ret = Some elems ->
    In (DdlParse.column c) elems ->
    size_within_limit
      (fst (DdlParse.column_type c) :: snd (DdlParse.column_type c)) ->
    exists col,
      DdlParseColumn.__init__ (DdlParse.column_name c)
        (fst (DdlParse.column_type c) :: snd (DdlParse.column_type c)) None
      = Ok col /\
      ((snd (DdlParse.column_type c) = [] /\
        DdlParseColumn.data_type col = upper (fst (DdlParse.column_type c)) /\
        DdlParseColumn.length col = None /\
        DdlParseColumn.scale col = None) \/
       (exists d1 sp1 cm sp2 d2,
           snd (DdlParse.column_type c) = [d1 ++ sp1 ++ cm ++ sp2 ++ d2] /\
           size_spec_parts d1 sp1 cm sp2 d2 /\
           DdlParseColumn.data_type col = upper (fst (DdlParse.column_type c)) /\
           DdlParseColumn.length col = Some (int d1) /\
           DdlParseColumn.scale col
           = (if (d2 =? "") || (int d2 =? 0)%Z then None else Some (int d2))) \/
       (exists q more,
           snd (DdlParse.column_type c) = q :: more /\
           In q type_qualifiers /\
           (more = [] \/ exists size, more = [size] /\ is_size size) /\
           DdlParseColumn.data_type col
           = upper (fst (DdlParse.column_type c)) ++ " " ++ q /\
           DdlParseColumn.length col = None /\
           DdlParseColumn.scale col = None)).
Proof.
  intros ddl ret elems c P C Hin _.
  unfold Pyparsing.parseString in P.
  destruct (DdlParse._DDL_PARSE_EXPR (Pyparsing.expandtabs ddl))
    as [[tokens rest]|] eqn:E; [|discriminate].
  injection P as ->.
  pose proof (DDL_PARSE_EXPR_clauses sized_clause clause_sized _ _ _ E
                elems C) as Hall.
  rewrite Forall_forall in Hall. specialize (Hall _ Hin).
  destruct Hall as (qualifier & size & -> & Hq & Hs).
  set (w := fst (DdlParse.column_type c)).
  unfold DdlParseColumn.__init__.
  destruct qualifier as [q|].
  - assert (Hd : has_digit q = false).
    { simpl in Hq. destruct Hq as [<-|[<-|[<-|[]]]]; reflexivity. }
    cbn [DdlParse.option_list app].
    unfold DdlParseColumn._set_data_type.
    rewrite (findall_size_spec_no_digit q Hd). simpl.
    eexists. split; [reflexivity|]. right. right.
    exists q, (DdlParse.option_list size).
    split; [reflexivity|]. split; [exact Hq|].
    split; [|split; [reflexivity | split; reflexivity]].
    destruct size as [t|]; [right; exists t; now split | now left].
  - destruct size as [t|]; cbn [DdlParse.option_list app].
    + destruct Hs as (d1 & sp1 & cm & sp2 & d2 & -> & Hparts).
      rewrite (set_data_type_size_spec w _ _ _ _ _ [] Hparts). simpl.
      eexists. split; [reflexivity|]. right. left.
      exists d1, sp1, cm, sp2, d2.
      split; [reflexivity|]. split; [exact Hparts|].
      split; [reflexivity|]. split; reflexivity.
    + simpl. eexists. split; [reflexivity|]. left.
      split; [reflexivity|]. split; [reflexivity|]. split; reflexivity.
Qed.

Lemma X17_witness :
  exists col,
    DdlParseColumn.__init__ "w" ["double"; "PRECISION"; "10,2"] None = Ok col /\
    DdlParseColumn.data_type col = "DOUBLE PRECISION" /\
    DdlParseColumn.length col = None.
Proof.
  destruct (X17_size_of_a_column_clause
              "CREATE TABLE t (price decimal( 12 , 4 ) not null, w double precision(10,2))"
              {| DdlParse.temp := None; DdlParse.schema := None;
                 DdlParse.table := Some "t";
                 DdlParse.columns :=
                   Some [DdlParse.column
                           {| DdlParse.column_name := "price";
                              DdlParse.column_type := ("decimal", ["12 , 4"]);
                              DdlParse.column_constraint := Some "not null" |};
                         DdlParse.column
                           {| DdlParse.column_name := "w";
                              DdlParse.column_type :=
                                ("double", ["PRECISION"; "10,2"]);
                              DdlParse.column_constraint := None |}]
              |} _
              {| DdlParse.column_name := "w";
                 DdlParse.column_type := ("double", ["PRECISION"; "10,2"]);
                 DdlParse.column_constraint := None |}
              ltac:(vm_compute; reflexivity) eq_refl
              (or_intror (or_introl eq_refl)) eq_refl)
    as (col & E & _).
  exists col. split; [exact E|].
  vm_compute in E. injection E as <-. split; reflexivity.
Defined.


(* ------------------------------------------------------------------ *)
(** * Further properties: a comment line before the statement           *)
(* ------------------------------------------------------------------ *)

Lemma expandtabs_from_newline (a b : string) : forall column,
  Pyparsing.expandtabs_from column (a ++ String "010" b)
  = Pyparsing.expandtabs_from column a
    ++ String "010" (Pyparsing.expandtabs_from 0 b).
Proof.
  induction a as [|c a IH]; intros column; [reflexivity|].
  simpl. destruct (code c =? 9)%N.
  - now rewrite IH, append_assoc.
  - destruct ((code c =? 10)%N || (code c =? 13)%N); simpl; now rewrite IH.
Qed.

Lemma expandtabs_from_no_tab (s : string) : forall column,
  str_all (fun c => negb ((code c =? 9) || (code c =? 10))%N) s = true ->
  Pyparsing.expandtabs_from column s = s.
Proof.
  induction s as [|c s IH]; intros column H; [reflexivity|].
  simpl in *. apply andb_true_iff in H as [Hc Hs].
  apply negb_true_iff, orb_false_iff in Hc as [H9 H10].
  rewrite H9, H10. simpl.
  destruct (code c =? 13)%N; now rewrite IH.
Qed.

Lemma drop_while_app_stop f (a b : string) :
  drop_while f a <> "" -> drop_while f (a ++ b) = drop_while f a ++ b.
Proof.
  induction a as [|c a IH]; simpl; [congruence|].
  destruct (f c); [exact IH | reflexivity].
Qed.

Lemma str_all_drop_while (P f : ascii -> bool) (s : string) :
  str_all P s = true -> str_all P (drop_while f s) = true.
Proof.
  induction s as [|c s IH]; simpl; [reflexivity|].
  intros H. destruct (f c); [|exact H].
  apply andb_true_iff in H as [_ H]. now apply IH.
Qed.

Lemma str_all_weaken (P Q : ascii -> bool) (s : string) :
  (forall c, P c = true -> Q c = true) ->
  str_all P s = true -> str_all Q s = true.
Proof.
  intros HPQ. induction s as [|c s IH]; simpl; [reflexivity|].
  intros H. apply andb_true_iff in H as [Hc H].
  now rewrite (HPQ c Hc), IH.
Qed.

(** The comment element reads a visible comment up to the end of its line. *)
Lemma COMMENT_reads_line (text rest : string) :
  visible_comment text ->
  DdlParse._COMMENT ("--" ++ text ++ String "010" rest)
  = Some (tt, String "010" rest).
Proof.
  intros [Hplain Hvis].
  remember (drop_while Pyparsing.is_white text) as shown eqn:S.
  assert (Hn : str_all (fun c => negb (code c =? 10)%N) shown = true).
  { subst shown. apply str_all_drop_while.
    revert Hplain. apply str_all_weaken. intros c H.
    apply negb_true_iff, orb_false_iff in H as [_ H]. now rewrite H. }
  unfold DdlParse._COMMENT, Pyparsing.Suppress, Pyparsing.andThen.
  change (Pyparsing.Literal "--" ("--" ++ text ++ String "010" rest))
    with (Some ("--", text ++ String "010" rest)).
  unfold Pyparsing.Regex_rest_of_line, Pyparsing.preParse.
  rewrite (drop_while_app_stop _ text _ ltac:(now rewrite <- S)), <- S.
  rewrite (take_while_all _ _ _ Hn), (drop_while_all _ _ _ Hn).
  simpl take_while. simpl drop_while. rewrite append_empty_r.
  destruct shown as [|c t]; [contradiction | reflexivity].
Qed.

(** The elements that [_DDL_PARSE_EXPR] repeats. *)
Lemma comment_or_statement_after_newline (rest : string) :
  Pyparsing.MatchFirst
    (Pyparsing.andThen DdlParse._COMMENT
       (fun _ => Pyparsing.ret DdlParse.no_results))
    DdlParse._CREATE_TABLE_STATEMENT (String "010" rest)
  = Pyparsing.MatchFirst
      (Pyparsing.andThen DdlParse._COMMENT
         (fun _ => Pyparsing.ret DdlParse.no_results))
      DdlParse._CREATE_TABLE_STATEMENT rest.
Proof. reflexivity. Qed.

Lemma DDL_PARSE_EXPR_after_comment (text s : string) ret rest :
  visible_comment text ->
  DdlParse._DDL_PARSE_EXPR s = Some (ret, rest) ->
  DdlParse._DDL_PARSE_EXPR ("--" ++ text ++ String "010" s) = Some (ret, rest).
Proof.
  intros Hc. unfold DdlParse._DDL_PARSE_EXPR, Pyparsing.OneOrMore.
  set (p := Pyparsing.MatchFirst
              (Pyparsing.andThen DdlParse._COMMENT
                 (fun _ => Pyparsing.ret DdlParse.no_results))
              DdlParse._CREATE_TABLE_STATEMENT).
  assert (Hp : consuming p) by exact statement_consuming.
  assert (H0 : p ("--" ++ text ++ String "010" s)
               = Some (DdlParse.no_results, String "010" s)).
  { unfold p, Pyparsing.MatchFirst.
    unfold Pyparsing.andThen at 1. now rewrite (COMMENT_reads_line _ _ Hc). }
  unfold Pyparsing.andThen at 1 2 3.
  destruct (p s) as [[a r1]|] eqn:E1; [|discriminate].
  unfold Pyparsing.ZeroOrMore, Pyparsing.ret.
  destruct (Pyparsing.repeat_match (S (String.length r1)) p r1)
    as [l rest1] eqn:R1.
  intros [= <- <-].
  unfold Pyparsing.andThen. rewrite H0.
  change (Pyparsing.repeat_match (S (String.length (String "010" s))) p
            (String "010" s))
    with (match p (String "010" s) with
          | None => ([], String "010" s)
          | Some (a, rest) =>
              let '(l, rest') :=
                Pyparsing.repeat_match (String.length (String "010" s)) p rest
              in (a :: l, rest')
          end).
  unfold p at 1. rewrite comment_or_statement_after_newline. fold p.
  rewrite E1.
  pose proof (Hp _ _ _ E1) as Hlt.
  rewrite (repeat_match_fuel p Hp (String.length (String "010" s))
             (S (String.length r1)) r1 ltac:(simpl; lia) ltac:(lia)).
  rewrite R1. reflexivity.
Qed.

Lemma DDL_PARSE_EXPR_only_comment (text s : string) :
  visible_comment text ->
  DdlParse._DDL_PARSE_EXPR s = None ->
  DdlParse._DDL_PARSE_EXPR ("--" ++ text ++ String "010" s)
  = Some (DdlParse.no_results, String "010" s).
Proof.
  intros Hc. unfold DdlParse._DDL_PARSE_EXPR, Pyparsing.OneOrMore.
  set (p := Pyparsing.MatchFirst
              (Pyparsing.andThen DdlParse._COMMENT
                 (fun _ => Pyparsing.ret DdlParse.no_results))
              DdlParse._CREATE_TABLE_STATEMENT).
  assert (H0 : p ("--" ++ text ++ String "010" s)
               = Some (DdlParse.no_results, String "010" s)).
  { unfold p, Pyparsing.MatchFirst.
    unfold Pyparsing.andThen at 1. now rewrite (COMMENT_reads_line _ _ Hc). }
  unfold Pyparsing.andThen at 1 2 3.
  destruct (p s) as [[a r1]|] eqn:E1.
  { unfold Pyparsing.ZeroOrMore, Pyparsing.ret.
    destruct (Pyparsing.repeat_match (S (String.length r1)) p r1).
    discriminate. }
  intros _. unfold Pyparsing.andThen. rewrite H0.
  unfold Pyparsing.ZeroOrMore.
  change (Pyparsing.repeat_match (S (String.length (String "010" s))) p
            (String "010" s))
    with (match p (String "010" s) with
          | None => ([], String "010" s)
          | Some (a, rest) =>
              let '(l, rest') :=
                Pyparsing.repeat_match (String.length (String "010" s)) p rest
              in (a :: l, rest')
          end).
  unfold p at 1. rewrite comment_or_statement_after_newline. fold p.
  rewrite E1. reflexivity.
Qed.

Lemma parseString_after_comment (text ddl : string) :
  visible_comment text ->
  Pyparsing.parseString DdlParse._DDL_PARSE_EXPR (comment_line text ++ ddl)
  = match Pyparsing.parseString DdlParse._DDL_PARSE_EXPR ddl with
    | Ok ret => Ok ret
    | Err _ => Ok DdlParse.no_results
    end.
Proof.
  intros Hc. unfold Pyparsing.parseString, Pyparsing.expandtabs, comment_line.
  replace (("--" ++ text ++ String "010" "") ++ ddl)
    with (("--" ++ text) ++ String "010" ddl)
    by (now rewrite !append_assoc).
  rewrite expandtabs_from_newline.
  rewrite (expandtabs_from_no_tab ("--" ++ text) 0)
    by (simpl; exact (proj1 Hc)).
  rewrite append_assoc.
  destruct (DdlParse._DDL_PARSE_EXPR (Pyparsing.expandtabs_from 0 ddl))
    as [[tokens rest]|] eqn:E.
  - now rewrite (DDL_PARSE_EXPR_after_comment _ _ _ _ Hc E).
  - now rewrite (DDL_PARSE_EXPR_only_comment _ _ Hc E).
Qed.

(** X18.  A comment line before the DDL text, when it shows something (its
    text is on one line, has no tab and has a character that is not white
    space), is ignored exactly when the grammar accepts the text that
    follows.  If the grammar accepts the text, it returns the same parse
    tree for the comment line followed by the text, and [parse] returns the
    same table or raises the same exception.  If the grammar rejects the
    text, it accepts the comment line followed by the text, with a parse
    tree without names, so the exception of [parse] changes from the
    exception of the grammar to the [KeyError] of the name table. *)
Theorem X18_leading_comment_line :
  forall self text ddl,
    visible_comment text ->
    (forall ret,
        Pyparsing.parseString DdlParse._DDL_PARSE_EXPR ddl = Ok ret ->
        Pyparsing.parseString DdlParse._DDL_PARSE_EXPR (comment_line text ++ ddl)
        = Ok ret /\
        returned (DdlParse.parse self (Some (comment_line text ++ ddl)))
        = returned (DdlParse.parse self (Some ddl))) /\
    (forall e,
        Pyparsing.parseString DdlParse._DDL_PARSE_EXPR ddl = Err e ->
        Pyparsing.parseString DdlParse._DDL_PARSE_EXPR (comment_line text ++ ddl)
        = Ok DdlParse.no_results /\
        DdlParse.parse self (Some ddl) = Err ParseException /\
        DdlParse.parse self (Some (comment_line text ++ ddl))
        = Err (KeyError "table")).
Proof.
  intros self text ddl Hc.
  pose proof (parseString_after_comment text ddl Hc) as P'.
  split.
  - intros ret P. rewrite P in P'. split; [exact P'|].
    unfold DdlParse.parse. cbv beta iota zeta. rewrite P, P'. cbn [Py.bind].
    destruct (DdlParse.item "table" (DdlParse.table ret)); [|reflexivity].
    cbn [Py.bind].
    destruct (DdlParse.item "columns" (DdlParse.columns ret)); [|reflexivity].
    cbn [Py.bind].
    destruct (DdlParse.columns_loop _ _); reflexivity.
  - intros e P. rewrite P in P'. split; [exact P'|].
    pose proof (parseString_error _ _ _ P) as ->.
    unfold DdlParse.parse. cbv beta iota zeta. rewrite P, P'.
    split; reflexivity.
Qed.

Lemma X18_witness :
  returned (DdlParse.parse fresh
              (Some (comment_line " the users" ++ "CREATE TABLE u (id INT)")))
  = returned (DdlParse.parse fresh (Some "CREATE TABLE u (id INT)")) /\
  DdlParse.parse fresh (Some "CREATE u") = Err ParseException /\
  DdlParse.parse fresh (Some (comment_line " the users" ++ "CREATE u"))
  = Err (KeyError "table").
Proof.
  assert (Hc : visible_comment " the users").
  { split; [reflexivity | vm_compute; discriminate]. }
  split.
  - destruct (Pyparsing.parseString DdlParse._DDL_PARSE_EXPR
                "CREATE TABLE u (id INT)") as [ret|e] eqn:P;
      [|vm_compute in P; discriminate].
    exact (proj2 (proj1 (X18_leading_comment_line fresh " the users" _ Hc)
                    ret P)).
  - destruct (Pyparsing.parseString DdlParse._DDL_PARSE_EXPR "CREATE u")
      as [ret|e] eqn:P; [vm_compute in P; discriminate|].
    exact (proj2 (proj2 (X18_leading_comment_line fresh " the users" _ Hc)
                    e P)).
Defined.

(* ------------------------------------------------------------------ *)
(** * Further properties: a parser used for a second statement          *)
(* ------------------------------------------------------------------ *)

(** X19.  A parser that is used for a second text returns its one table
    again: the table has the name and the temporary flag of the second text,
    but the schema is only assigned when the second text names one, so a
    second text without schema leaves the table with the schema it had after
    the first parse; and the keys of the first table come first among the
    keys of the second. *)
Theorem X19_second_parse_keeps_schema_and_columns :
  forall self ddl1 self1 table1 ddl2 self2 table2,
    well_keyed (DdlParseTable.columns (DdlParse._table self)) ->
    DdlParse.parse self (Some ddl1) = Ok (self1, table1) ->
    DdlParse.parse self1 (Some ddl2) = Ok (self2, table2) ->
    exists ret2,
      Pyparsing.parseString DdlParse._DDL_PARSE_EXPR ddl2 = Ok ret2 /\
      DdlParse.table ret2 = Some (DdlParseTable.name table2) /\
      DdlParseTable._is_temp table2
      = Some (match DdlParse.temp ret2 with Some _ => true | None => false end) /\
      DdlParseTable.schema table2
      = match DdlParse.schema ret2 with
        | Some s => Some s
        | None => DdlParseTable.schema table1
        end /\
      exists added,
        OrderedDict.keys (DdlParseTable.columns table2)
        = (OrderedDict.keys (DdlParseTable.columns table1) ++ added)%list.
Proof.
  intros self ddl1 self1 table1 ddl2 self2 table2 Hw H1 H2.
  destruct (parse_columns_loop _ _ _ _ H1)
    as (text1 & ret1 & elems1 & _ & T1 & _ & _ & _ & _ & _ & _ & L1).
  destruct (parse_columns_loop _ _ _ _ H2)
    as (text2 & ret2 & elems2 & _ & _ & [[= <-] | [? _]] & P2 & N2 & _ & S2
        & I2 & L2); [|discriminate].
  rewrite T1 in S2, L2.
  exists ret2. split; [exact P2|]. split; [exact N2|]. split; [exact I2|].
  split.
  - rewrite S2. unfold DdlParse.later. now destruct (DdlParse.schema ret2).
  - destruct (columns_loop_well_keyed _ _ _ Hw L1) as [Hw1 _].
    destruct (columns_loop_well_keyed _ _ _ Hw1 L2) as [_ K].
    rewrite K. apply fold_add_key_extends.
Qed.

Lemma X19_witness :
  exists self1 table1 self2 table2,
    DdlParse.parse fresh (Some "CREATE TABLE s.a (x INT)") = Ok (self1, table1) /\
    DdlParse.parse self1 (Some "CREATE TEMP TABLE b (y INT)")
    = Ok (self2, table2) /\
    DdlParseTable.name table2 = "b" /\
    DdlParseTable._is_temp table2 = Some true /\
    DdlParseTable.schema table2 = Some "s" /\
    OrderedDict.keys (DdlParseTable.columns table2) = ["x"; "y"].
Proof.
  destruct (DdlParse.parse fresh (Some "CREATE TABLE s.a (x INT)"))
    as [[self1 table1]|e] eqn:E1; [|vm_compute in E1; discriminate].
  destruct (DdlParse.parse self1 (Some "CREATE TEMP TABLE b (y INT)"))
    as [[self2 table2]|e] eqn:E2;
    [|vm_compute in E1; injection E1 as <- _; vm_compute in E2; discriminate].
  exists self1, table1, self2, table2.
  split; [reflexivity|]. split; [exact E2|].
  assert (W : well_keyed (DdlParseTable.columns (DdlParse._table fresh))).
  { split; constructor. }
  destruct (X19_second_parse_keeps_schema_and_columns _ _ _ _ _ _ _ W E1 E2)
    as (ret2 & P2 & N2 & I2 & S2 & _).
  vm_compute in P2. injection P2 as <-.
  vm_compute in E1. injection E1 as <- <-.
  vm_compute in E2. injection E2 as <- <-.
  split; [reflexivity|]. split; [exact I2|]. split; [exact S2|].
  reflexivity.
Defined.
